(** * NodeNetworkConfigurationPolicy: a shallow embedding

    The Python class [NodeNetworkConfigurationPolicy] of
    [resources/node_network_configuration_policy.py] is embedded as
    functions in a state-and-exception monad.  The interface dicts that
    the class shares between [self.iface], [self.ifaces] and
    [self.desired_state["interfaces"]] live in an explicit heap, so that
    a mutation through one reference is seen through the others, exactly
    as in Python.  The collaborators the class talks to (the resource
    store behind [Resource], [NodeNetworkState], the pods, the clock) are
    an [Oracle] that fixes their answers and a [World] that records what
    they were asked.  [TimeoutSampler] and [Resource.__enter__] live in
    other files of the repository and are modelled from the
    specification.  The setter of the property [ipv4_dhcp] can store
    [None] in the desired-state list, which no property below needs; it
    is not embedded. *)

From Stdlib Require Import ZArith String Ascii List Bool Lia.
From stdpp Require Import base option list strings.
Local Open Scope string_scope.
Local Open Scope list_scope.
Local Open Scope Z_scope.

(** ** Exceptions, results, logging *)

(** The subclasses of Python's [Exception] that the module raises, lets
    through or catches. *)
Inductive Exn :=
| ConflictError
| TimeoutExpiredError
| NNCPConfigurationFailed (msg : string)
| KeyError (key : string)
| TypeError
| AttributeError (attr : string)
| ValueError
| StopIteration
| OtherError (what : string).

Global Instance Exn_eq_dec : EqDecision Exn.
Proof. solve_decision. Defined.

(** Why a run of the model stopped without a Python outcome: a reference
    that points outside the heap (no Python state has one), or a loop
    that used up its iteration budget. *)
Inductive Fault := DanglingRef | FuelExhausted.

Inductive Result (A : Type) :=
| Ok (a : A)
| Raise (e : Exn)
| Abort (why : Fault).
Arguments Ok {A} a.
Arguments Raise {A} e.
Arguments Abort {A} why.

Inductive LogRecord :=
| INFO (msg : string)
| ERROR (msg : string)
| ERROR_exc (e : Exn).

(** ** Python dicts keyed by strings, in insertion order *)

Section Dict.
Context {V : Type}.

Fixpoint dict_get (k : string) (d : list (string * V)) : option V :=
  match d with
  | [] => None
  | (k', v) :: d' => if String.eqb k' k then Some v else dict_get k d'
  end.

(** [d[k] = v]: an existing key keeps its position. *)
Fixpoint dict_set (k : string) (v : V) (d : list (string * V)) : list (string * V) :=
  match d with
  | [] => [(k, v)]
  | (k', v') :: d' =>
      if String.eqb k' k then (k, v) :: d' else (k', v') :: dict_set k v d'
  end.
End Dict.

(** [x in xs] for a list of strings. *)
Definition str_in (x : string) (xs : list string) : bool :=
  existsb (String.eqb x) xs.

(** ** The data model *)

Module Interface.
Module State.
Definition UP : string := "up".
Definition DOWN : string := "down".
Definition ABSENT : string := "absent".
End State.
End Interface.

Module Conditions.
Module Type_.
Definition FAILING : string := "Failing".
Definition AVAILABLE : string := "Available".
Definition PROGRESSING : string := "Progressing".
Definition MATCHING : string := "Matching".
End Type_.
Module Reason.
Definition SUCCESS : string := "SuccessfullyConfigured".
Definition FAILED : string := "FailedToConfigure".
End Reason.
End Conditions.

(** One entry of [ipv4_addresses]: [{"ip": ..., "prefix-length": ...}]. *)
Record Address := { ip : string; prefix_length : Z }.

Global Instance Address_eq_dec : EqDecision Address.
Proof. solve_decision. Defined.

(** The ["ipv4"] value of an interface dict.  [address] is [None] when the
  key is absent. *)
Module Ipv4.
Record dict := { enabled : bool; dhcp : bool; address : option (list Address) }.
Global Instance dict_eq_dec : EqDecision dict.
Proof. solve_decision. Defined.
End Ipv4.

Module Ipv6.
Record dict := { enabled : bool }.
Global Instance dict_eq_dec : EqDecision dict.
Proof. solve_decision. Defined.
End Ipv6.

(** An interface dict.  Every key is optional: reading an absent key is a
  [KeyError].  Record equality is Python's [==] on such dicts. *)
Module Iface.
Record dict := {
  name : option string;
  type : option string;
  state : option string;
  mtu : option Z;
  ipv4 : option Ipv4.dict;
  ipv6 : option Ipv6.dict
}.
Global Instance dict_eq_dec : EqDecision dict.
Proof. solve_decision. Defined.

Definition set_state (v : string) (d : dict) : dict :=
  {| name := name d; type := type d; state := Some v; mtu := mtu d;
     ipv4 := ipv4 d; ipv6 := ipv6 d |}.
Definition set_ipv4 (v : Ipv4.dict) (d : dict) : dict :=
  {| name := name d; type := type d; state := state d; mtu := mtu d;
     ipv4 := Some v; ipv6 := ipv6 d |}.
Definition set_ipv6 (v : Ipv6.dict) (d : dict) : dict :=
  {| name := name d; type := type d; state := state d; mtu := mtu d;
     ipv4 := ipv4 d; ipv6 := Some v |}.
End Iface.

(** An interface as [NodeNetworkState] reports it under
    [status.currentState.interfaces]. *)
Record ObservedIpv4 := { o_dhcp : option bool; o_enabled : option bool }.
Record ObservedIface := { o_name : string; o_ipv4 : option ObservedIpv4 }.

(** A status condition: [{"type": ..., "reason": ...}]. *)
Record Condition := { c_type : string; c_reason : string }.

(** A worker pod, known by [pod.node.name]. *)
Record Pod := { node_name : string }.

Definition node1 : Pod := {| node_name := "node1" |}.

(** A reference to an interface dict on the heap. *)
Definition loc := nat.

(** What [to_dict] hands to the resource store. *)
Record Document := {
  metadata_name : string;
  nodeSelector : option (list (string * string));
  interfaces : list Iface.dict
}.

(** The attributes of [self]. *)
Record NNCP := {
  name : string;
  teardown : bool;
  desired_state : list loc;
  worker_pods : option (list Pod);
  mtu : option Z;
  mtu_dict : list (string * string);
  ports : list string;
  iface : option loc;
  ifaces : list loc;
  node_active_nics : list string;
  ipv4_enable : bool;
  _ipv4_dhcp : bool;
  ipv4_addresses : list Address;
  ipv6_enable : bool;
  ipv4_iface_state : list (string * list (string * Ipv4.dict));
  node_selector : option string;
  _node_selector : option (list (string * string))
}.

(** The collaborators.  The [Oracle] fixes their behaviour: the answer to
    the n-th call of each kind.  The calls of one kind are numbered in the
    order the run makes them, so an oracle can describe any behaviour of
    the collaborators along a run.  A failed or absent read of
    [instance.status.conditions] is the empty list: the sampler takes both
    for "no sample yet". *)
Record Oracle := {
  conditions_feed : nat -> list Condition;
  update_feed : nat -> option Exn;
  create_feed : nat -> option Exn;
  delete_feed : nat -> option Exn;
  interfaces_feed : nat -> string -> list ObservedIface + Exn;
  wait_until_deleted_feed : nat -> option Exn;
  wait_until_up_feed : nat -> option Exn;
  execute_feed : nat -> string + Exn
}.

(** What the run has done to the collaborators so far, and the time it
    has slept. *)
Record World := {
  clock : Z;
  conditions_reads : nat;
  updated : list Document;
  created : list Document;
  deleted : nat;
  interfaces_reads : nat;
  waited_deleted : list (string * string);
  waited_up : list (string * string);
  executed : list (string * string)
}.

Record Machine := {
  self : NNCP;
  heap : list Iface.dict;
  LOGGER : list LogRecord;
  oracle : Oracle;
  world : World
}.

(** ** The monad *)

Definition M (A : Type) : Type := Machine -> Result A * Machine.

Global Instance M_ret : MRet M := fun A a s => (Ok a, s).

Global Instance M_bind : MBind M := fun A B f m s =>
  match m s with
  | (Ok a, s') => f a s'
  | (Raise e, s') => (Raise e, s')
  | (Abort w, s') => (Abort w, s')
  end.

Definition raise {A} (e : Exn) : M A := fun s => (Raise e, s).
Definition abort {A} (w : Fault) : M A := fun s => (Abort w, s).
Definition get : M Machine := fun s => (Ok s, s).

(** [try: m except Exception as e: handler e]. *)
Definition try_except {A} (m : M A) (handler : Exn -> M A) : M A := fun s =>
  match m s with
  | (Raise e, s') => handler e s'
  | r => r
  end.

(** [for x in xs: body x], for a list the body does not change. *)
Fixpoint for_each {A} (xs : list A) (body : A -> M unit) : M unit :=
  match xs with
  | [] => mret tt
  | x :: xs' => body x;; for_each xs' body
  end.

(** The same loop with a local variable the body updates. *)
Fixpoint for_fold {A B} (xs : list A) (acc : B) (body : A -> B -> M B) : M B :=
  match xs with
  | [] => mret acc
  | x :: xs' => acc' ← body x acc; for_fold xs' acc' body
  end.

(** ** Field updates *)

Definition with_self (f : NNCP -> NNCP) (s : Machine) : Machine :=
  {| self := f (self s); heap := heap s; LOGGER := LOGGER s;
     oracle := oracle s; world := world s |}.
Definition with_heap (f : list Iface.dict -> list Iface.dict) (s : Machine) : Machine :=
  {| self := self s; heap := f (heap s); LOGGER := LOGGER s;
     oracle := oracle s; world := world s |}.
Definition with_LOGGER (f : list LogRecord -> list LogRecord) (s : Machine) : Machine :=
  {| self := self s; heap := heap s; LOGGER := f (LOGGER s);
     oracle := oracle s; world := world s |}.
Definition with_world (f : World -> World) (s : Machine) : Machine :=
  {| self := self s; heap := heap s; LOGGER := LOGGER s;
     oracle := oracle s; world := f (world s) |}.

Definition set_desired_state (v : list loc) (o : NNCP) : NNCP :=
  {| name := name o; teardown := teardown o; desired_state := v;
     worker_pods := worker_pods o; mtu := mtu o; mtu_dict := mtu_dict o;
     ports := ports o; iface := iface o; ifaces := ifaces o;
     node_active_nics := node_active_nics o; ipv4_enable := ipv4_enable o;
     _ipv4_dhcp := _ipv4_dhcp o; ipv4_addresses := ipv4_addresses o;
     ipv6_enable := ipv6_enable o; ipv4_iface_state := ipv4_iface_state o;
     node_selector := node_selector o; _node_selector := _node_selector o |}.
Definition set_mtu_dict (v : list (string * string)) (o : NNCP) : NNCP :=
  {| name := name o; teardown := teardown o; desired_state := desired_state o;
     worker_pods := worker_pods o; mtu := mtu o; mtu_dict := v;
     ports := ports o; iface := iface o; ifaces := ifaces o;
     node_active_nics := node_active_nics o; ipv4_enable := ipv4_enable o;
     _ipv4_dhcp := _ipv4_dhcp o; ipv4_addresses := ipv4_addresses o;
     ipv6_enable := ipv6_enable o; ipv4_iface_state := ipv4_iface_state o;
     node_selector := node_selector o; _node_selector := _node_selector o |}.
Definition set_iface (v : option loc) (o : NNCP) : NNCP :=
  {| name := name o; teardown := teardown o; desired_state := desired_state o;
     worker_pods := worker_pods o; mtu := mtu o; mtu_dict := mtu_dict o;
     ports := ports o; iface := v; ifaces := ifaces o;
     node_active_nics := node_active_nics o; ipv4_enable := ipv4_enable o;
     _ipv4_dhcp := _ipv4_dhcp o; ipv4_addresses := ipv4_addresses o;
     ipv6_enable := ipv6_enable o; ipv4_iface_state := ipv4_iface_state o;
     node_selector := node_selector o; _node_selector := _node_selector o |}.
Definition set_ifaces (v : list loc) (o : NNCP) : NNCP :=
  {| name := name o; teardown := teardown o; desired_state := desired_state o;
     worker_pods := worker_pods o; mtu := mtu o; mtu_dict := mtu_dict o;
     ports := ports o; iface := iface o; ifaces := v;
     node_active_nics := node_active_nics o; ipv4_enable := ipv4_enable o;
     _ipv4_dhcp := _ipv4_dhcp o; ipv4_addresses := ipv4_addresses o;
     ipv6_enable := ipv6_enable o; ipv4_iface_state := ipv4_iface_state o;
     node_selector := node_selector o; _node_selector := _node_selector o |}.
Definition set_ipv4_iface_state (v : list (string * list (string * Ipv4.dict)))
    (o : NNCP) : NNCP :=
  {| name := name o; teardown := teardown o; desired_state := desired_state o;
     worker_pods := worker_pods o; mtu := mtu o; mtu_dict := mtu_dict o;
     ports := ports o; iface := iface o; ifaces := ifaces o;
     node_active_nics := node_active_nics o; ipv4_enable := ipv4_enable o;
     _ipv4_dhcp := _ipv4_dhcp o; ipv4_addresses := ipv4_addresses o;
     ipv6_enable := ipv6_enable o; ipv4_iface_state := v;
     node_selector := node_selector o; _node_selector := _node_selector o |}.

Definition tick_clock (d : Z) (w : World) : World :=
  {| clock := clock w + d; conditions_reads := conditions_reads w;
     updated := updated w; created := created w; deleted := deleted w;
     interfaces_reads := interfaces_reads w; waited_deleted := waited_deleted w;
     waited_up := waited_up w; executed := executed w |}.
Definition tick_conditions_reads (w : World) : World :=
  {| clock := clock w; conditions_reads := S (conditions_reads w);
     updated := updated w; created := created w; deleted := deleted w;
     interfaces_reads := interfaces_reads w; waited_deleted := waited_deleted w;
     waited_up := waited_up w; executed := executed w |}.
Definition log_updated (d : Document) (w : World) : World :=
  {| clock := clock w; conditions_reads := conditions_reads w;
     updated := updated w ++ [d]; created := created w; deleted := deleted w;
     interfaces_reads := interfaces_reads w; waited_deleted := waited_deleted w;
     waited_up := waited_up w; executed := executed w |}.
Definition log_created (d : Document) (w : World) : World :=
  {| clock := clock w; conditions_reads := conditions_reads w;
     updated := updated w; created := created w ++ [d]; deleted := deleted w;
     interfaces_reads := interfaces_reads w; waited_deleted := waited_deleted w;
     waited_up := waited_up w; executed := executed w |}.
Definition tick_deleted (w : World) : World :=
  {| clock := clock w; conditions_reads := conditions_reads w;
     updated := updated w; created := created w; deleted := S (deleted w);
     interfaces_reads := interfaces_reads w; waited_deleted := waited_deleted w;
     waited_up := waited_up w; executed := executed w |}.
Definition tick_interfaces_reads (w : World) : World :=
  {| clock := clock w; conditions_reads := conditions_reads w;
     updated := updated w; created := created w; deleted := deleted w;
     interfaces_reads := S (interfaces_reads w); waited_deleted := waited_deleted w;
     waited_up := waited_up w; executed := executed w |}.
Definition log_waited_deleted (c : string * string) (w : World) : World :=
  {| clock := clock w; conditions_reads := conditions_reads w;
     updated := updated w; created := created w; deleted := deleted w;
     interfaces_reads := interfaces_reads w;
     waited_deleted := waited_deleted w ++ [c];
     waited_up := waited_up w; executed := executed w |}.
Definition log_waited_up (c : string * string) (w : World) : World :=
  {| clock := clock w; conditions_reads := conditions_reads w;
     updated := updated w; created := created w; deleted := deleted w;
     interfaces_reads := interfaces_reads w; waited_deleted := waited_deleted w;
     waited_up := waited_up w ++ [c]; executed := executed w |}.
Definition log_executed (c : string * string) (w : World) : World :=
  {| clock := clock w; conditions_reads := conditions_reads w;
     updated := updated w; created := created w; deleted := deleted w;
     interfaces_reads := interfaces_reads w; waited_deleted := waited_deleted w;
     waited_up := waited_up w; executed := executed w ++ [c] |}.

(** ** Primitive actions *)

Definition modify (f : Machine -> Machine) : M unit := fun s => (Ok tt, f s).

(** Reading [self.attr]. *)
Definition attr {A} (f : NNCP -> A) : M A := fun s => (Ok (f (self s)), s).

Definition LOGGER_info (msg : string) : M unit :=
  modify (with_LOGGER (fun l => l ++ [INFO msg])).
Definition LOGGER_error (msg : string) : M unit :=
  modify (with_LOGGER (fun l => l ++ [ERROR msg])).
Definition LOGGER_error_exc (e : Exn) : M unit :=
  modify (with_LOGGER (fun l => l ++ [ERROR_exc e])).

(** Dereference an interface dict. *)
Definition deref (l : loc) : M Iface.dict := fun s =>
  match heap s !! l with
  | Some d => (Ok d, s)
  | None => (Abort DanglingRef, s)
  end.

(** [d[key] = v] on the dict at [l], as the field update [f]. *)
Definition setitem (l : loc) (f : Iface.dict -> Iface.dict) : M unit :=
  d ← deref l;
  modify (with_heap (fun h => <[l := f d]> h)).

(** A new dict object. *)
Definition alloc (d : Iface.dict) : M loc := fun s =>
  (Ok (length (heap s)), with_heap (fun h => h ++ [d]) s).

(** [d["name"]]. *)
Definition getitem_name (l : loc) : M string :=
  d ← deref l;
  match Iface.name d with
  | Some n => mret n
  | None => raise (KeyError "name")
  end.

(** [time.sleep]. *)
Definition time_sleep (d : Z) : M unit := modify (with_world (tick_clock d)).

(** Answer of a collaborator that returns nothing useful. *)
Definition answer (r : option Exn) : M unit :=
  match r with
  | None => mret tt
  | Some e => raise e
  end.

(** Answer of a collaborator that returns a value. *)
Definition answer_with {A} (r : A + Exn) : M A :=
  match r with
  | inl a => mret a
  | inr e => raise e
  end.

(** [self.instance.status.conditions]. *)
Definition instance_status_conditions : M (list Condition) :=
  s ← get;
  modify (with_world tick_conditions_reads);;
  mret (conditions_feed (oracle s) (conditions_reads (world s))).

(** [self.update(resource_dict=doc)]. *)
Definition update (doc : Document) : M unit :=
  s ← get;
  modify (with_world (log_updated doc));;
  answer (update_feed (oracle s) (length (updated (world s)))).

(** The creation call of the resource store. *)
Definition create (doc : Document) : M unit :=
  s ← get;
  modify (with_world (log_created doc));;
  answer (create_feed (oracle s) (length (created (world s)))).

(** [self.delete()]. *)
Definition delete : M unit :=
  s ← get;
  modify (with_world tick_deleted);;
  answer (delete_feed (oracle s) (deleted (world s))).

(** [NodeNetworkState(name=node).instance.status.currentState.interfaces]. *)
Definition currentState_interfaces (node : string) : M (list ObservedIface) :=
  s ← get;
  modify (with_world tick_interfaces_reads);;
  answer_with (interfaces_feed (oracle s) (interfaces_reads (world s)) node).

(** [NodeNetworkState(name=node).wait_until_deleted(name=n)]. *)
Definition wait_until_deleted (node n : string) : M unit :=
  s ← get;
  modify (with_world (log_waited_deleted (node, n)));;
  answer (wait_until_deleted_feed (oracle s) (length (waited_deleted (world s)))).

(** [NodeNetworkState(name=node).wait_until_up(name=n)]. *)
Definition wait_until_up (node n : string) : M unit :=
  s ← get;
  modify (with_world (log_waited_up (node, n)));;
  answer (wait_until_up_feed (oracle s) (length (waited_up (world s)))).

(** [pod.execute(command=["cat", f"/sys/class/net/{port}/mtu"])]. *)
Definition execute (node port : string) : M string :=
  s ← get;
  modify (with_world (log_executed (node, port)));;
  answer_with (execute_feed (oracle s) (length (executed (world s)))).

(** [for pod in self.worker_pods]: [None] is not iterable. *)
Definition iter_worker_pods : M (list Pod) :=
  wp ← attr worker_pods;
  match wp with
  | Some pods => mret pods
  | None => raise TypeError
  end.

(** Turn a raised exception into a value, so that an [except] clause can
    look at it without also catching what the rest of the block raises. *)
Definition attempt {A} (m : M A) : M (A + Exn) := fun s =>
  match m s with
  | (Ok a, s') => (Ok (inl a), s')
  | (Raise e, s') => (Ok (inr e), s')
  | (Abort w, s') => (Abort w, s')
  end.

(** ** Python built-ins the class uses *)

(** [str.isspace] on the ASCII range. *)
Definition is_space (c : ascii) : bool :=
  let n := nat_of_ascii c in
  ((9 <=? n) && (n <=? 13) || (28 <=? n) && (n <=? 32))%nat.

Fixpoint lstrip (s : string) : string :=
  match s with
  | String c s' => if is_space c then lstrip s' else s
  | EmptyString => EmptyString
  end.

Fixpoint rstrip (s : string) : string :=
  match s with
  | String c s' =>
      match rstrip s' with
      | EmptyString => if is_space c then EmptyString else String c EmptyString
      | r => String c r
      end
  | EmptyString => EmptyString
  end.

(** [s.strip()]. *)
Definition strip (s : string) : string := rstrip (lstrip s).

Definition digit_value (c : ascii) : option Z :=
  let n := nat_of_ascii c in
  if ((48 <=? n) && (n <=? 57))%nat then Some (Z.of_nat n - 48) else None.

(** Decimal digits, single underscores allowed between two digits. *)
Fixpoint int_digits (s : string) (acc : Z) (after_digit : bool) : option Z :=
  match s with
  | EmptyString => if after_digit then Some acc else None
  | String c s' =>
      match digit_value c with
      | Some d => int_digits s' (10 * acc + d) true
      | None =>
          if (Ascii.eqb c "_" && after_digit)%bool then int_digits s' acc false
          else None
      end
  end.

(** The whitespace that [int] skips around a number: tab to carriage
    return and the space.  The separators 28 to 31, which [str.strip]
    removes, are not part of it. *)
Definition is_int_space (c : ascii) : bool :=
  let n := nat_of_ascii c in
  ((9 <=? n) && (n <=? 13) || (n =? 32))%nat.

Fixpoint int_lstrip (s : string) : string :=
  match s with
  | String c s' => if is_int_space c then int_lstrip s' else s
  | EmptyString => EmptyString
  end.

Fixpoint int_rstrip (s : string) : string :=
  match s with
  | String c s' =>
      match int_rstrip s' with
      | EmptyString => if is_int_space c then EmptyString else String c EmptyString
      | r => String c r
      end
  | EmptyString => EmptyString
  end.

(** [int(s)] for a string of ASCII characters: surrounding whitespace,
    an optional sign, decimal digits.  [None] is a [ValueError]. *)
Definition int (s : string) : option Z :=
  match int_rstrip (int_lstrip s) with
  | String "-" r => Z.opp <$> int_digits r 0 false
  | String "+" r => int_digits r 0 false
  | r => int_digits r 0 false
  end.

(** Truth value of [self.mtu] ([None] or an integer) and of
    [self.node_selector] ([None] or a string). *)
Definition truthy_int (m : option Z) : bool :=
  match m with
  | Some z => negb (z =? 0)
  | None => false
  end.

Definition truthy_str (o : option string) : bool :=
  match o with
  | Some s => negb (String.eqb s "")
  | None => false
  end.

(** ** The polling utility *)

(** Number of polls at elapsed times 0, sleep, 2*sleep, ... that start
    strictly before [timeout]. *)
Definition polls_within (timeout sleep : Z) : nat :=
  Z.to_nat ((timeout + sleep - 1) / sleep).

(** Modelled from the spec: [TimeoutSampler] of [resources/utils.py],
    which is not part of the sources at hand.  "Given a timeout, sleep
    interval, and a zero-argument probe (optionally restricted to retry
    only on specific error classes), produces a sequence of samples until
    timeout, raising a timeout error if exhausted."  Time is logical: only
    sleeping takes time, so with a positive [sleep] the probe runs at
    elapsed times 0, sleep, 2*sleep, ... below [timeout].  An exception of
    the probe is retried when it is in [exceptions] ([None]: every class)
    and propagates otherwise.  [body] is the body of the [for] loop over
    the samples: [Some r] is [return r], [None] asks for the next sample;
    what [body] raises is not the sampler's to catch. *)
Fixpoint sampler_loop {A R} (polls : nat) (sleep : Z)
    (exceptions : option (Exn -> bool)) (func : M A) (body : A -> M (option R)) : M R :=
  match polls with
  | O => raise TimeoutExpiredError
  | S polls' =>
      let next := time_sleep sleep;; sampler_loop polls' sleep exceptions func body in
      sample ← attempt func;
      match sample with
      | inl a =>
          r ← body a;
          match r with
          | Some v => mret v
          | None => next
          end
      | inr e =>
          if match exceptions with Some retried => retried e | None => true end
          then next
          else raise e
      end
  end.

(** Modelled from the spec: a [for] loop over
    [TimeoutSampler(timeout, sleep, func, exceptions)]. *)
Definition TimeoutSampler {A R} (timeout sleep : Z)
    (exceptions : option (Exn -> bool)) (func : M A) (body : A -> M (option R)) : M R :=
  sampler_loop (polls_within timeout sleep) sleep exceptions func body.

Definition is_ConflictError (e : Exn) : bool :=
  match e with
  | ConflictError => true
  | _ => false
  end.

(** ** The class *)

Definition hostname_selector (ns : string) : list (string * string) :=
  [("kubernetes.io/hostname", ns)].
Definition worker_selector : list (string * string) :=
  [("node-role.kubernetes.io/worker", "")].

(** [__init__]; [Resource.__init__] stores [name] and [teardown].
    [_node_selector] is [None] as long as the attribute has not been
    assigned.  The constructor raises [TypeError] when it has to iterate
    over [worker_pods=None]. *)
Definition __init__ (name_ : string) (worker_pods_ : option (list Pod))
    (node_selector_ : option string) (teardown_ : bool) (mtu_ : option Z)
    (ports_ : option (list string)) (ipv4_enable_ ipv4_dhcp_ : bool)
    (ipv4_addresses_ : option (list Address)) (ipv6_enable_ : bool)
    (node_active_nics_ : option (list string)) : Result NNCP :=
  let build pods sel :=
    {| name := name_; teardown := teardown_; desired_state := [];
       worker_pods := pods; mtu := mtu_; mtu_dict := [];
       ports := default [] ports_; iface := None; ifaces := [];
       node_active_nics := default [] node_active_nics_;
       ipv4_enable := ipv4_enable_; _ipv4_dhcp := ipv4_dhcp_;
       ipv4_addresses := default [] ipv4_addresses_;
       ipv6_enable := ipv6_enable_; ipv4_iface_state := [];
       node_selector := node_selector_; _node_selector := sel |} in
  let otherwise := Ok (build worker_pods_ (Some worker_selector)) in
  match node_selector_ with
  | Some ns =>
      if truthy_str node_selector_ then
        match worker_pods_ with
        | None => Raise TypeError
        | Some pods =>
            match find (fun pod => String.eqb (node_name pod) ns) pods with
            | Some pod => Ok (build (Some [pod]) (Some (hostname_selector ns)))
            | None => Ok (build worker_pods_ None)
            end
        end
      else otherwise
  | None => otherwise
  end.

(** [set_interface]: the comprehension reads [i["name"]] and
    [interface["name"]] for every entry [i] of the list. *)
Definition keep_other (interface i : loc) (acc : list loc) : M (list loc) :=
  ni ← getitem_name i;
  nx ← getitem_name interface;
  mret (if String.eqb ni nx then acc else acc ++ [i]).

Definition set_interface (interface : loc) : M unit :=
  ds ← attr desired_state;
  interfaces ← for_fold ds [] (keep_other interface);
  modify (with_self (set_desired_state (interfaces ++ [interface]))).

(** The property [ipv4_dhcp]. *)
Definition ipv4_dhcp : M bool := attr _ipv4_dhcp.

(** [x in self.ifaces]: identity first, then equality of the dicts. *)
Definition in_ifaces (l : loc) : M bool :=
  ifs ← attr ifaces;
  d ← deref l;
  for_fold ifs false (fun x found =>
    if found then mret true
    else if Nat.eqb x l then mret true
    else dx ← deref x; mret (bool_decide (dx = d))).

(** The contents of the dicts a list refers to. *)
Definition contents (ls : list loc) : M (list Iface.dict) :=
  for_fold ls [] (fun l acc => d ← deref l; mret (acc ++ [d])).

(** [to_dict].  [res] holds a reference to [self.desired_state], so the
    document it returns shows the interface list as it is at the end of
    the call.  The base body of [Resource] is reduced to the name. *)
Definition to_dict : M Document :=
  res_name ← attr name;
  sel ← attr _node_selector;
  match sel with
  | None => raise (AttributeError "_node_selector")
  | Some sel =>
      let res_nodeSelector := match sel with [] => None | _ => Some sel end in
      en ← attr ipv4_enable;
      dh ← ipv4_dhcp;
      i ← attr iface;
      match i with
      | None => raise TypeError
      | Some l =>
          setitem l (Iface.set_ipv4
            {| Ipv4.enabled := en; Ipv4.dhcp := dh; Ipv4.address := None |});;
          addrs ← attr ipv4_addresses;
          match addrs with
          | [] => mret tt
          | _ =>
              setitem l (Iface.set_ipv4
                {| Ipv4.enabled := en; Ipv4.dhcp := dh; Ipv4.address := Some addrs |})
          end;;
          v6 ← attr ipv6_enable;
          setitem l (Iface.set_ipv6 {| Ipv6.enabled := v6 |});;
          set_interface l;;
          known ← in_ifaces l;
          (if (known : bool) then mret tt
           else modify (with_self (fun o => set_ifaces (ifaces o ++ [l]) o)));;
          ds ← attr desired_state;
          entries ← contents ds;
          mret {| metadata_name := res_name; nodeSelector := res_nodeSelector;
                  interfaces := entries |}
      end
  end.

(** [apply]: the loop body returns at the first sample. *)
Definition apply : M unit :=
  resource ← to_dict;
  TimeoutSampler 3 1 (Some is_ConflictError) (update resource)
    (fun _ => mret (Some tt)).

(** [status]: the reason of the first Available condition, or [None]. *)
Definition status : M (option string) :=
  conditions ← instance_status_conditions;
  mret (c_reason <$>
        find (fun c => String.eqb (c_type c) Conditions.Type_.AVAILABLE) conditions).

(** The loop body of [wait_for_conditions]: [if sample: return]. *)
Definition seen (sample : list Condition) : M (option unit) :=
  mret (match sample with [] => None | _ => Some tt end).

Definition wait_for_conditions : M unit :=
  TimeoutSampler 30 1 None instance_status_conditions seen.

(** The loop body of [wait_for_status_success]. *)
Definition judge (sample : option string) : M (option string) :=
  if bool_decide (sample = Some Conditions.Reason.SUCCESS) then
    LOGGER_info "NNCP configured Successfully";;
    mret (Some Conditions.Reason.SUCCESS)
  else if bool_decide (sample = Some Conditions.Reason.FAILED) then
    raise (NNCPConfigurationFailed ("Reason: " +:+ Conditions.Reason.FAILED))
  else mret None.

(** The [except (TimeoutExpiredError, NNCPConfigurationFailed)] clause of
    [wait_for_status_success]. *)
Definition unable (e : Exn) : M string :=
  match e with
  | TimeoutExpiredError | NNCPConfigurationFailed _ =>
      LOGGER_error "Unable to configure NNCP for node";; raise e
  | _ => raise e
  end.

Definition wait_for_status_success : M string :=
  wait_for_conditions;;
  try_except (TimeoutSampler 30 1 None status judge) unable.

Definition wait_for_interface_deleted : M unit :=
  pods ← iter_worker_pods;
  for_each pods (fun pod =>
    ifs ← attr ifaces;
    for_each ifs (fun iface =>
      n ← getitem_name iface;
      wait_until_deleted (node_name pod) n)).

Definition validate_create : M unit :=
  pods ← iter_worker_pods;
  for_each pods (fun pod =>
    ifs ← attr ifaces;
    for_each ifs (fun bridge =>
      n ← getitem_name bridge;
      wait_until_up (node_name pod) n)).

(** [{k: interface["ipv4"][k] for k in ("dhcp", "enabled")}].  The
    report is an object of the client, on which a key that is absent
    reads as [None]: without ["ipv4"] the subscript of [None] is a
    [TypeError].  The flags of the model are booleans, so an ["ipv4"]
    object that lacks one of the two flags, whose [None] the code would
    store, is beyond what the model represents: the model stops there
    with a [KeyError], and the properties are stated for reports that
    carry both flags or for states that do not get as far as the
    report. *)
Definition ipv4_flags (interface : ObservedIface) : M Ipv4.dict :=
  match o_ipv4 interface with
  | None => raise TypeError
  | Some v =>
      match o_dhcp v with
      | None => raise (KeyError "dhcp")
      | Some d =>
          match o_enabled v with
          | None => raise (KeyError "enabled")
          | Some e =>
              mret {| Ipv4.enabled := e; Ipv4.dhcp := d; Ipv4.address := None |}
          end
      end
  end.

(** [table[node].update({port: flags})]. *)
Definition update_node (node port : string) (flags : Ipv4.dict)
    (table : list (string * list (string * Ipv4.dict)))
    : M (list (string * list (string * Ipv4.dict))) :=
  match dict_get node table with
  | Some inner => mret (dict_set node (dict_set port flags inner) table)
  | None => raise (KeyError node)
  end.

Definition _ipv4_state_backup : M unit :=
  pods ← iter_worker_pods;
  for_each pods (fun pod =>
    let node := node_name pod in
    modify (with_self (fun o =>
      set_ipv4_iface_state (dict_set node [] (ipv4_iface_state o)) o));;
    observed ← currentState_interfaces node;
    for_each observed (fun interface =>
      ps ← attr ports;
      if str_in (o_name interface) ps then
        table ← attr ipv4_iface_state;
        flags ← ipv4_flags interface;
        table' ← update_node node (o_name interface) flags table;
        modify (with_self (set_ipv4_iface_state table'))
      else mret tt)).

(** Lines 248 to 260: compare one reported interface of [node] with the
    backup, and note the backed-up flags in [temp] when they differ. *)
Definition compare_flags (node : string) (interface : ObservedIface)
    (temp : list (string * list (string * Ipv4.dict)))
    : M (list (string * list (string * Ipv4.dict))) :=
  ps ← attr ports;
  if str_in (o_name interface) ps then
    x ← ipv4_flags interface;
    table ← attr ipv4_iface_state;
    match dict_get node table with
    | None => raise (KeyError node)
    | Some saved_node =>
        match dict_get (o_name interface) saved_node with
        | None => raise (KeyError (o_name interface))
        | Some saved =>
            if bool_decide (saved ≠ x)
            then update_node node (o_name interface) saved temp
            else mret temp
        end
    end
  else mret temp.

(** Lines 240 to 267, the part of [_absent_interface] that runs for one
    bridge when DHCP is on: find the ports whose flags differ from the
    backup of their node, then put the backed-up flags of the first node
    back. *)
Definition restore_dhcp : M unit :=
  pods ← iter_worker_pods;
  temp_ipv4_iface_state ← for_fold pods [] (fun pod temp =>
    let node := node_name pod in
    observed ← currentState_interfaces node;
    for_fold observed (dict_set node [] temp) (compare_flags node));
  match temp_ipv4_iface_state with
  | [] => raise StopIteration
  | (_, previous_state) :: _ =>
      for_each previous_state (fun '(iface_name, ipv4) =>
        interface ← alloc {| Iface.name := Some iface_name; Iface.type := None;
                             Iface.state := None; Iface.mtu := None;
                             Iface.ipv4 := Some ipv4; Iface.ipv6 := None |};
        set_interface interface)
  end.

(** Lines 236 to 267: the body of the [for] loop of [_absent_interface]. *)
Definition absent_one (bridge : loc) : M unit :=
  setitem bridge (Iface.set_state Interface.State.ABSENT);;
  set_interface bridge;;
  dh ← attr _ipv4_dhcp;
  if (dh : bool) then restore_dhcp else mret tt.

(** The [for] loop of [_absent_interface]. *)
Definition absent_all : M unit :=
  ifs ← attr ifaces;
  for_each ifs absent_one.

Definition _absent_interface : M unit :=
  absent_all;;
  apply.

(** [for iface in self.ifaces] when the body may append to the list: the
    loop looks the list up again at every step. *)
Fixpoint for_ifaces (fuel : nat) (i : nat) (body : loc -> M unit) : M unit :=
  ifs ← attr ifaces;
  match ifs !! i with
  | None => mret tt
  | Some l =>
      match fuel with
      | O => abort FuelExhausted
      | S fuel' => body l;; for_ifaces fuel' (S i) body
      end
  end.

(** Lines 197 to 203: what [clean_up] does for one historical interface. *)
Definition clean_up_iface (iface : loc) : M unit :=
  n ← getitem_name iface;
  nics ← attr node_active_nics;
  if str_in n nics then mret tt
  else
    try_except (_absent_interface;; wait_for_interface_deleted)
      (fun e =>
         match e with
         | TimeoutExpiredError => LOGGER_error_exc e
         | _ => raise e
         end).

(** Lines 181 to 189: put the backed-up MTU of every port back. *)
Definition restore_mtu : M unit :=
  m ← attr mtu;
  if truthy_int m then
    ps ← attr ports;
    for_each ps (fun port =>
      backup ← attr mtu_dict;
      match dict_get port backup with
      | None => raise (KeyError port)
      | Some raw =>
          match int raw with
          | None => raise ValueError
          | Some v =>
              _port ← alloc {| Iface.name := Some port; Iface.type := Some "ethernet";
                               Iface.state := Some Interface.State.UP;
                               Iface.mtu := Some v;
                               Iface.ipv4 := None; Iface.ipv6 := None |};
              set_interface _port
          end
      end)
  else mret tt.

(** [clean_up].  The body of the loop appends to [self.ifaces] at most
    once, so one step more than the length of the list is enough. *)
Definition clean_up : M unit :=
  restore_mtu;;
  ifs ← attr ifaces;
  for_ifaces (S (length ifs)) 0 clean_up_iface;;
  delete.

(** Modelled from the spec: [Resource.__enter__], which is not part of the
    sources at hand.  Entering the scope builds the document and creates
    the resource from it ("Builder, then Applier", with [create] one of
    the operations of the resource abstraction). *)
Definition Resource___enter__ : M unit :=
  data ← to_dict;
  create data.

(** Lines 137 to 146: remember the MTU of every port. *)
Definition backup_mtu : M unit :=
  m ← attr mtu;
  if truthy_int m then
    pods ← iter_worker_pods;
    for_each pods (fun pod =>
      ps ← attr ports;
      for_each ps (fun port =>
        out ← execute (node_name pod) port;
        let mtu := strip out in
        LOGGER_info ("Backup MTU: " +:+ node_name pod +:+ " interface " +:+ port
                     +:+ " MTU is " +:+ mtu);;
        modify (with_self (fun o => set_mtu_dict (dict_set port mtu (mtu_dict o)) o))))
  else mret tt.

(** Lines 134 to 148: what [__enter__] does before its [try]. *)
Definition before_try : M unit :=
  dh ← attr _ipv4_dhcp;
  (if (dh : bool) then _ipv4_state_backup else mret tt);;
  backup_mtu;;
  Resource___enter__.

(** Lines 151 and 152: the body of the [try]. *)
Definition checks : M unit :=
  wait_for_status_success;;
  validate_create.

(** Lines 154 to 157: the [except Exception as e] clause. *)
Definition on_failure (e : Exn) : M unit :=
  LOGGER_error_exc e;;
  clean_up;;
  raise e.

Definition __enter__ : M unit :=
  before_try;;
  try_except checks on_failure.

Definition __exit__ : M unit :=
  td ← attr teardown;
  if negb (td : bool) then mret tt
  else clean_up.

(** ** Notions the properties are stated with *)

(** The name of the dict that [l] refers to, if the dict has one. *)
Definition name_of (s : Machine) (l : loc) : option string :=
  heap s !! l ≫= Iface.name.

(** The entries of the desired-state list that carry the name [n]. *)
Definition entries_named (n : string) (s : Machine) : list loc :=
  filter (fun l => name_of s l = Some n) (desired_state (self s)).

(** A caller makes the calls one after the other, and goes on after a
    call that raised. *)
Fixpoint set_interfaces (calls : list loc) (s : Machine) : Machine :=
  match calls with
  | [] => s
  | l :: calls' => set_interfaces calls' (snd (set_interface l s))
  end.

(** The state after a call of [set_interface x] that returned. *)
Definition inserted (x : loc) (s : Machine) : Machine :=
  with_self (set_desired_state
    (filter (fun i => name_of s i ≠ name_of s x) (desired_state (self s)) ++ [x])) s.

(** The state after one attempt of [self.update] that met a write
    conflict and the sleep that follows it, and after [n] of them. *)
Definition conflicted (doc : Document) (s : Machine) : Machine :=
  with_world (tick_clock 1) (with_world (log_updated doc) s).

Fixpoint conflicts (n : nat) (doc : Document) (s : Machine) : Machine :=
  match n with
  | O => s
  | S n' => conflicts n' doc (conflicted doc s)
  end.

(** The answer of the resource store to the [i]-th update from [s] on. *)
Definition update_answer (s : Machine) (i : nat) : option Exn :=
  update_feed (oracle s) (length (updated (world s)) + i)%nat.

(** The state after one poll of the conditions that asked for another
    sample and the sleep that follows it, and after [n] of them. *)
Definition polled_once (s : Machine) : Machine :=
  with_world (tick_clock 1) (with_world tick_conditions_reads s).

Fixpoint polled (n : nat) (s : Machine) : Machine :=
  match n with
  | O => s
  | S n' => polled n' (polled_once s)
  end.

(** What the [i]-th read of the conditions from [s] on returns, and what
    [status] makes of it. *)
Definition conditions_at (s : Machine) (i : nat) : list Condition :=
  conditions_feed (oracle s) (conditions_reads (world s) + i)%nat.

Definition reason_at (s : Machine) (i : nat) : option string :=
  c_reason <$>
  find (fun c => String.eqb (c_type c) Conditions.Type_.AVAILABLE) (conditions_at s i).

(** A sample that ends the polling of [wait_for_status_success]. *)
Definition terminal (sample : option string) : Prop :=
  sample = Some Conditions.Reason.SUCCESS \/ sample = Some Conditions.Reason.FAILED.


(** ** Well-formed states and what a run may change *)

(** A reference is valid when it points into the heap.  A state is
    well-formed when the references it holds are valid, as in every Python
    state. *)
Definition valid (s : Machine) (l : loc) : Prop := (l < length (heap s))%nat.

Definition wf (s : Machine) : Prop :=
  Forall (valid s) (desired_state (self s)) /\
  Forall (valid s) (ifaces (self s)) /\
  (forall l, iface (self s) = Some l -> valid s l).

(** A bound on the length [self.ifaces] can reach: [to_dict] appends
    [self.iface] to it, and only when it is not there yet. *)
Definition slack (s : Machine) : nat :=
  (length (ifaces (self s)) +
   match iface (self s) with
   | Some l => if bool_decide (l ∈ ifaces (self s)) then 0 else 1
   | None => 1
   end)%nat.

(** What no method but [delete] changes, or changes in one direction
    only. *)
Record ext (s s' : Machine) : Prop := {
  ext_deleted : deleted (world s') = deleted (world s);
  ext_iface : iface (self s') = iface (self s);
  ext_teardown : teardown (self s') = teardown (self s);
  ext_heap : (length (heap s) <= length (heap s'))%nat;
  ext_slack : (slack s' <= slack s)%nat
}.

(** From [s] the run [m] stays within [ext] and does not run out of
    fuel; and when [s] is well-formed and [P] holds, it reaches a
    well-formed state without meeting a dangling reference. *)
Definition sound_at {A} (P : Prop) (m : M A) (s : Machine) : Prop :=
  ext s (m s).2 /\
  (m s).1 <> Abort FuelExhausted /\
  (wf s -> P -> wf (m s).2 /\ (m s).1 <> Abort DanglingRef).

Definition sound_if {A} (P : Machine -> Prop) (m : M A) : Prop :=
  forall s, sound_at (P s) m s.

Definition sound {A} (m : M A) : Prop := sound_if (fun _ => True) m.

(** [P] survives whatever a sound run does. *)
Definition stable (P : Machine -> Prop) : Prop :=
  forall s s', ext s s' -> P s -> P s'.

(** [m] does not raise [TimeoutExpiredError]. *)
Definition never_times_out {A} (m : M A) : Prop :=
  forall s, (m s).1 <> Raise TimeoutExpiredError.

(** ** The DHCP restore scenario *)

(** The flags of port1 before the policy turned DHCP on, the backup table
    that holds them, and the entry the restore step puts into the
    desired state. *)
Definition port1_backup : Ipv4.dict :=
  {| Ipv4.enabled := true; Ipv4.dhcp := false; Ipv4.address := None |}.

Definition backup_table : list (string * list (string * Ipv4.dict)) :=
  [("node1", [("port1", port1_backup)])].

Definition port1_restored : Iface.dict :=
  {| Iface.name := Some "port1"; Iface.type := None; Iface.state := None;
     Iface.mtu := None; Iface.ipv4 := Some port1_backup; Iface.ipv6 := None |}.

(** What the node reports of port1: DHCP is on now. *)
Definition dhcp_turned_on (i : ObservedIface) : Prop :=
  o_name i = "port1" ->
  exists en, o_ipv4 i = Some {| o_dhcp := Some true; o_enabled := Some en |}.

(** A DHCP policy on node1 with port1 as its only port, the backup of
    port1 in place, a node that reports the interfaces [obs] from now on,
    and interface dicts that all have a name. *)
Record restore_scenario (obs : list ObservedIface) (s : Machine) : Prop := {
  sc_dhcp : _ipv4_dhcp (self s) = true;
  sc_pods : worker_pods (self s) = Some [node1];
  sc_ports : ports (self s) = ["port1"];
  sc_backup : ipv4_iface_state (self s) = backup_table;
  sc_feed : forall n, (interfaces_reads (world s) <= n)%nat ->
            interfaces_feed (oracle s) n "node1" = inl obs;
  sc_desired : Forall (fun l => is_Some (name_of s l)) (desired_state (self s));
  sc_bridges : Forall (fun l => is_Some (name_of s l)) (ifaces (self s))
}.

(** The state after the loop body of [_absent_interface] has handled the
    bridge at [bridge], whose dict was [d]. *)
Definition absent_step (bridge : loc) (d : Iface.dict) (s : Machine) : Machine :=
  let s1 := with_heap (fun h => <[bridge := Iface.set_state Interface.State.ABSENT d]> h) s in
  let s2 := inserted bridge s1 in
  let s3 := with_world tick_interfaces_reads s2 in
  let s4 := with_heap (fun h => h ++ [port1_restored]) s3 in
  inserted (length (heap s3)) s4.


Definition is_port1 (i : ObservedIface) : bool := String.eqb (o_name i) "port1".

(** The dict at [l] says ["state": "absent"]. *)
Definition absent_in (s : Machine) (l : loc) : Prop :=
  exists d, heap s !! l = Some d /\ Iface.state d = Some Interface.State.ABSENT.

(** ** Concrete worlds and policies *)

Definition available (reason : string) : Condition :=
  {| c_type := Conditions.Type_.AVAILABLE; c_reason := reason |}.

(** Every collaborator answers at once and without error; the policy is
    reported as configured and the nodes report no interface. *)
Definition calm : Oracle :=
  {| conditions_feed := fun _ => [available Conditions.Reason.SUCCESS];
     update_feed := fun _ => None;
     create_feed := fun _ => None;
     delete_feed := fun _ => None;
     interfaces_feed := fun _ _ => inl [];
     wait_until_deleted_feed := fun _ => None;
     wait_until_up_feed := fun _ => None;
     execute_feed := fun _ => inl "1500" |}.

(** The first update meets a write conflict. *)
Definition conflict_once : Oracle :=
  {| conditions_feed := conditions_feed calm;
     update_feed := fun n => if Nat.eqb n 0 then Some ConflictError else None;
     create_feed := create_feed calm;
     delete_feed := delete_feed calm;
     interfaces_feed := interfaces_feed calm;
     wait_until_deleted_feed := wait_until_deleted_feed calm;
     wait_until_up_feed := wait_until_up_feed calm;
     execute_feed := execute_feed calm |}.

(** The collaborators are calm but for the conditions, which are [feed]. *)
Definition reporting (feed : nat -> list Condition) : Oracle :=
  {| conditions_feed := feed;
     update_feed := update_feed calm;
     create_feed := create_feed calm;
     delete_feed := delete_feed calm;
     interfaces_feed := interfaces_feed calm;
     wait_until_deleted_feed := wait_until_deleted_feed calm;
     wait_until_up_feed := wait_until_up_feed calm;
     execute_feed := execute_feed calm |}.

(** No conditions for two reads, then a Progressing condition only, then
    an Available condition that is not settled, then success. *)
Definition slow_success : Oracle :=
  reporting (fun n =>
    match n with
    | 0 | 1 => []
    | 2 => [{| c_type := Conditions.Type_.PROGRESSING;
               c_reason := "ConfigurationProgressing" |}]
    | 3 => [available "ConfigurationProgressing"]
    | _ => [available Conditions.Reason.SUCCESS]
    end%nat).

Definition failing : Oracle :=
  reporting (fun _ => [available Conditions.Reason.FAILED]).

Definition silent : Oracle := reporting (fun _ => []).

(** No interface is ever seen to disappear. *)
Definition stuck : Oracle :=
  {| conditions_feed := conditions_feed calm;
     update_feed := update_feed calm;
     create_feed := create_feed calm;
     delete_feed := delete_feed calm;
     interfaces_feed := interfaces_feed calm;
     wait_until_deleted_feed := fun _ => Some TimeoutExpiredError;
     wait_until_up_feed := wait_until_up_feed calm;
     execute_feed := execute_feed calm |}.

(** The nodes report [first] at the first read of their interfaces and
    [later] from then on. *)
Definition observing (first later : list ObservedIface) : Oracle :=
  {| conditions_feed := conditions_feed calm;
     update_feed := update_feed calm;
     create_feed := create_feed calm;
     delete_feed := delete_feed calm;
     interfaces_feed := fun n _ => inl (if Nat.eqb n 0 then first else later);
     wait_until_deleted_feed := wait_until_deleted_feed calm;
     wait_until_up_feed := wait_until_up_feed calm;
     execute_feed := execute_feed calm |}.

Definition observed (n : string) (dhcp_ enabled_ : option bool) : ObservedIface :=
  {| o_name := n; o_ipv4 := Some {| o_dhcp := dhcp_; o_enabled := enabled_ |} |}.

Definition untouched : World :=
  {| clock := 0; conditions_reads := 0; updated := []; created := [];
     deleted := 0; interfaces_reads := 0; waited_deleted := [];
     waited_up := []; executed := [] |}.

Definition boot (o : NNCP) (h : list Iface.dict) (env : Oracle) : Machine :=
  {| self := o; heap := h; LOGGER := []; oracle := env; world := untouched |}.

Definition plain (n type_ : string) : Iface.dict :=
  {| Iface.name := Some n; Iface.type := Some type_;
     Iface.state := Some Interface.State.UP; Iface.mtu := None;
     Iface.ipv4 := None; Iface.ipv6 := None |}.

Definition bridge : Iface.dict := plain "br1" "linux-bridge".

(** [policy.iface = d] by the caller or a subclass, for a new dict [d]. *)
Definition assign_iface (d : Iface.dict) : M unit :=
  l ← alloc d;
  modify (with_self (set_iface (Some l))).

Definition blank : NNCP :=
  {| name := ""; teardown := true; desired_state := []; worker_pods := None;
     mtu := None; mtu_dict := []; ports := []; iface := None; ifaces := [];
     node_active_nics := []; ipv4_enable := false; _ipv4_dhcp := false;
     ipv4_addresses := []; ipv6_enable := false; ipv4_iface_state := [];
     node_selector := None; _node_selector := None |}.

(** The object a call of the constructor returns. *)
Definition made (r : Result NNCP) : NNCP :=
  match r with
  | Ok o => o
  | _ => blank
  end.

(** A policy with a static address whose primary interface is the bridge
    br1, the first dict on the heap. *)
Definition static_policy (teardown_ : bool) : NNCP :=
  set_iface (Some 0%nat)
    (made (__init__ "policy" (Some [node1]) None teardown_ None None true false
             (Some [{| ip := "10.1.2.3"; prefix_length := 24 |}]) false None)).

Definition static_state (teardown_ : bool) (env : Oracle) : Machine :=
  boot (static_policy teardown_) [bridge] env.

(** A DHCP policy over the port [port], with the same bridge. *)
Definition dhcp_policy (port : string) : NNCP :=
  set_iface (Some 0%nat)
    (made (__init__ "policy" (Some [node1]) None true None (Some [port]) true true
             None false None)).

Definition dhcp_state (port : string) (env : Oracle) : Machine :=
  boot (dhcp_policy port) [bridge] env.

(** A policy that was told that eth0 is a physical NIC of the nodes, and
    a caller that makes it configure eth0 and then the bridge br1. *)
Definition nics_policy : NNCP :=
  made (__init__ "policy" (Some [node1]) None true None None false false None false
          (Some ["eth0"])).

Definition two_interfaces : M unit :=
  assign_iface (plain "eth0" "ethernet");;
  apply;;
  assign_iface bridge;;
  apply.

(** The state a run ends in, and the document it returned. *)
Definition after {A} (m : M A) (s : Machine) : Machine := (m s).2.

Definition document_of (r : Result Document * Machine) : Document :=
  match r.1 with
  | Ok doc => doc
  | _ => {| metadata_name := ""; nodeSelector := None; interfaces := [] |}
  end.

(** The same caller with two bridges. *)
Definition two_bridges : M unit :=
  assign_iface bridge;;
  apply;;
  assign_iface (plain "br2" "linux-bridge");;
  apply.

(** Name and state of the entries of a document. *)
Definition summary (doc : Document) : list (option string * option string) :=
  map (fun d => (Iface.name d, Iface.state d)) (interfaces doc).

(** The states the examples start from. *)
Definition eth0_then_br1 : Machine := after two_interfaces (boot nics_policy [] calm).

(** Two bridges whose deletion the nodes never confirm. *)
Definition bridges_stuck : Machine := after two_bridges (boot nics_policy [] stuck).

Definition br1_then_br2 : Machine := after two_bridges (boot nics_policy [] calm).

(** A DHCP policy over port1 that was built without [worker_pods], so
    with the default [None], and whose primary interface is the bridge. *)
Definition unattended_policy : NNCP :=
  set_iface (Some 0%nat)
    (made (__init__ "policy" None None true None (Some ["port1"]) true true None
             false None)).

Definition unattended : Machine := boot unattended_policy [bridge] calm.

Definition dhcp_later : Oracle :=
  observing [observed "port1" (Some false) (Some true)]
            [observed "lo" None (Some true); observed "port1" (Some true) (Some true)].

Definition entered (s : Machine) : Machine := after __enter__ s.

Definition three_dicts : list Iface.dict :=
  [plain "eth0" "ethernet"; bridge; Iface.set_state Interface.State.DOWN bridge].

(** ** Notions of the further properties *)

(** The dict of the primary interface as [to_dict] leaves it: lines 108
    to 113 set ["ipv4"] and ["ipv6"] from the attributes of the policy. *)
Definition primary_entry (o : NNCP) (d : Iface.dict) : Iface.dict :=
  Iface.set_ipv6 {| Ipv6.enabled := ipv6_enable o |}
    (Iface.set_ipv4
       {| Ipv4.enabled := ipv4_enable o; Ipv4.dhcp := _ipv4_dhcp o;
          Ipv4.address := match ipv4_addresses o with
                          | [] => None
                          | addrs => Some addrs
                          end |} d).

(** Lines 115 to 119 of [to_dict], for the primary interface [l] and the
    base body and selector read before. *)
Definition to_dict_rest (res_name : string) (sel : list (string * string))
    (l : loc) : M Document :=
  set_interface l;;
  known ← in_ifaces l;
  (if (known : bool) then mret tt
   else modify (with_self (fun o => set_ifaces (ifaces o ++ [l]) o)));;
  ds ← attr desired_state;
  entries ← contents ds;
  mret {| metadata_name := res_name;
          nodeSelector := match sel with [] => None | _ => Some sel end;
          interfaces := entries |}.

(** [self.ifaces.append(self.iface)]. *)
Definition remembered (l : loc) (s : Machine) : Machine :=
  with_self (fun o => set_ifaces (ifaces o ++ [l]) o) s.

(** The pairs [(node, x)] that two nested loops [for pod in
    self.worker_pods: for x in xs] go through, in the order of the
    loops: node by node, and for each node the [xs] in their order. *)
Definition calls_per_node (pods : list Pod) (xs : list string)
    : list (string * string) :=
  flat_map (fun pod => map (fun x => (node_name pod, x)) xs) pods.

(** The dict at [l] carries the name of a physical NIC of the nodes:
    [clean_up] leaves the turn of such an interface at once. *)
Definition active_nic (s : Machine) (l : loc) : Prop :=
  exists n, name_of s l = Some n /\ str_in n (node_active_nics (self s)) = true.

(** What the loop of [_absent_interface] raises for its first interface
    when DHCP is on and there is no worker pod to ask. *)
Definition no_pods_error (pods : option (list Pod)) : Exn :=
  match pods with
  | None => TypeError
  | Some _ => StopIteration
  end.

(** The state after the loop body of [_absent_interface] has handled the
    interface at [b], whose dict was [d], with DHCP off. *)
Definition marked_absent (b : loc) (d : Iface.dict) (s : Machine) : Machine :=
  inserted b (with_heap (fun h => <[b := Iface.set_state Interface.State.ABSENT d]> h) s).

(** The desired state asks for the removal of the interface [n]. *)
Definition asks_absent (s : Machine) (n : string) : Prop :=
  exists l, l ∈ desired_state (self s) /\ name_of s l = Some n /\ absent_in s l.

(** The dict that [clean_up] builds for a port whose MTU it puts back
    (lines 183 to 188). *)
Definition mtu_entry (port : string) (v : Z) : Iface.dict :=
  {| Iface.name := Some port; Iface.type := Some "ethernet";
     Iface.state := Some Interface.State.UP; Iface.mtu := Some v;
     Iface.ipv4 := None; Iface.ipv6 := None |}.

(** The state after [set_interface] has been called with a new dict [d]
    and has returned. *)
Definition pushed (d : Iface.dict) (s : Machine) : Machine :=
  inserted (length (heap s)) (with_heap (fun h => h ++ [d]) s).

(** The MTU that line 187 reads for [port]: [int(self.mtu_dict[port])]. *)
Definition backed_up_mtu (s : Machine) (port : string) : option Z :=
  dict_get port (mtu_dict (self s)) ≫= int.

(** The strings on which [int] of the model is [int] of Python, whatever
    the version: ASCII characters only (Python also reads digits and
    spaces of other scripts), and no longer than the 4300 digits that
    [int] accepts by default since Python 3.11. *)
Definition plain_text (raw : string) : bool :=
  forallb (fun c => (nat_of_ascii c <? 128)%nat) (list_ascii_of_string raw) &&
  (String.length raw <=? 4300)%nat.

(** Every backup of an MTU is such a string. *)
Definition plain_backups (s : Machine) : Prop :=
  Forall (fun kv => plain_text kv.2 = true) (mtu_dict (self s)).

(** What line 187 raises when it cannot read the MTU of [port]. *)
Definition mtu_error (s : Machine) (port : string) : Exn :=
  match dict_get port (mtu_dict (self s)) with
  | None => KeyError port
  | Some _ => ValueError
  end.

(** The desired state declares [port] with the MTU [v]. *)
Definition declares_mtu (s : Machine) (port : string) (v : Z) : Prop :=
  exists l, l ∈ desired_state (self s) /\ heap s !! l = Some (mtu_entry port v).



(** The IPv4 flags that a node reports for an interface, when it reports
    both of them. *)
Definition observed_flags (i : ObservedIface) : option Ipv4.dict :=
  v ← o_ipv4 i;
  d ← o_dhcp v;
  e ← o_enabled v;
  Some {| Ipv4.enabled := e; Ipv4.dhcp := d; Ipv4.address := None |}.

(** The last interface of the name [p] in a report. *)
Definition last_seen (p : string) (obs : list ObservedIface) : option ObservedIface :=
  last (filter (fun i => o_name i = p) obs).

(** The node's report from which [_ipv4_state_backup] can read the flags
    of every port of the policy. *)
Definition ports_have_flags (ps : list string) (obs : list ObservedIface) : Prop :=
  Forall (fun i => str_in (o_name i) ps = true -> is_Some (observed_flags i)) obs.

(** What the backup of one node holds for the name [p], given the report
    [obs] of the node: the flags of the port as last reported, and
    nothing for names that are not ports of the policy. *)
Definition backed_up_flags (ps : list string) (obs : list ObservedIface)
    (p : string) : option Ipv4.dict :=
  if str_in p ps then last_seen p obs ≫= observed_flags else None.

(** The answer to the [i]-th read of the interfaces of a node from [s]
    on. *)
Definition interfaces_answer (s : Machine) (i : nat) (node : string)
    : list ObservedIface + Exn :=
  interfaces_feed (oracle s) (interfaces_reads (world s) + i)%nat node.

(** Lines 226 to 232: the loop body of [_ipv4_state_backup] for one
    interface of the report of [node]. *)
Definition backup_flags (node : string) (interface : ObservedIface) : M unit :=
  ps ← attr ports;
  if str_in (o_name interface) ps then
    table ← attr ipv4_iface_state;
    flags ← ipv4_flags interface;
    table' ← update_node node (o_name interface) flags table;
    modify (with_self (set_ipv4_iface_state table'))
  else mret tt.

(** The node reports the port [i] with the flags the backup [saved] of
    the node holds for it. *)
Definition as_backed_up (ps : list string) (saved : list (string * Ipv4.dict))
    (i : ObservedIface) : Prop :=
  str_in (o_name i) ps = true ->
  exists f, observed_flags i = Some f /\ dict_get (o_name i) saved = Some f.

(** The turn of one pod in the loop of lines 243 to 260. *)
Definition compare_node (pod : Pod)
    (temp : list (string * list (string * Ipv4.dict)))
    : M (list (string * list (string * Ipv4.dict))) :=
  observed ← currentState_interfaces (node_name pod);
  for_fold observed (dict_set (node_name pod) [] temp) (compare_flags (node_name pod)).

(** ** Further concrete worlds and policies *)

(** An interface dict without a ["name"] key, and a policy whose primary
    interface is that dict. *)
Definition nameless : Iface.dict :=
  {| Iface.name := None; Iface.type := Some "ethernet";
     Iface.state := Some Interface.State.UP; Iface.mtu := None;
     Iface.ipv4 := None; Iface.ipv6 := None |}.

Definition nameless_state : Machine := boot (static_policy true) [nameless] calm.

(** The policy is reported with a Failing condition only. *)
Definition failing_only : Oracle :=
  reporting (fun _ => [{| c_type := Conditions.Type_.FAILING;
                          c_reason := Conditions.Reason.FAILED |}]).

(** The static policy after its document has been built once. *)
Definition built (env : Oracle) : Machine := after to_dict (static_state true env).

(** A policy that has configured the physical NIC eth0 and nothing
    else. *)
Definition eth0_only : Machine :=
  after (assign_iface (plain "eth0" "ethernet");; apply) (boot nics_policy [] calm).

(** A DHCP policy over port1 without worker pods, after its document has
    been built once. *)
Definition podless_policy : NNCP :=
  set_iface (Some 0%nat)
    (made (__init__ "policy" (Some []) None true None (Some ["port1"]) true true
             None false None)).

Definition podless_state : Machine := after to_dict (boot podless_policy [bridge] calm).

(** A policy that sets the MTU of the port eth1. *)
Definition mtu_policy (pods : list Pod) : NNCP :=
  set_iface (Some 0%nat)
    (made (__init__ "policy" (Some pods) None true (Some 1400) (Some ["eth1"]) false
             false None false None)).

(** The digit 7 between the separators 28 and 31, which [str.strip]
    removes and [int] does not accept, as the backup of eth1. *)
Definition fenced_seven : string :=
  String (ascii_of_nat 28) (String "7" (String (ascii_of_nat 31) EmptyString)).

Definition fenced_backup : Machine :=
  boot (set_mtu_dict [("eth1", fenced_seven)] (mtu_policy [node1])) [bridge] calm.

Definition node2 : Pod := {| node_name := "node2" |}.



(** A DHCP policy over port1 on two nodes, and nodes that report port1
    with DHCP off at the first three reads and with DHCP on from the
    fourth read on. *)
Definition two_nodes_policy : NNCP :=
  set_iface (Some 0%nat)
    (made (__init__ "policy" (Some [node1; node2]) None true None (Some ["port1"])
             true true None false None)).

Definition dhcp_from_fourth_read : Oracle :=
  {| conditions_feed := conditions_feed calm;
     update_feed := update_feed calm;
     create_feed := create_feed calm;
     delete_feed := delete_feed calm;
     interfaces_feed := fun n _ => inl [observed "port1" (Some (3 <=? n)%nat) (Some true)];
     wait_until_deleted_feed := wait_until_deleted_feed calm;
     wait_until_up_feed := wait_until_up_feed calm;
     execute_feed := execute_feed calm |}.

Definition backed_up_two_nodes : Machine :=
  after _ipv4_state_backup (boot two_nodes_policy [bridge] dhcp_from_fourth_read).

(** The setting in which every turn of the loop of [clean_up] times out:
    no MTU and no DHCP to restore, a worker pod to ask, a primary
    interface that is among [self.ifaces], named interfaces none of which
    is a physical NIC, a resource store that accepts every update from
    now on, and nodes that never confirm a deletion. *)
Record deletions_unconfirmed (s : Machine) : Prop := {
  du_mtu : truthy_int (mtu (self s)) = false;
  du_dhcp : _ipv4_dhcp (self s) = false;
  du_pods : exists pod pods, worker_pods (self s) = Some (pod :: pods);
  du_selector : is_Some (_node_selector (self s));
  du_iface : exists l, iface (self s) = Some l /\ l ∈ ifaces (self s);
  du_ifaces : Forall (fun x => exists n, name_of s x = Some n /\
                        str_in n (node_active_nics (self s)) = false)
                (ifaces (self s));
  du_desired : Forall (fun l => is_Some (name_of s l)) (desired_state (self s));
  du_updates : forall n, (length (updated (world s)) <= n)%nat ->
               update_feed (oracle s) n = None;
  du_waits : forall n, (length (waited_deleted (world s)) <= n)%nat ->
             wait_until_deleted_feed (oracle s) n = Some TimeoutExpiredError
}.

(** * Properties *)

(** ** Running the monad *)

Lemma bind_run {A B} (m : M A) (f : A -> M B) (s : Machine) :
  (m ≫= f) s =
  match m s with
  | (Ok a, s') => f a s'
  | (Raise e, s') => (Raise e, s')
  | (Abort w, s') => (Abort w, s')
  end.
Proof. reflexivity. Qed.

Lemma bind_ok_inv {A B} (m : M A) (f : A -> M B) (s s' : Machine) (b : B) :
  (m ≫= f) s = (Ok b, s') ->
  exists a s1, m s = (Ok a, s1) /\ f a s1 = (Ok b, s').
Proof.
  rewrite bind_run. destruct (m s) as [[a|e|w] s1]; try discriminate.
  intros H. exists a, s1. split; [reflexivity | exact H].
Qed.

Lemma deref_run (l : loc) (s : Machine) :
  deref l s = match heap s !! l with
              | Some d => (Ok d, s)
              | None => (Abort DanglingRef, s)
              end.
Proof. reflexivity. Qed.

Lemma getitem_name_run (l : loc) (s : Machine) :
  getitem_name l s =
  match heap s !! l with
  | None => (Abort DanglingRef, s)
  | Some d =>
      match Iface.name d with
      | Some n => (Ok n, s)
      | None => (Raise (KeyError "name"), s)
      end
  end.
Proof.
  unfold getitem_name. rewrite bind_run, deref_run.
  destruct (heap s !! l) as [d|]; [|reflexivity].
  destruct (Iface.name d); reflexivity.
Qed.

Lemma getitem_name_named (l : loc) (s : Machine) (n : string) :
  name_of s l = Some n -> getitem_name l s = (Ok n, s).
Proof.
  unfold name_of. rewrite getitem_name_run.
  destruct (heap s !! l) as [d|]; cbn; [|discriminate].
  intros ->. reflexivity.
Qed.

(** ** [set_interface] *)

Lemma keep_other_unfold (x i : loc) (acc : list loc) (s : Machine) :
  keep_other x i acc s =
  match getitem_name i s with
  | (Ok ni, s1) =>
      match getitem_name x s1 with
      | (Ok nx, s2) => (Ok (if String.eqb ni nx then acc else acc ++ [i]), s2)
      | (Raise e, s2) => (Raise e, s2)
      | (Abort w, s2) => (Abort w, s2)
      end
  | (Raise e, s1) => (Raise e, s1)
  | (Abort w, s1) => (Abort w, s1)
  end.
Proof. reflexivity. Qed.

(** The comprehension leaves the state alone; when it yields a list, it
    is the entries whose name differs from the name of [x]; it yields one
    when every dict involved has a name. *)
Lemma keep_other_run (x : loc) (ds : list loc) : forall (acc : list loc) (s : Machine),
  exists r, for_fold ds acc (keep_other x) s = (r, s) /\
    (forall v, r = Ok v ->
       v = acc ++ filter (fun i => name_of s i ≠ name_of s x) ds) /\
    (Forall (fun i => is_Some (name_of s i)) ds -> is_Some (name_of s x) ->
       exists v, r = Ok v).
Proof.
  induction ds as [|i ds IH]; intros acc s.
  - exists (Ok acc). split; [reflexivity|]. split; [|eauto].
    intros v [= <-]. now rewrite app_nil_r.
  - cbn [for_fold]. rewrite bind_run, keep_other_unfold, getitem_name_run.
    destruct (heap s !! i) as [di|] eqn:Hi.
    2:{ eexists; split; [reflexivity|]. split; [discriminate|].
        intros Hall _. apply Forall_cons in Hall as [[n Hn] _].
        unfold name_of in Hn. rewrite Hi in Hn. discriminate. }
    destruct (Iface.name di) as [ni|] eqn:Hni.
    2:{ eexists; split; [reflexivity|]. split; [discriminate|].
        intros Hall _. apply Forall_cons in Hall as [[n Hn] _].
        unfold name_of in Hn. rewrite Hi in Hn. cbn in Hn. congruence. }
    cbn beta iota. rewrite getitem_name_run.
    destruct (heap s !! x) as [dx|] eqn:Hx.
    2:{ eexists; split; [reflexivity|]. split; [discriminate|].
        intros _ [n Hn]. unfold name_of in Hn. rewrite Hx in Hn. discriminate. }
    destruct (Iface.name dx) as [nx|] eqn:Hnx.
    2:{ eexists; split; [reflexivity|]. split; [discriminate|].
        intros _ [n Hn]. unfold name_of in Hn. rewrite Hx in Hn. cbn in Hn. congruence. }
    cbn [mret M_ret].
    assert (Hi' : name_of s i = Some ni) by (unfold name_of; rewrite Hi; exact Hni).
    assert (Hx' : name_of s x = Some nx) by (unfold name_of; rewrite Hx; exact Hnx).
    rewrite filter_cons.
    destruct (String.eqb_spec ni nx) as [->|Hne].
    + rewrite decide_False by (intros H; apply H; congruence).
      destruct (IH acc s) as (r & Hr & Hv & Hok). exists r.
      split; [exact Hr|]. split; [exact Hv|].
      intros Hall Hx''. apply Forall_cons in Hall as [_ Hall]. auto.
    + rewrite decide_True by congruence.
      destruct (IH (acc ++ [i]) s) as (r & Hr & Hv & Hok). exists r.
      split; [exact Hr|]. split.
      * intros v Hv'. rewrite (Hv v Hv'). now rewrite <- app_assoc.
      * intros Hall Hx''. apply Forall_cons in Hall as [_ Hall]. auto.
Qed.

Lemma set_interface_run (x : loc) (s : Machine) :
  exists r, set_interface x s = (r, match r with Ok _ => inserted x s | _ => s end) /\
    (Forall (fun i => is_Some (name_of s i)) (desired_state (self s)) ->
     is_Some (name_of s x) -> r = Ok tt).
Proof.
  unfold set_interface. rewrite bind_run. cbn [attr]. rewrite bind_run.
  destruct (keep_other_run x (desired_state (self s)) [] s) as (r & Hr & Hv & Hok).
  rewrite Hr. destruct r as [v|e|w].
  - exists (Ok tt). rewrite (Hv v eq_refl). split; [reflexivity | auto].
  - exists (Raise e). split; [reflexivity|]. intros H1 H2.
    destruct (Hok H1 H2) as [v Hv']. discriminate.
  - exists (Abort w). split; [reflexivity|]. intros H1 H2.
    destruct (Hok H1 H2) as [v Hv']. discriminate.
Qed.

Lemma name_of_inserted (x l : loc) (s : Machine) :
  name_of (inserted x s) l = name_of s l.
Proof. reflexivity. Qed.

Lemma set_interface_heap (x : loc) (s : Machine) :
  heap (set_interface x s).2 = heap s.
Proof.
  destruct (set_interface_run x s) as (r & -> & _). destruct r; reflexivity.
Qed.

(** After an insertion the name of [x] is carried by [x] alone, and the
    entries under any other name are the ones that were there. *)
Lemma entries_named_inserted (n : string) (x : loc) (s : Machine) :
  entries_named n (inserted x s) =
  if decide (name_of s x = Some n) then [x] else entries_named n s.
Proof.
  unfold entries_named. cbn [inserted with_self self set_desired_state desired_state].
  rewrite filter_app, filter_singleton; [|exact []].
  rewrite list_filter_filter.
  change (fun l => name_of (inserted x s) l = Some n)
    with (fun l => name_of s l = Some n).
  destruct (decide (name_of s x = Some n)) as [Hx|Hx].
  - rewrite (list_filter_iff _ (fun _ => False) _); [|intros i; rewrite Hx; tauto].
    replace (filter (fun _ : loc => False) (desired_state (self s))) with (@nil loc).
    + rewrite decide_True by exact Hx. reflexivity.
    + symmetry. induction (desired_state (self s)) as [|i ds IH]; [reflexivity|].
      rewrite filter_cons_False by tauto. exact IH.
  - rewrite decide_False by exact Hx.
    rewrite app_nil_r. apply list_filter_iff. intros i. split; [tauto|].
    intros Hi. split; [exact Hi | congruence].
Qed.

Lemma named_inserted (x : loc) (s : Machine) :
  Forall (fun i => is_Some (name_of s i)) (desired_state (self s)) ->
  is_Some (name_of s x) ->
  Forall (fun i => is_Some (name_of (inserted x s) i)) (desired_state (self (inserted x s))).
Proof.
  intros Hall Hx. cbn [inserted with_self self set_desired_state desired_state].
  apply Forall_app. split.
  - apply Forall_forall. intros i [_ Hi]%list_elem_of_filter.
    rewrite Forall_forall in Hall. exact (Hall i Hi).
  - apply Forall_cons. split; [exact Hx | constructor].
Qed.

(** Whatever a call does, it keeps the list free of duplicate names. *)
Lemma set_interface_unique (x : loc) (s : Machine) :
  (forall n, length (entries_named n s) <= 1)%nat ->
  forall n, (length (entries_named n (set_interface x s).2) <= 1)%nat.
Proof.
  intros Hinv n. destruct (set_interface_run x s) as (r & -> & _).
  destruct r; cbn [snd]; [|apply Hinv..].
  rewrite entries_named_inserted. case_decide; [cbn; lia | apply Hinv].
Qed.

Lemma set_interfaces_unique (calls : list loc) : forall s : Machine,
  (forall n, length (entries_named n s) <= 1)%nat ->
  forall n, (length (entries_named n (set_interfaces calls s)) <= 1)%nat.
Proof.
  induction calls as [|x calls IH]; intros s Hinv; [exact Hinv|].
  cbn [set_interfaces]. apply IH. now apply set_interface_unique.
Qed.

Lemma set_interfaces_heap (calls : list loc) : forall s : Machine,
  heap (set_interfaces calls s) = heap s.
Proof.
  induction calls as [|x calls IH]; intros s; [reflexivity|].
  cbn [set_interfaces]. rewrite IH. apply set_interface_heap.
Qed.

Lemma set_interfaces_app (calls1 calls2 : list loc) : forall s : Machine,
  set_interfaces (calls1 ++ calls2) s = set_interfaces calls2 (set_interfaces calls1 s).
Proof.
  induction calls1 as [|x calls1 IH]; intros s; [reflexivity|].
  cbn [set_interfaces app]. apply IH.
Qed.

(** Calls with named dicts all return, and keep every entry named. *)
Lemma set_interfaces_named (calls : list loc) : forall s : Machine,
  Forall (fun i => is_Some (name_of s i)) (desired_state (self s)) ->
  Forall (fun l => is_Some (name_of s l)) calls ->
  Forall (fun i => is_Some (name_of s i)) (desired_state (self (set_interfaces calls s))).
Proof.
  induction calls as [|x calls IH]; intros s Hall Hcalls; [exact Hall|].
  apply Forall_cons in Hcalls as [Hx Hcalls]. cbn [set_interfaces].
  destruct (set_interface_run x s) as (r & Hr & Hok).
  rewrite (Hok Hall Hx) in Hr. rewrite Hr. cbn [snd].
  apply (IH (inserted x s)).
  - now apply named_inserted.
  - exact Hcalls.
Qed.

(** C3.  For every sequence of [set_interface] calls on a policy whose
    desired-state list starts empty, the list holds at most one entry per
    interface name; and two more calls with dicts [a] and [b] of the same
    name [n] leave exactly one entry named [n], the dict [b] of the second
    call, with its content untouched. *)
Theorem set_interface_last_write_wins (s : Machine) (calls : list loc) :
  desired_state (self s) = [] ->
  (forall n, length (entries_named n (set_interfaces calls s)) <= 1)%nat /\
  (forall a b n,
     Forall (fun l => is_Some (name_of s l)) calls ->
     name_of s a = Some n -> name_of s b = Some n ->
     entries_named n (set_interfaces (calls ++ [a; b]) s) = [b] /\
     heap (set_interfaces (calls ++ [a; b]) s) = heap s).
Proof.
  intros Hempty. split.
  - apply set_interfaces_unique. intros n. unfold entries_named.
    rewrite Hempty. cbn. lia.
  - intros a b n Hcalls Ha Hb. split; [|apply set_interfaces_heap].
    rewrite set_interfaces_app. set (s1 := set_interfaces calls s).
    assert (Hheap : heap s1 = heap s) by apply set_interfaces_heap.
    assert (Hname : forall l, name_of s1 l = name_of s l)
      by (intros l; unfold name_of; now rewrite Hheap).
    assert (Hall : Forall (fun i => is_Some (name_of s1 i)) (desired_state (self s1))).
    { eapply Forall_impl.
      - apply set_interfaces_named; [|exact Hcalls]. rewrite Hempty. constructor.
      - intros i Hi. cbn beta. now rewrite Hname. }
    cbn [set_interfaces].
    destruct (set_interface_run a s1) as (ra & Hra & Hoka).
    rewrite Hoka in Hra; [|exact Hall | rewrite Hname, Ha; eauto].
    rewrite Hra. cbn [snd].
    destruct (set_interface_run b (inserted a s1)) as (rb & Hrb & Hokb).
    rewrite Hokb in Hrb.
    + rewrite Hrb. cbn [snd]. rewrite entries_named_inserted.
      rewrite decide_True; [reflexivity|].
      rewrite name_of_inserted, Hname. exact Hb.
    + apply named_inserted; [exact Hall | rewrite Hname, Ha; eauto].
    + rewrite name_of_inserted, Hname, Hb. eauto.
Qed.

(** ** [to_dict] *)

Lemma attr_ok_inv {A} (f : NNCP -> A) (s s' : Machine) (a : A) :
  attr f s = (Ok a, s') -> a = f (self s) /\ s' = s.
Proof. intros [= <- <-]. split; reflexivity. Qed.

Lemma setitem_ok_inv (l : loc) (f : Iface.dict -> Iface.dict) (s s' : Machine) (u : unit) :
  setitem l f s = (Ok u, s') ->
  exists d, heap s !! l = Some d /\ s' = with_heap (fun h => <[l := f d]> h) s.
Proof.
  unfold setitem. rewrite bind_run, deref_run.
  destruct (heap s !! l) as [d|]; [|discriminate].
  destruct u. intros [= <-]. exists d. split; reflexivity.
Qed.

Lemma setitem_lookup (l : loc) (d v : Iface.dict) (s : Machine) :
  heap s !! l = Some d ->
  heap (with_heap (fun h => <[l := v]> h) s) !! l = Some v.
Proof.
  intros H. cbn [with_heap heap]. apply list_lookup_insert_eq.
  now apply lookup_lt_Some in H.
Qed.

Lemma set_interface_ok_inv (x : loc) (s s' : Machine) (u : unit) :
  set_interface x s = (Ok u, s') -> s' = inserted x s.
Proof.
  destruct (set_interface_run x s) as (r & -> & _).
  destruct r as [[]| |]; [|discriminate..]. destruct u. now intros [= <-].
Qed.

Lemma in_ifaces_state (l : loc) (s : Machine) : (in_ifaces l s).2 = s.
Proof.
  unfold in_ifaces. rewrite bind_run. cbn [attr]. rewrite bind_run, deref_run.
  destruct (heap s !! l) as [d|]; [|reflexivity].
  generalize false. induction (ifaces (self s)) as [|x xs IH]; intros found.
  - reflexivity.
  - cbn [for_fold]. rewrite bind_run. destruct found.
    + cbn [mret M_ret]. apply IH.
    + destruct (Nat.eqb x l).
      * cbn [mret M_ret]. apply IH.
      * rewrite bind_run, deref_run.
        destruct (heap s !! x); [|reflexivity]. cbn [mret M_ret]. apply IH.
Qed.

(** [contents] reads the heap and leaves the state alone. *)
Lemma contents_run (ls : list loc) : forall (acc : list Iface.dict) (s : Machine),
  exists r,
    for_fold ls acc (fun l acc => d ← deref l; mret (acc ++ [d])) s = (r, s) /\
    forall v, r = Ok v ->
      exists ds, v = acc ++ ds /\ Forall2 (fun l d => heap s !! l = Some d) ls ds.
Proof.
  induction ls as [|l ls IH]; intros acc s.
  - exists (Ok acc). split; [reflexivity|]. intros v [= <-].
    exists []. split; [now rewrite app_nil_r | constructor].
  - cbn [for_fold]. rewrite !bind_run, deref_run.
    destruct (heap s !! l) as [d|] eqn:Hl; [|eexists; split; [reflexivity|discriminate]].
    cbn [mret M_ret]. destruct (IH (acc ++ [d]) s) as (r & Hr & Hv).
    exists r. split; [exact Hr|]. intros v Hv'.
    destruct (Hv v Hv') as (ds & -> & Hds). exists (d :: ds).
    split; [now rewrite <- app_assoc | now constructor].
Qed.

Lemma contents_ok_inv (ls : list loc) (s s' : Machine) (v : list Iface.dict) :
  contents ls s = (Ok v, s') ->
  s' = s /\ Forall2 (fun l d => heap s !! l = Some d) ls v.
Proof.
  unfold contents. destruct (contents_run ls [] s) as (r & -> & Hv).
  intros [= -> <-]. split; [reflexivity|].
  destruct (Hv v eq_refl) as (ds & -> & Hds). exact Hds.
Qed.

(** Without the attribute [_node_selector], [to_dict] raises at once. *)
Lemma to_dict_no_selector (s : Machine) :
  _node_selector (self s) = None ->
  to_dict s = (Raise (AttributeError "_node_selector"), s).
Proof.
  intros H. unfold to_dict. do 2 (rewrite bind_run; cbn [attr]). rewrite H.
  reflexivity.
Qed.

(** The ["ipv4"] value that [to_dict] writes into the primary interface. *)
Lemma to_dict_ok_inv (s s' : Machine) (doc : Document) :
  to_dict s = (Ok doc, s') ->
  exists l entry,
    iface (self s) = Some l /\ heap s' !! l = Some entry /\
    last (interfaces doc) = Some entry /\
    Iface.ipv4 entry =
      Some {| Ipv4.enabled := ipv4_enable (self s); Ipv4.dhcp := _ipv4_dhcp (self s);
              Ipv4.address := match ipv4_addresses (self s) with
                              | [] => None
                              | addrs => Some addrs
                              end |}.
Proof.
  unfold to_dict. intros H.
  apply bind_ok_inv in H as (res_name & s0 & [-> ->]%attr_ok_inv & H).
  apply bind_ok_inv in H as (sel & s0 & [-> ->]%attr_ok_inv & H).
  destruct (_node_selector (self s)) as [sel|]; [|discriminate].
  apply bind_ok_inv in H as (en & s0 & [-> ->]%attr_ok_inv & H).
  apply bind_ok_inv in H as (dh & s0 & [-> ->]%attr_ok_inv & H).
  apply bind_ok_inv in H as (i & s0 & [-> ->]%attr_ok_inv & H).
  destruct (iface (self s)) as [l|] eqn:Hl; [|discriminate].
  apply bind_ok_inv in H as ([] & s1 & (d & Hd & ->)%setitem_ok_inv & H).
  apply bind_ok_inv in H as (addrs & s0 & [-> ->]%attr_ok_inv & H).
  cbn [with_heap self] in H.
  apply bind_ok_inv in H as ([] & s2 & H2 & H).
  apply bind_ok_inv in H as (v6 & s0 & [-> ->]%attr_ok_inv & H).
  apply bind_ok_inv in H as ([] & s3 & (d2 & Hd2 & ->)%setitem_ok_inv & H).
  apply bind_ok_inv in H as ([] & s4 & ->%set_interface_ok_inv & H).
  apply bind_ok_inv in H as (known & s5 & H5 & H).
  pose proof (in_ifaces_state l (inserted l
    (with_heap (fun h => <[l := Iface.set_ipv6 {| Ipv6.enabled := ipv6_enable (self s2) |} d2]> h) s2)))
    as Hs5.
  rewrite H5 in Hs5. cbn [snd] in Hs5. subst s5.
  apply bind_ok_inv in H as ([] & s6 & H6 & H).
  apply bind_ok_inv in H as (ds & s0 & [-> ->]%attr_ok_inv & H).
  apply bind_ok_inv in H as (entries & s7 & [-> Hentries]%contents_ok_inv & H).
  injection H as <- <-.
  (* the heap after the three writes *)
  assert (Hipv4 : Iface.ipv4 d2 =
      Some {| Ipv4.enabled := ipv4_enable (self s); Ipv4.dhcp := _ipv4_dhcp (self s);
              Ipv4.address := match ipv4_addresses (self s) with
                              | [] => None
                              | addrs => Some addrs
                              end |}).
  { destruct (ipv4_addresses (self s)) as [|a addrs].
    - injection H2 as <-. erewrite setitem_lookup in Hd2 by exact Hd.
      injection Hd2 as <-. reflexivity.
    - apply setitem_ok_inv in H2 as (d1 & Hd1 & ->).
      erewrite setitem_lookup in Hd1 by exact Hd. injection Hd1 as <-.
      erewrite setitem_lookup in Hd2 by (eapply setitem_lookup; exact Hd).
      injection Hd2 as <-. reflexivity. }
  set (entry := Iface.set_ipv6 {| Ipv6.enabled := ipv6_enable (self s2) |} d2) in *.
  assert (Hheap6 : heap s6 !! l = Some entry).
  { destruct known; injection H6 as <-; cbn [with_self heap inserted];
      eapply setitem_lookup; exact Hd2. }
  assert (Hds6 : exists front, desired_state (self s6) = front ++ [l]).
  { destruct known; injection H6 as <-; eexists; reflexivity. }
  destruct Hds6 as [front Hfront]. rewrite Hfront in Hentries.
  apply Forall2_app_inv_l in Hentries as (es1 & es2 & _ & Hlast & ->).
  inversion Hlast as [|? e ? ? He Hnil]; subst. inversion Hnil; subst.
  exists l, entry. split; [reflexivity|]. split; [exact Hheap6|]. split.
  - cbn [interfaces]. rewrite last_snoc. congruence.
  - exact Hipv4.
Qed.

(** C7.  In every document that [to_dict] builds, the last entry of the
    interface list is the primary interface, and its ["ipv4"] object
    always carries the flags [enabled] and [dhcp] as configured; it carries
    ["address"], equal to the configured list, when that list is not
    empty, and has no ["address"] when the list is empty. *)
Theorem to_dict_address_field (s s' : Machine) (doc : Document) :
  to_dict s = (Ok doc, s') ->
  exists l entry v4,
    iface (self s) = Some l /\ heap s' !! l = Some entry /\
    last (interfaces doc) = Some entry /\
    Iface.ipv4 entry = Some v4 /\
    Ipv4.enabled v4 = ipv4_enable (self s) /\
    Ipv4.dhcp v4 = _ipv4_dhcp (self s) /\
    (ipv4_addresses (self s) <> [] ->
       Ipv4.address v4 = Some (ipv4_addresses (self s))) /\
    (ipv4_addresses (self s) = [] -> Ipv4.address v4 = None).
Proof.
  intros H. destruct (to_dict_ok_inv s s' doc H) as (l & entry & Hl & Hh & Hlast & Hv4).
  exists l, entry. eexists. split; [exact Hl|]. split; [exact Hh|].
  split; [exact Hlast|]. split; [exact Hv4|]. cbn.
  split; [reflexivity|]. split; [reflexivity|]. split.
  - intros Hne. destruct (ipv4_addresses (self s)); [contradiction | reflexivity].
  - intros ->. reflexivity.
Qed.

(** ** [__init__] *)

Lemma find_no_match (ns : string) (pods : list Pod) :
  Forall (fun pod => node_name pod <> ns) pods ->
  find (fun pod => String.eqb (node_name pod) ns) pods = None.
Proof.
  induction 1 as [|pod pods Hpod _ IH]; [reflexivity|].
  cbn [find]. destruct (String.eqb_spec (node_name pod) ns); [contradiction | exact IH].
Qed.

Lemma truthy_str_Some (ns : string) : ns <> "" -> truthy_str (Some ns) = true.
Proof.
  intros H. cbn. destruct (String.eqb_spec ns ""); [contradiction | reflexivity].
Qed.

(** C9.  When a hostname is given as [node_selector] and no pod of
    [worker_pods] runs on that node (the list may be empty), the
    constructor returns an object on which [_node_selector] was never
    assigned, and as long as the attribute stays unassigned (no method of
    the class assigns it) [to_dict] raises [AttributeError] and changes
    nothing.  And whatever the arguments, the
    object gets the worker-role selector exactly when [node_selector] is
    falsy, that is [None] or the empty string. *)
Theorem unmatched_hostname_leaves_selector_unset
    (name_ : string) (pods : list Pod) (ns : string) (teardown_ : bool)
    (mtu_ : option Z) (ports_ : option (list string)) (ipv4_enable_ ipv4_dhcp_ : bool)
    (ipv4_addresses_ : option (list Address)) (ipv6_enable_ : bool)
    (node_active_nics_ : option (list string)) :
  ns <> "" ->
  Forall (fun pod => node_name pod <> ns) pods ->
  (exists o,
     __init__ name_ (Some pods) (Some ns) teardown_ mtu_ ports_ ipv4_enable_
       ipv4_dhcp_ ipv4_addresses_ ipv6_enable_ node_active_nics_ = Ok o /\
     _node_selector o = None /\
     forall s, _node_selector (self s) = _node_selector o ->
       to_dict s = (Raise (AttributeError "_node_selector"), s)) /\
  (forall worker_pods_ node_selector_ o,
     __init__ name_ worker_pods_ node_selector_ teardown_ mtu_ ports_ ipv4_enable_
       ipv4_dhcp_ ipv4_addresses_ ipv6_enable_ node_active_nics_ = Ok o ->
     (_node_selector o = Some worker_selector <-> truthy_str node_selector_ = false)).
Proof.
  intros Hns Hpods. split.
  - unfold __init__. rewrite (truthy_str_Some ns Hns).
    rewrite (find_no_match ns pods Hpods). eexists. split; [reflexivity|].
    split; [reflexivity|]. intros s Hs. apply to_dict_no_selector.
    rewrite Hs. reflexivity.
  - intros wp sel o. unfold __init__.
    destruct sel as [sel|]; [|intros [= <-]; cbn; split; reflexivity].
    destruct (truthy_str (Some sel)) eqn:Hsel.
    + destruct wp as [ps|]; [|discriminate].
      destruct (find _ ps); intros [= <-]; cbn; split; discriminate.
    + intros [= <-]. cbn [_node_selector]. split; reflexivity.
Qed.

(** ** [apply] *)

Lemma update_run (doc : Document) (s : Machine) :
  update doc s =
  (match update_answer s 0 with None => Ok tt | Some e => Raise e end,
   with_world (log_updated doc) s).
Proof.
  unfold update, update_answer. rewrite Nat.add_0_r.
  rewrite bind_run. cbn [get]. rewrite bind_run. cbn [modify].
  destruct (update_feed (oracle s) (length (updated (world s)))); reflexivity.
Qed.

Lemma update_answer_conflicted (doc : Document) (s : Machine) (i : nat) :
  update_answer (conflicted doc s) i = update_answer s (S i).
Proof.
  unfold update_answer. cbn [conflicted with_world world oracle log_updated tick_clock updated].
  rewrite length_app. cbn [length]. f_equal. lia.
Qed.

(** One step of the loop of [apply]. *)
Lemma apply_loop_step (polls : nat) (doc : Document) (s : Machine) :
  sampler_loop (S polls) 1 (Some is_ConflictError) (update doc)
    (fun _ => mret (Some tt)) s =
  match update_answer s 0 with
  | None => (Ok tt, with_world (log_updated doc) s)
  | Some e =>
      if is_ConflictError e
      then sampler_loop polls 1 (Some is_ConflictError) (update doc)
             (fun _ => mret (Some tt)) (conflicted doc s)
      else (Raise e, with_world (log_updated doc) s)
  end.
Proof.
  cbn [sampler_loop]. rewrite bind_run. unfold attempt. rewrite update_run.
  destruct (update_answer s 0) as [e|]; [|reflexivity].
  cbn beta iota. destruct (is_ConflictError e); reflexivity.
Qed.

(** Conflicts use up polls and nothing else. *)
Lemma apply_loop_conflicts (n : nat) (doc : Document) : forall (polls : nat) (s : Machine),
  (forall i, (i < n)%nat -> update_answer s i = Some ConflictError) ->
  sampler_loop (n + polls) 1 (Some is_ConflictError) (update doc)
    (fun _ => mret (Some tt)) s =
  sampler_loop polls 1 (Some is_ConflictError) (update doc)
    (fun _ => mret (Some tt)) (conflicts n doc s).
Proof.
  induction n as [|n IH]; intros polls s Hconf; [reflexivity|].
  cbn [Nat.add conflicts]. rewrite apply_loop_step, (Hconf 0%nat) by lia.
  cbn [is_ConflictError]. apply IH. intros i Hi.
  rewrite update_answer_conflicted. apply Hconf. lia.
Qed.

Lemma conflicts_world (n : nat) (doc : Document) : forall s : Machine,
  updated (world (conflicts n doc s)) = updated (world s) ++ replicate n doc /\
  clock (world (conflicts n doc s)) = clock (world s) + Z.of_nat n /\
  self (conflicts n doc s) = self s /\ heap (conflicts n doc s) = heap s /\
  LOGGER (conflicts n doc s) = LOGGER s /\ oracle (conflicts n doc s) = oracle s /\
  deleted (world (conflicts n doc s)) = deleted (world s).
Proof.
  induction n as [|n IH]; intros s.
  - cbn [conflicts replicate]. rewrite app_nil_r, Z.add_0_r. repeat split.
  - cbn [conflicts]. destruct (IH (conflicted doc s)) as (Hu & Hc & Hs & Hh & Hl & Ho & Hd).
    rewrite Hu, Hc, Hs, Hh, Hl, Ho, Hd.
    cbn [conflicted with_world world log_updated tick_clock updated clock replicate].
    rewrite <- app_assoc. repeat split; lia.
Qed.

Lemma update_answer_conflicts (n : nat) (doc : Document) : forall (s : Machine) (i : nat),
  update_answer (conflicts n doc s) i = update_answer s (n + i)%nat.
Proof.
  induction n as [|n IH]; intros s i; [reflexivity|].
  cbn [conflicts]. rewrite IH, update_answer_conflicted. reflexivity.
Qed.

Lemma apply_run (s s1 : Machine) (doc : Document) :
  to_dict s = (Ok doc, s1) ->
  apply s = sampler_loop 3 1 (Some is_ConflictError) (update doc)
              (fun _ => mret (Some tt)) s1.
Proof. intros H. unfold apply. rewrite bind_run, H. reflexivity. Qed.

(** C6.  [apply] builds the document with [to_dict] and submits it with
    [update], at most three times, one time unit apart.  Conflicts are
    retried: the first update that succeeds ends [apply]; the first update
    that raises anything but [ConflictError] ends it with that exception;
    three conflicts in a row end it with [TimeoutExpiredError].  Every
    attempt submits the same document. *)
Theorem apply_bounded_retry (s s1 : Machine) (doc : Document) :
  to_dict s = (Ok doc, s1) ->
  (forall k, (k < 3)%nat ->
     (forall i, (i < k)%nat -> update_answer s1 i = Some ConflictError) ->
     update_answer s1 k = None ->
     exists s2, apply s = (Ok tt, s2) /\
       updated (world s2) = updated (world s1) ++ replicate (S k) doc /\
       clock (world s2) = clock (world s1) + Z.of_nat k) /\
  (forall k e, (k < 3)%nat ->
     (forall i, (i < k)%nat -> update_answer s1 i = Some ConflictError) ->
     update_answer s1 k = Some e -> e <> ConflictError ->
     exists s2, apply s = (Raise e, s2) /\
       updated (world s2) = updated (world s1) ++ replicate (S k) doc /\
       clock (world s2) = clock (world s1) + Z.of_nat k) /\
  ((forall i, (i < 3)%nat -> update_answer s1 i = Some ConflictError) ->
     exists s2, apply s = (Raise TimeoutExpiredError, s2) /\
       updated (world s2) = updated (world s1) ++ replicate 3 doc /\
       clock (world s2) = clock (world s1) + 3).
Proof.
  intros Hdoc. rewrite (apply_run s s1 doc Hdoc).
  split; [|split].
  - intros k Hk Hconf Hok.
    replace 3%nat with (k + S (2 - k))%nat by lia.
    rewrite apply_loop_conflicts by exact Hconf.
    rewrite apply_loop_step, update_answer_conflicts, Nat.add_0_r, Hok.
    eexists. split; [reflexivity|].
    destruct (conflicts_world k doc s1) as (Hu & Hc & _).
    cbn [with_world world log_updated updated clock]. rewrite Hu, Hc.
    split; [|reflexivity].
    rewrite <- app_assoc. f_equal.
    change (S k) with (1 + k)%nat. rewrite Nat.add_comm, replicate_add. reflexivity.
  - intros k e Hk Hconf He Hne.
    replace 3%nat with (k + S (2 - k))%nat by lia.
    rewrite apply_loop_conflicts by exact Hconf.
    rewrite apply_loop_step, update_answer_conflicts, Nat.add_0_r, He.
    assert (is_ConflictError e = false) as -> by (destruct e; cbn; congruence).
    eexists. split; [reflexivity|].
    destruct (conflicts_world k doc s1) as (Hu & Hc & _).
    cbn [with_world world log_updated updated clock]. rewrite Hu, Hc.
    split; [|reflexivity].
    rewrite <- app_assoc. f_equal.
    change (S k) with (1 + k)%nat. rewrite Nat.add_comm, replicate_add. reflexivity.
  - intros Hconf.
    change 3%nat with (3 + 0)%nat at 1.
    rewrite apply_loop_conflicts by exact Hconf.
    cbn [sampler_loop raise]. eexists. split; [reflexivity|].
    destruct (conflicts_world 3 doc s1) as (Hu & Hc & _).
    rewrite Hu, Hc. split; reflexivity.
Qed.

(** ** [wait_for_status_success] *)

Lemma instance_status_conditions_run (s : Machine) :
  instance_status_conditions s =
  (Ok (conditions_at s 0), with_world tick_conditions_reads s).
Proof.
  unfold instance_status_conditions, conditions_at. rewrite Nat.add_0_r. reflexivity.
Qed.

Lemma status_run (s : Machine) :
  status s = (Ok (reason_at s 0), with_world tick_conditions_reads s).
Proof.
  unfold status. rewrite bind_run, instance_status_conditions_run. reflexivity.
Qed.

Lemma conditions_at_polled_once (s : Machine) (i : nat) :
  conditions_at (polled_once s) i = conditions_at s (S i).
Proof.
  unfold conditions_at. cbn. f_equal. lia.
Qed.

Lemma conditions_at_polled (n : nat) : forall (s : Machine) (i : nat),
  conditions_at (polled n s) i = conditions_at s (n + i)%nat.
Proof.
  induction n as [|n IH]; intros s i; [reflexivity|].
  cbn [polled]. rewrite IH, conditions_at_polled_once. reflexivity.
Qed.

Lemma reason_at_polled (n : nat) (s : Machine) (i : nat) :
  reason_at (polled n s) i = reason_at s (n + i)%nat.
Proof. unfold reason_at. now rewrite conditions_at_polled. Qed.

Lemma polled_world (n : nat) : forall s : Machine,
  clock (world (polled n s)) = clock (world s) + Z.of_nat n /\
  conditions_reads (world (polled n s)) = (conditions_reads (world s) + n)%nat /\
  LOGGER (polled n s) = LOGGER s /\ oracle (polled n s) = oracle s /\
  self (polled n s) = self s /\ heap (polled n s) = heap s /\
  deleted (world (polled n s)) = deleted (world s).
Proof.
  induction n as [|n IH]; intros s.
  - cbn [polled]. rewrite Z.add_0_r, Nat.add_0_r. repeat split.
  - cbn [polled]. destruct (IH (polled_once s)) as (Hc & Hr & Hl & Ho & Hs & Hh & Hd).
    rewrite Hc, Hr, Hl, Ho, Hs, Hh, Hd. cbn. repeat split; lia.
Qed.

(** One step of the loop of [wait_for_conditions]. *)
Lemma conditions_loop_step (polls : nat) (s : Machine) :
  sampler_loop (S polls) 1 None instance_status_conditions seen s =
  match conditions_at s 0 with
  | [] => sampler_loop polls 1 None instance_status_conditions seen (polled_once s)
  | _ => (Ok tt, with_world tick_conditions_reads s)
  end.
Proof.
  cbn [sampler_loop]. rewrite bind_run. unfold attempt.
  rewrite instance_status_conditions_run. cbn beta iota.
  destruct (conditions_at s 0); reflexivity.
Qed.

Lemma conditions_loop_empty (n : nat) : forall (polls : nat) (s : Machine),
  (forall i, (i < n)%nat -> conditions_at s i = []) ->
  sampler_loop (n + polls) 1 None instance_status_conditions seen s =
  sampler_loop polls 1 None instance_status_conditions seen (polled n s).
Proof.
  induction n as [|n IH]; intros polls s Hempty; [reflexivity|].
  cbn [Nat.add polled]. rewrite conditions_loop_step, (Hempty 0%nat) by lia.
  apply IH. intros i Hi. rewrite conditions_at_polled_once. apply Hempty. lia.
Qed.

(** One step of the loop of [wait_for_status_success]. *)
Lemma status_loop_step (polls : nat) (s : Machine) :
  sampler_loop (S polls) 1 None status judge s =
  if bool_decide (reason_at s 0 = Some Conditions.Reason.SUCCESS) then
    (Ok Conditions.Reason.SUCCESS,
     with_LOGGER (fun l => l ++ [INFO "NNCP configured Successfully"])
       (with_world tick_conditions_reads s))
  else if bool_decide (reason_at s 0 = Some Conditions.Reason.FAILED) then
    (Raise (NNCPConfigurationFailed ("Reason: " +:+ Conditions.Reason.FAILED)),
     with_world tick_conditions_reads s)
  else sampler_loop polls 1 None status judge (polled_once s).
Proof.
  cbn [sampler_loop]. rewrite bind_run. unfold attempt. rewrite status_run.
  cbn beta iota. unfold judge.
  destruct (bool_decide (reason_at s 0 = Some Conditions.Reason.SUCCESS)); [reflexivity|].
  destruct (bool_decide (reason_at s 0 = Some Conditions.Reason.FAILED)); reflexivity.
Qed.

Lemma status_loop_pending (n : nat) : forall (polls : nat) (s : Machine),
  (forall i, (i < n)%nat -> ~ terminal (reason_at s i)) ->
  sampler_loop (n + polls) 1 None status judge s =
  sampler_loop polls 1 None status judge (polled n s).
Proof.
  induction n as [|n IH]; intros polls s Hpending; [reflexivity|].
  cbn [Nat.add polled]. rewrite status_loop_step.
  pose proof (Hpending 0%nat ltac:(lia)) as H0. unfold terminal in H0.
  rewrite !bool_decide_eq_false_2 by tauto.
  apply IH. intros i Hi. unfold reason_at. rewrite conditions_at_polled_once.
  apply Hpending. lia.
Qed.

Lemma wait_for_conditions_unfold :
  wait_for_conditions = sampler_loop 30 1 None instance_status_conditions seen.
Proof. reflexivity. Qed.

(** The conditions show up at the read number [j], counted from 0. *)
Lemma wait_for_conditions_found (s : Machine) (j : nat) :
  (j < 30)%nat ->
  (forall i, (i < j)%nat -> conditions_at s i = []) ->
  conditions_at s j <> [] ->
  wait_for_conditions s = (Ok tt, with_world tick_conditions_reads (polled j s)).
Proof.
  intros Hj Hempty Hfound. rewrite wait_for_conditions_unfold.
  replace 30%nat with (j + S (29 - j))%nat by lia.
  rewrite conditions_loop_empty by exact Hempty.
  rewrite conditions_loop_step, conditions_at_polled, Nat.add_0_r.
  destruct (conditions_at s j); [contradiction | reflexivity].
Qed.

Lemma wait_for_conditions_never (s : Machine) :
  (forall i, (i < 30)%nat -> conditions_at s i = []) ->
  wait_for_conditions s = (Raise TimeoutExpiredError, polled 30 s).
Proof.
  intros Hempty. rewrite wait_for_conditions_unfold.
  change 30%nat with (30 + 0)%nat at 1.
  rewrite conditions_loop_empty by exact Hempty. reflexivity.
Qed.

Lemma conditions_at_read (s : Machine) (i : nat) :
  conditions_at (with_world tick_conditions_reads s) i = conditions_at s (S i).
Proof. unfold conditions_at. cbn. f_equal. lia. Qed.

Lemma reason_at_found (s : Machine) (j i : nat) :
  reason_at (with_world tick_conditions_reads (polled j s)) i =
  reason_at s (j + 1 + i)%nat.
Proof.
  unfold reason_at. rewrite conditions_at_read, conditions_at_polled.
  do 3 f_equal. lia.
Qed.

Lemma wait_for_status_success_found (s : Machine) (j : nat) :
  (j < 30)%nat ->
  (forall i, (i < j)%nat -> conditions_at s i = []) ->
  conditions_at s j <> [] ->
  wait_for_status_success s =
  try_except (sampler_loop 30 1 None status judge) unable
    (with_world tick_conditions_reads (polled j s)).
Proof.
  intros Hj Hempty Hfound. unfold wait_for_status_success.
  rewrite bind_run, (wait_for_conditions_found s j Hj Hempty Hfound). reflexivity.
Qed.

(** The second phase, from the state [t] in which the conditions were
    found. *)
Lemma status_phase_success (t : Machine) (k : nat) :
  (k < 30)%nat ->
  (forall i, (i < k)%nat -> ~ terminal (reason_at t i)) ->
  reason_at t k = Some Conditions.Reason.SUCCESS ->
  try_except (sampler_loop 30 1 None status judge) unable t =
  (Ok Conditions.Reason.SUCCESS,
   with_LOGGER (fun l => l ++ [INFO "NNCP configured Successfully"])
     (with_world tick_conditions_reads (polled k t))).
Proof.
  intros Hk Hpending Hsuccess. unfold try_except.
  replace 30%nat with (k + S (29 - k))%nat by lia.
  rewrite status_loop_pending by exact Hpending.
  rewrite status_loop_step, reason_at_polled, Nat.add_0_r, Hsuccess.
  rewrite bool_decide_eq_true_2 by reflexivity. reflexivity.
Qed.

Lemma status_phase_failed (t : Machine) (k : nat) :
  (k < 30)%nat ->
  (forall i, (i < k)%nat -> ~ terminal (reason_at t i)) ->
  reason_at t k = Some Conditions.Reason.FAILED ->
  try_except (sampler_loop 30 1 None status judge) unable t =
  (Raise (NNCPConfigurationFailed "Reason: FailedToConfigure"),
   with_LOGGER (fun l => l ++ [ERROR "Unable to configure NNCP for node"])
     (with_world tick_conditions_reads (polled k t))).
Proof.
  intros Hk Hpending Hfailed. unfold try_except.
  replace 30%nat with (k + S (29 - k))%nat by lia.
  rewrite status_loop_pending by exact Hpending.
  rewrite status_loop_step, reason_at_polled, Nat.add_0_r, Hfailed.
  rewrite bool_decide_eq_false_2 by discriminate.
  rewrite bool_decide_eq_true_2 by reflexivity. reflexivity.
Qed.

(** C2.  [wait_for_status_success] first polls until the conditions list
    is not empty (read number [j]), then polls the reason of the Available
    condition.  When after [k] further samples that are neither the
    success nor the failure reason the next one is
    ["SuccessfullyConfigured"], it returns that reason; when it is
    ["FailedToConfigure"], it raises [NNCPConfigurationFailed] and logs
    the failure.  When the conditions list stays empty for the thirty
    polls of the window, it raises [TimeoutExpiredError] after thirty time
    units. *)
Theorem wait_for_status_success_outcomes (s : Machine) :
  (forall j k,
     (j < 30)%nat -> (k < 30)%nat ->
     (forall i, (i < j)%nat -> conditions_at s i = []) ->
     conditions_at s j <> [] ->
     (forall i, (i < k)%nat -> ~ terminal (reason_at s (j + 1 + i))) ->
     reason_at s (j + 1 + k) = Some Conditions.Reason.SUCCESS ->
     exists s', wait_for_status_success s = (Ok Conditions.Reason.SUCCESS, s') /\
       clock (world s') = clock (world s) + Z.of_nat j + Z.of_nat k /\
       LOGGER s' = LOGGER s ++ [INFO "NNCP configured Successfully"]) /\
  (forall j k,
     (j < 30)%nat -> (k < 30)%nat ->
     (forall i, (i < j)%nat -> conditions_at s i = []) ->
     conditions_at s j <> [] ->
     (forall i, (i < k)%nat -> ~ terminal (reason_at s (j + 1 + i))) ->
     reason_at s (j + 1 + k) = Some Conditions.Reason.FAILED ->
     exists s', wait_for_status_success s =
                  (Raise (NNCPConfigurationFailed "Reason: FailedToConfigure"), s') /\
       clock (world s') = clock (world s) + Z.of_nat j + Z.of_nat k /\
       LOGGER s' = LOGGER s ++ [ERROR "Unable to configure NNCP for node"]) /\
  ((forall i, (i < 30)%nat -> conditions_at s i = []) ->
     exists s', wait_for_status_success s = (Raise TimeoutExpiredError, s') /\
       clock (world s') = clock (world s) + 30 /\
       LOGGER s' = LOGGER s).
Proof.
  split; [|split].
  - intros j k Hj Hk Hempty Hfound Hpending Hsuccess.
    rewrite (wait_for_status_success_found s j Hj Hempty Hfound).
    rewrite (status_phase_success _ k Hk)
      by (try intros i Hi; rewrite reason_at_found; auto).
    eexists. split; [reflexivity|].
    destruct (polled_world k (with_world tick_conditions_reads (polled j s)))
      as (Hc & _ & Hl & _).
    destruct (polled_world j s) as (Hc' & _ & Hl' & _).
    cbn [with_LOGGER with_world world LOGGER tick_conditions_reads clock].
    rewrite Hc, Hl.
    cbn [with_world world LOGGER tick_conditions_reads clock].
    rewrite Hc', Hl'. split; reflexivity.
  - intros j k Hj Hk Hempty Hfound Hpending Hfailed.
    rewrite (wait_for_status_success_found s j Hj Hempty Hfound).
    rewrite (status_phase_failed _ k Hk)
      by (try intros i Hi; rewrite reason_at_found; auto).
    eexists. split; [reflexivity|].
    destruct (polled_world k (with_world tick_conditions_reads (polled j s)))
      as (Hc & _ & Hl & _).
    destruct (polled_world j s) as (Hc' & _ & Hl' & _).
    cbn [with_LOGGER with_world world LOGGER tick_conditions_reads clock].
    rewrite Hc, Hl.
    cbn [with_world world LOGGER tick_conditions_reads clock].
    rewrite Hc', Hl'. split; reflexivity.
  - intros Hempty. unfold wait_for_status_success.
    rewrite bind_run, (wait_for_conditions_never s Hempty).
    eexists. split; [reflexivity|].
    destruct (polled_world 30 s) as (Hc & _ & Hl & _).
    rewrite Hc, Hl. split; reflexivity.
Qed.

(** ** Sound runs *)

Lemma ext_refl (s : Machine) : ext s s.
Proof. split; reflexivity. Qed.

Lemma ext_trans (s1 s2 s3 : Machine) : ext s1 s2 -> ext s2 s3 -> ext s1 s3.
Proof.
  intros [Hd1 Hi1 Ht1 Hh1 Hs1] [Hd2 Hi2 Ht2 Hh2 Hs2].
  split; [congruence | congruence | congruence | lia | lia].
Qed.

Lemma stable_True : stable (fun _ => True).
Proof. intros s s' _ _. exact I. Qed.

Lemma stable_valid (l : loc) : stable (fun s => valid s l).
Proof. intros s s' [_ _ _ Hh _] H. unfold valid in *. lia. Qed.

Lemma stable_Forall_valid (ls : list loc) : stable (fun s => Forall (valid s) ls).
Proof.
  intros s s' Hext H. eapply Forall_impl; [exact H|].
  intros l Hl. exact (stable_valid l s s' Hext Hl).
Qed.

Lemma stable_and (P Q : Machine -> Prop) :
  stable P -> stable Q -> stable (fun s => P s /\ Q s).
Proof. intros HP HQ s s' Hext [H1 H2]. split; eauto. Qed.

Lemma sound_at_weaken {A} (P Q : Prop) (m : M A) (s : Machine) :
  (wf s -> Q -> P) -> sound_at P m s -> sound_at Q m s.
Proof.
  intros HQP (He & Hf & Hw). split; [exact He|]. split; [exact Hf|]. auto.
Qed.

Lemma sound_weaken {A} (P Q : Machine -> Prop) (m : M A) :
  (forall s, Q s -> P s) -> sound_if P m -> sound_if Q m.
Proof. intros HQP Hm s. eapply sound_at_weaken; [|apply Hm]. auto. Qed.

Lemma sound_any {A} (P : Machine -> Prop) (m : M A) : sound m -> sound_if P m.
Proof. apply sound_weaken. auto. Qed.

(** A run that leaves the state alone and returns or raises. *)
Lemma sound_at_still {A} (P : Prop) (m : M A) (s : Machine) (r : Result A) :
  m s = (r, s) -> (forall w, r <> Abort w) -> sound_at P m s.
Proof.
  intros Hm Hr. unfold sound_at. rewrite Hm. cbn [fst snd].
  split; [apply ext_refl|]. split; [apply Hr|].
  intros Hw _. split; [exact Hw | apply Hr].
Qed.

Lemma sound_ret {A} (P : Machine -> Prop) (a : A) : sound_if P (mret a).
Proof. intros s. now apply (sound_at_still _ _ _ (Ok a)). Qed.

Lemma sound_raise {A} (P : Machine -> Prop) (e : Exn) : sound_if P (raise e : M A).
Proof. intros s. now apply (sound_at_still _ _ _ (Raise e)). Qed.

Lemma sound_attr {A} (P : Machine -> Prop) (f : NNCP -> A) : sound_if P (attr f).
Proof. intros s. now apply (sound_at_still _ _ _ (Ok (f (self s)))). Qed.

Lemma sound_get (P : Machine -> Prop) : sound_if P get.
Proof. intros s. now apply (sound_at_still _ _ _ (Ok s)). Qed.

(** The rule for sequencing: the rest of the run may rely on what the
    first part returned and on the state it left. *)
Lemma sound_at_bind {A B} (P : Prop) (m : M A) (f : A -> M B) (s : Machine) :
  sound_at P m s ->
  (forall a s1, m s = (Ok a, s1) -> ext s s1 ->
     exists Q : Prop, sound_at Q (f a) s1 /\ (wf s -> P -> wf s1 -> Q)) ->
  sound_at P (m ≫= f) s.
Proof.
  intros (He & Hfuel & Hw) Hf. unfold sound_at. rewrite bind_run.
  destruct (m s) as [[a|e|w] s1]; cbn [fst snd] in *.
  - destruct (Hf a s1 eq_refl He) as (Q & (He' & Hfuel' & Hw') & HQ).
    split; [eapply ext_trans; eassumption|]. split; [exact Hfuel'|].
    intros Hwf HP. destruct (Hw Hwf HP) as [Hwf1 _]. auto.
  - split; [exact He|]. split; [discriminate|]. intros Hwf HP.
    destruct (Hw Hwf HP) as [Hwf1 _]. split; [exact Hwf1 | discriminate].
  - split; [exact He|]. split; [intros [= ->]; now apply Hfuel|].
    intros Hwf HP. destruct (Hw Hwf HP) as [Hwf1 Hd].
    split; [exact Hwf1 | intros [= ->]; now apply Hd].
Qed.

Lemma sound_bind {A B} (P : Machine -> Prop) (m : M A) (f : A -> M B) :
  stable P -> sound_if P m -> (forall a, sound_if P (f a)) -> sound_if P (m ≫= f).
Proof.
  intros HP Hm Hf s. apply sound_at_bind; [apply Hm|].
  intros a s1 _ Hext. exists (P s1). split; [apply Hf|].
  intros _ HPs _. exact (HP s s1 Hext HPs).
Qed.

(** Reading an attribute and going on with its value. *)
Lemma sound_at_attr_bind {A B} (P : Prop) (g : NNCP -> A) (k : A -> M B) (s : Machine) :
  sound_at P (k (g (self s))) s -> sound_at P (attr g ≫= k) s.
Proof. intros H. exact H. Qed.

Lemma sound_for_each {A} (P : Machine -> Prop) (xs : list A) (body : A -> M unit) :
  stable P -> (forall x, x ∈ xs -> sound_if P (body x)) ->
  sound_if P (for_each xs body).
Proof.
  intros HP. induction xs as [|x xs IH]; intros Hbody.
  - apply sound_ret.
  - cbn [for_each]. apply sound_bind; [exact HP | |].
    + apply Hbody. left.
    + intros _. apply IH. intros y Hy. apply Hbody. now right.
Qed.

Lemma sound_for_fold {A B} (P : Machine -> Prop) (xs : list A) (body : A -> B -> M B) :
  stable P -> (forall x acc, x ∈ xs -> sound_if P (body x acc)) ->
  forall acc, sound_if P (for_fold xs acc body).
Proof.
  intros HP. induction xs as [|x xs IH]; intros Hbody acc.
  - apply sound_ret.
  - cbn [for_fold]. apply sound_bind; [exact HP | |].
    + apply Hbody. left.
    + intros acc'. apply IH. intros y acc'' Hy. apply Hbody. now right.
Qed.

Lemma sound_try_except {A} (P : Machine -> Prop) (m : M A) (h : Exn -> M A) :
  stable P -> sound_if P m -> (forall e, sound_if P (h e)) ->
  sound_if P (try_except m h).
Proof.
  intros HP Hm Hh s. unfold sound_at, try_except. destruct (Hm s) as (He & Hfuel & Hw).
  destruct (m s) as [[a|e|w] s1]; cbn [fst snd] in *.
  - split; [exact He|]. split; [discriminate|]. exact Hw.
  - destruct (Hh e s1) as (He' & Hfuel' & Hw').
    split; [eapply ext_trans; eassumption|]. split; [exact Hfuel'|].
    intros Hwf HPs. destruct (Hw Hwf HPs) as [Hwf1 _].
    apply Hw'; [exact Hwf1 | eapply HP; eassumption].
  - split; [exact He|]. split; [exact Hfuel|]. exact Hw.
Qed.

Lemma sound_attempt {A} (P : Machine -> Prop) (m : M A) :
  sound_if P m -> sound_if P (attempt m).
Proof.
  intros Hm s. unfold sound_at, attempt. destruct (Hm s) as (He & Hfuel & Hw).
  destruct (m s) as [[a|e|w] s1]; cbn [fst snd] in *.
  - split; [exact He|]. split; [discriminate|]. intros Hwf HPs.
    destruct (Hw Hwf HPs) as [Hwf1 _]. split; [exact Hwf1 | discriminate].
  - split; [exact He|]. split; [discriminate|]. intros Hwf HPs.
    destruct (Hw Hwf HPs) as [Hwf1 _]. split; [exact Hwf1 | discriminate].
  - split; [exact He|]. split; [intros [= ->]; now apply Hfuel|].
    intros Hwf HPs. destruct (Hw Hwf HPs) as [Hwf1 Hd].
    split; [exact Hwf1 | intros [= ->]; now apply Hd].
Qed.

(** A change of the state that stays within [ext] and keeps well-formed
    states well-formed. *)
Lemma sound_at_modify (P : Prop) (f : Machine -> Machine) (s : Machine) :
  ext s (f s) -> (wf s -> P -> wf (f s)) -> sound_at P (modify f) s.
Proof.
  intros He Hw. unfold sound_at. cbn. split; [apply He|]. split; [discriminate|].
  intros Hwf HPs. split; [auto | discriminate].
Qed.

Lemma wf_same (s s' : Machine) :
  self s' = self s -> length (heap s') = length (heap s) -> wf s -> wf s'.
Proof.
  intros Hs Hh (H1 & H2 & H3). unfold wf, valid in *. rewrite Hs, Hh. auto.
Qed.

Lemma ext_same (s s' : Machine) :
  self s' = self s -> length (heap s') = length (heap s) ->
  deleted (world s') = deleted (world s) -> ext s s'.
Proof.
  intros Hs Hh Hd. split; unfold slack; rewrite ?Hs, ?Hh; auto.
Qed.

Lemma sound_with_LOGGER (P : Machine -> Prop) (f : list LogRecord -> list LogRecord) :
  sound_if P (modify (with_LOGGER f)).
Proof.
  intros s. apply sound_at_modify.
  - now apply ext_same.
  - intros Hwf _. now apply (wf_same s).
Qed.

Lemma sound_with_world (P : Machine -> Prop) (f : World -> World) :
  (forall w, deleted (f w) = deleted w) ->
  sound_if P (modify (with_world f)).
Proof.
  intros Hf s. apply sound_at_modify.
  - apply ext_same; [reflexivity | reflexivity | apply Hf].
  - intros Hwf _. now apply (wf_same s).
Qed.

Lemma sound_answer (P : Machine -> Prop) (r : option Exn) : sound_if P (answer r).
Proof. destruct r; [apply sound_raise | apply sound_ret]. Qed.

Lemma sound_answer_with {A} (P : Machine -> Prop) (r : A + Exn) :
  sound_if P (answer_with r).
Proof. destruct r; [apply sound_ret | apply sound_raise]. Qed.

Create HintDb sound discriminated.
#[local] Hint Resolve stable_True stable_valid stable_Forall_valid stable_and : sound.

(** Peel one constructor off a run built from the combinators. *)
Ltac sound_step :=
  lazymatch goal with
  | |- sound_if _ (mret _) => apply sound_ret
  | |- sound_if _ (raise _) => apply sound_raise
  | |- sound_if _ (attr _) => apply sound_attr
  | |- sound_if _ get => apply sound_get
  | |- sound_if _ (answer _) => apply sound_answer
  | |- sound_if _ (answer_with _) => apply sound_answer_with
  | |- sound_if _ (modify (with_LOGGER _)) => apply sound_with_LOGGER
  | |- sound_if _ (modify (with_world _)) =>
      apply sound_with_world; intros ?; reflexivity
  | |- sound_if _ (_ ≫= _) =>
      apply sound_bind; [solve [auto with sound] | | intros ?]
  | |- sound_if _ (try_except _ _) =>
      apply sound_try_except; [solve [auto with sound] | | intros ?]
  | |- sound_if _ (attempt _) => apply sound_attempt
  | |- sound_if _ (for_each _ _) =>
      apply sound_for_each; [solve [auto with sound] | intros ? ?]
  | |- sound_if _ (for_fold _ _ _) =>
      apply sound_for_fold; [solve [auto with sound] | intros ? ? ?]
  | |- sound_if _ (match ?x with _ => _ end) => destruct x
  | |- sound_if _ (if ?x then _ else _) => destruct x
  | |- sound_if _ _ =>
      first [ solve [auto with sound] | apply sound_any; solve [auto with sound] ]
  end.

Ltac sound_steps := repeat sound_step.

Lemma sound_LOGGER_info (msg : string) : sound (LOGGER_info msg).
Proof. apply sound_with_LOGGER. Qed.

Lemma sound_LOGGER_error (msg : string) : sound (LOGGER_error msg).
Proof. apply sound_with_LOGGER. Qed.

Lemma sound_LOGGER_error_exc (e : Exn) : sound (LOGGER_error_exc e).
Proof. apply sound_with_LOGGER. Qed.

Lemma sound_time_sleep (d : Z) : sound (time_sleep d).
Proof. unfold time_sleep, sound. sound_steps. Qed.

Lemma sound_instance_status_conditions : sound instance_status_conditions.
Proof. unfold instance_status_conditions, sound. sound_steps. Qed.

Lemma sound_update (doc : Document) : sound (update doc).
Proof. unfold update, sound. sound_steps. Qed.

Lemma sound_create (doc : Document) : sound (create doc).
Proof. unfold create, sound. sound_steps. Qed.

Lemma sound_currentState_interfaces (node : string) :
  sound (currentState_interfaces node).
Proof. unfold currentState_interfaces, sound. sound_steps. Qed.

Lemma sound_wait_until_deleted (node n : string) : sound (wait_until_deleted node n).
Proof. unfold wait_until_deleted, sound. sound_steps. Qed.

Lemma sound_wait_until_up (node n : string) : sound (wait_until_up node n).
Proof. unfold wait_until_up, sound. sound_steps. Qed.

Lemma sound_execute (node port : string) : sound (execute node port).
Proof. unfold execute, sound. sound_steps. Qed.

Lemma sound_iter_worker_pods : sound iter_worker_pods.
Proof. unfold iter_worker_pods, sound. sound_steps. Qed.

#[local] Hint Resolve sound_LOGGER_info sound_LOGGER_error sound_LOGGER_error_exc
  sound_time_sleep sound_instance_status_conditions sound_update sound_create
  sound_currentState_interfaces sound_wait_until_deleted sound_wait_until_up
  sound_execute sound_iter_worker_pods : sound.

Lemma sound_sampler_loop {A R} (P : Machine -> Prop) (polls : nat) (sleep : Z)
    (exceptions : option (Exn -> bool)) (func : M A) (body : A -> M (option R)) :
  stable P -> sound_if P func -> (forall a, sound_if P (body a)) ->
  sound_if P (sampler_loop polls sleep exceptions func body).
Proof.
  intros HP Hfunc Hbody. induction polls as [|polls IH]; cbn [sampler_loop].
  - apply sound_raise.
  - assert (Hnext : sound_if P
      (time_sleep sleep;; sampler_loop polls sleep exceptions func body)).
    { apply sound_bind;
        [exact HP | apply sound_any, sound_time_sleep | intros _; exact IH]. }
    apply sound_bind; [exact HP | now apply sound_attempt |].
    intros [a|e].
    + apply sound_bind; [exact HP | apply Hbody |].
      intros [v|]; [apply sound_ret | exact Hnext].
    + destruct (match exceptions with Some retried => retried e | None => true end);
        [exact Hnext | apply sound_raise].
Qed.

(** References *)

Lemma sound_deref (l : loc) : sound_if (fun s => valid s l) (deref l).
Proof.
  intros s. unfold sound_at. rewrite deref_run.
  destruct (heap s !! l) as [d|] eqn:Hl; cbn [fst snd].
  - split; [apply ext_refl|]. split; [discriminate|]. intros Hw _.
    split; [exact Hw | discriminate].
  - split; [apply ext_refl|]. split; [discriminate|]. intros Hw Hv.
    apply lookup_ge_None in Hl. unfold valid in Hv. lia.
Qed.

Lemma sound_getitem_name (l : loc) : sound_if (fun s => valid s l) (getitem_name l).
Proof.
  unfold getitem_name. apply sound_bind; [auto with sound | apply sound_deref |].
  intros d. sound_steps.
Qed.

Lemma sound_setitem (l : loc) (f : Iface.dict -> Iface.dict) :
  sound_if (fun s => valid s l) (setitem l f).
Proof.
  unfold setitem. apply sound_bind; [auto with sound | apply sound_deref |].
  intros d s. apply sound_at_modify.
  - apply ext_same; cbn [with_heap self heap world]; [reflexivity | | reflexivity].
    apply length_insert.
  - intros Hwf _. apply (wf_same s); [reflexivity | apply length_insert | exact Hwf].
Qed.

Lemma wf_grow (s s' : Machine) :
  self s' = self s -> (length (heap s) <= length (heap s'))%nat -> wf s -> wf s'.
Proof.
  intros Hs Hh (H1 & H2 & H3). unfold wf. rewrite Hs.
  assert (Hv : forall l, valid s l -> valid s' l) by (unfold valid; intros; lia).
  split; [eapply Forall_impl; eauto|]. split; [eapply Forall_impl; eauto | auto].
Qed.

Lemma sound_alloc (P : Machine -> Prop) (d : Iface.dict) : sound_if P (alloc d).
Proof.
  intros s. unfold sound_at, alloc. cbn [fst snd].
  assert (Hlen : (length (heap s) <= length (heap (with_heap (fun h => h ++ [d]) s)))%nat).
  { cbn [with_heap heap]. rewrite length_app. lia. }
  split.
  - split; try reflexivity. exact Hlen.
  - split; [discriminate|]. intros Hwf _. split; [|discriminate].
    now apply (wf_grow s).
Qed.

Lemma alloc_run (d : Iface.dict) (s : Machine) :
  alloc d s = (Ok (length (heap s)), with_heap (fun h => h ++ [d]) s).
Proof. reflexivity. Qed.

Lemma sound_keep_other (x : loc) (ds : list loc) (acc : list loc) :
  sound_if (fun s => valid s x /\ Forall (valid s) ds)
    (for_fold ds acc (keep_other x)).
Proof.
  apply sound_for_fold; [auto with sound|]. intros i acc' Hi.
  unfold keep_other. apply sound_bind; [auto with sound | |].
  - eapply sound_weaken; [|apply (sound_getitem_name i)].
    intros s [_ Hall]. rewrite Forall_forall in Hall. auto.
  - intros ni. apply sound_bind; [auto with sound | |].
    + eapply sound_weaken; [|apply (sound_getitem_name x)]. now intros s [Hx _].
    + intros nx. apply sound_ret.
Qed.

Lemma ext_inserted (x : loc) (s : Machine) : ext s (inserted x s).
Proof. split; reflexivity. Qed.

Lemma wf_inserted (x : loc) (s : Machine) : wf s -> valid s x -> wf (inserted x s).
Proof.
  intros (H1 & H2 & H3) Hx. split; [|split; [exact H2 | exact H3]].
  cbn [inserted with_self self set_desired_state desired_state].
  apply Forall_app. split.
  - apply Forall_forall. intros i [_ Hi]%list_elem_of_filter.
    rewrite Forall_forall in H1. exact (H1 i Hi).
  - apply Forall_cons. split; [exact Hx | constructor].
Qed.

Lemma sound_set_interface (x : loc) : sound_if (fun s => valid s x) (set_interface x).
Proof.
  intros s. unfold set_interface. apply sound_at_attr_bind.
  apply sound_at_bind.
  - eapply sound_at_weaken; [|apply (sound_keep_other x (desired_state (self s)) [])].
    intros (H1 & _) Hx. split; [exact Hx | exact H1].
  - intros v s1 Hrun _.
    destruct (keep_other_run x (desired_state (self s)) [] s) as (r & Hr & Hv & _).
    rewrite Hr in Hrun. injection Hrun as -> <-. rewrite (Hv v eq_refl). cbn [app].
    exists (valid s x). split; [|auto].
    apply sound_at_modify; [apply ext_inserted | apply wf_inserted].
Qed.

Lemma sound_alloc_set_interface (d : Iface.dict) :
  sound (interface ← alloc d; set_interface interface).
Proof.
  intros s. apply sound_at_bind; [apply (sound_alloc (fun _ => True) d s)|].
  intros l s1 Hrun _. rewrite alloc_run in Hrun. injection Hrun as <- <-.
  eexists. split; [apply (sound_set_interface (length (heap s)))|].
  intros _ _ _. unfold valid. cbn [with_heap heap]. rewrite length_app. cbn. lia.
Qed.

Lemma sound_in_ifaces (l : loc) : sound_if (fun s => valid s l) (in_ifaces l).
Proof.
  intros s. unfold in_ifaces. apply sound_at_attr_bind.
  eapply sound_at_weaken;
    [|apply (sound_bind (fun s' => valid s' l /\ Forall (valid s') (ifaces (self s))))].
  - intros (_ & H2 & _) Hl. split; [exact Hl | exact H2].
  - auto with sound.
  - eapply sound_weaken; [|apply sound_deref]. now intros s' [Hl _].
  - intros d. apply sound_for_fold; [auto with sound|]. intros x found Hx.
    destruct found; [apply sound_ret|]. destruct (Nat.eqb x l); [apply sound_ret|].
    apply sound_bind; [auto with sound | | intros dx; apply sound_ret].
    eapply sound_weaken; [|apply (sound_deref x)].
    intros s' [_ Hall]. rewrite Forall_forall in Hall. auto.
Qed.

(** [x in self.ifaces] is true when [x] itself is in the list. *)
Lemma in_ifaces_false (l : loc) (s s' : Machine) :
  in_ifaces l s = (Ok false, s') -> l ∉ ifaces (self s).
Proof.
  unfold in_ifaces. rewrite bind_run. cbn [attr]. rewrite bind_run, deref_run.
  destruct (heap s !! l) as [d|]; [|discriminate].
  assert (Hgen : forall (xs : list loc) (found : bool) s0 s1,
    for_fold xs found (fun x (found : bool) =>
      if found then mret true
      else if Nat.eqb x l then mret true
      else dx ← deref x; mret (bool_decide (dx = d))) s0 = (Ok false, s1) ->
    found = false /\ l ∉ xs).
  { induction xs as [|x xs IH]; intros found s0 s1.
    - cbn. intros [= -> _]. split; [reflexivity | apply not_elem_of_nil].
    - cbn [for_fold]. rewrite bind_run. destruct found.
      + cbn [mret M_ret]. intros H. apply IH in H as [? _]. discriminate.
      + destruct (Nat.eqb_spec x l) as [->|Hne].
        * cbn [mret M_ret]. intros H. apply IH in H as [? _]. discriminate.
        * rewrite bind_run, deref_run. destruct (heap s0 !! x); [|discriminate].
          cbn [mret M_ret]. intros H. apply IH in H as [_ Hxs].
          split; [reflexivity|]. rewrite not_elem_of_cons. split; [congruence | exact Hxs]. }
  intros H. apply Hgen in H as [_ H]. exact H.
Qed.

(** Sequencing when the rest of the run needs to know where it starts. *)
Lemma sound_at_seq {A B} (P : Machine -> Prop) (m : M A) (f : A -> M B) (s : Machine) :
  stable P -> sound_if P m ->
  (forall a s1, ext s s1 -> sound_at (P s1) (f a) s1) ->
  sound_at (P s) (m ≫= f) s.
Proof.
  intros HP Hm Hf. apply sound_at_bind; [apply Hm|].
  intros a s1 _ Hext. exists (P s1). split; [now apply Hf|].
  intros _ HPs _. exact (HP s s1 Hext HPs).
Qed.

(** Line 117 of [to_dict], for the primary interface [l]. *)
Lemma sound_at_remember (l : loc) (s s' : Machine) (known : bool) :
  iface (self s) = Some l ->
  in_ifaces l s = (Ok known, s') ->
  sound_at (valid s l)
    (if known then mret tt
     else modify (with_self (fun o => set_ifaces (ifaces o ++ [l]) o))) s.
Proof.
  intros Hl Hrun.
  destruct known; [now apply (sound_at_still _ _ _ (Ok tt))|].
  apply in_ifaces_false in Hrun.
  unfold sound_at. cbn [modify fst snd]. split; [|split; [discriminate|]].
  - split; try reflexivity. unfold slack.
    cbn [with_self self set_ifaces ifaces iface]. rewrite Hl, length_app. cbn [length].
    rewrite bool_decide_eq_true_2 by (apply elem_of_app; right; left).
    rewrite bool_decide_eq_false_2 by exact Hrun. lia.
  - intros (H1 & H2 & H3) Hv. split; [|discriminate].
    split; [exact H1|]. split; [|exact H3].
    cbn [with_self self set_ifaces ifaces].
    apply Forall_app. split; [exact H2|]. apply Forall_cons. split; [exact Hv | constructor].
Qed.

Lemma sound_contents (ls : list loc) :
  sound_if (fun s => Forall (valid s) ls) (contents ls).
Proof.
  unfold contents. apply sound_for_fold; [auto with sound|]. intros l acc Hl.
  apply sound_bind; [auto with sound | | intros d; apply sound_ret].
  eapply sound_weaken; [|apply (sound_deref l)].
  intros s Hall. rewrite Forall_forall in Hall. auto.
Qed.

Lemma sound_to_dict : sound to_dict.
Proof.
  intros s. unfold to_dict. do 2 apply sound_at_attr_bind.
  destruct (_node_selector (self s)) as [sel|];
    [|now apply (sound_at_still _ _ _ (Raise (AttributeError "_node_selector")))].
  unfold ipv4_dhcp. do 3 apply sound_at_attr_bind.
  destruct (iface (self s)) as [l|] eqn:Hl;
    [|now apply (sound_at_still _ _ _ (Raise TypeError))].
  eapply sound_at_weaken with (P := valid s l).
  { intros (_ & _ & H3) _. auto. }
  apply (sound_at_seq (fun s' => valid s' l)); [auto with sound | apply sound_setitem|].
  intros _ s1 Hext1. apply sound_at_attr_bind.
  apply (sound_at_seq (fun s' => valid s' l)); [auto with sound | |].
  { destruct (ipv4_addresses (self s1)); [apply sound_ret | apply sound_setitem]. }
  intros _ s2 Hext2. apply sound_at_attr_bind.
  apply (sound_at_seq (fun s' => valid s' l)); [auto with sound | apply sound_setitem|].
  intros _ s3 Hext3.
  apply (sound_at_seq (fun s' => valid s' l)); [auto with sound | apply sound_set_interface|].
  intros _ s4 Hext4.
  assert (Hl4 : iface (self s4) = Some l).
  { rewrite (ext_iface _ _ Hext4), (ext_iface _ _ Hext3), (ext_iface _ _ Hext2),
      (ext_iface _ _ Hext1). exact Hl. }
  apply sound_at_bind; [apply sound_in_ifaces|].
  intros known s5 Hknown _.
  pose proof (in_ifaces_state l s4) as Hs5. rewrite Hknown in Hs5. cbn in Hs5. subst s5.
  exists (valid s4 l). split; [|auto].
  apply sound_at_bind; [now apply (sound_at_remember l s4 s4)|].
  intros _ s5 _ Hext5. exists (wf s5). split; [|auto].
  apply sound_at_attr_bind.
  apply sound_at_bind.
  - eapply sound_at_weaken; [|apply sound_contents]. intros (H1 & _) _. exact H1.
  - intros entries s6 _ _. exists True. split; [|auto].
    now eapply (sound_at_still _ _ _ (Ok _)).
Qed.

Lemma sound_apply : sound apply.
Proof.
  unfold apply, TimeoutSampler. apply sound_bind; [auto with sound | apply sound_to_dict|].
  intros resource. apply sound_sampler_loop; [auto with sound | apply sound_update|].
  intros _. apply sound_ret.
Qed.

#[local] Hint Resolve sound_to_dict sound_apply : sound.

(** A loop over [self.ifaces] whose body does not change the list. *)
Lemma sound_over_ifaces (body : loc -> M unit) :
  (forall x, sound_if (fun s => valid s x) (body x)) ->
  sound (ifs ← attr ifaces; for_each ifs body).
Proof.
  intros Hbody s. apply sound_at_attr_bind.
  eapply sound_at_weaken;
    [|apply (sound_for_each (fun s' => Forall (valid s') (ifaces (self s))))].
  - intros (_ & H2 & _) _. exact H2.
  - auto with sound.
  - intros x Hx. eapply sound_weaken; [|apply Hbody].
    intros s' Hall. rewrite Forall_forall in Hall. auto.
Qed.

Lemma sound_ipv4_flags (interface : ObservedIface) : sound (ipv4_flags interface).
Proof.
  unfold ipv4_flags, sound. destruct (o_ipv4 interface) as [v|]; [|apply sound_raise].
  destruct (o_dhcp v); [|apply sound_raise].
  destruct (o_enabled v); [apply sound_ret | apply sound_raise].
Qed.

Lemma sound_update_node (node port : string) (flags : Ipv4.dict)
    (table : list (string * list (string * Ipv4.dict))) :
  sound (update_node node port flags table).
Proof.
  unfold update_node, sound. destruct (dict_get node table);
    [apply sound_ret | apply sound_raise].
Qed.

#[local] Hint Resolve sound_ipv4_flags sound_update_node sound_alloc_set_interface : sound.

Lemma sound_with_self_table (f : NNCP -> NNCP) :
  (forall o, desired_state (f o) = desired_state o) ->
  (forall o, ifaces (f o) = ifaces o) ->
  (forall o, iface (f o) = iface o) ->
  (forall o, teardown (f o) = teardown o) ->
  sound (modify (with_self f)).
Proof.
  intros Hd Hifs Hi Ht s. apply sound_at_modify.
  - split; cbn [with_self self heap world]; unfold slack; cbn [with_self self];
      rewrite ?Hifs, ?Hi, ?Ht; reflexivity.
  - intros (H1 & H2 & H3) _. unfold wf, valid. cbn [with_self self heap].
    rewrite Hd, Hifs, Hi. auto.
Qed.

Lemma sound__ipv4_state_backup : sound _ipv4_state_backup.
Proof.
  unfold _ipv4_state_backup, sound.
  apply sound_bind; [auto with sound | apply sound_iter_worker_pods|]. intros pods.
  apply sound_for_each; [auto with sound|]. intros pod _.
  apply sound_bind; [auto with sound | now apply sound_with_self_table|]. intros _.
  apply sound_bind; [auto with sound | apply sound_currentState_interfaces|].
  intros observed. apply sound_for_each; [auto with sound|]. intros interface _.
  apply sound_bind; [auto with sound | apply sound_attr|]. intros ps.
  destruct (str_in (o_name interface) ps); [|apply sound_ret].
  apply sound_bind; [auto with sound | apply sound_attr|]. intros table.
  apply sound_bind; [auto with sound | apply sound_ipv4_flags|]. intros flags.
  apply sound_bind; [auto with sound | apply sound_update_node|]. intros table'.
  now apply sound_with_self_table.
Qed.

Lemma sound_restore_dhcp : sound restore_dhcp.
Proof.
  unfold restore_dhcp, sound.
  apply sound_bind; [auto with sound | apply sound_iter_worker_pods|]. intros pods.
  apply sound_bind; [auto with sound | |].
  - apply sound_for_fold; [auto with sound|]. intros pod temp _.
    apply sound_bind; [auto with sound | apply sound_currentState_interfaces|].
    intros observed. apply sound_for_fold; [auto with sound|]. intros interface temp' _.
    unfold compare_flags.
    apply sound_bind; [auto with sound | apply sound_attr|]. intros ps.
    destruct (str_in (o_name interface) ps); [|apply sound_ret].
    apply sound_bind; [auto with sound | apply sound_ipv4_flags|]. intros x.
    apply sound_bind; [auto with sound | apply sound_attr|]. intros table.
    destruct (dict_get (node_name pod) table) as [saved_node|]; [|apply sound_raise].
    destruct (dict_get (o_name interface) saved_node) as [saved|]; [|apply sound_raise].
    destruct (bool_decide (saved ≠ x)); [apply sound_update_node | apply sound_ret].
  - intros [|[node previous_state] rest]; [apply sound_raise|].
    apply sound_for_each; [auto with sound|]. intros [iface_name ipv4] _.
    apply sound_alloc_set_interface.
Qed.

Lemma sound_absent_all : sound absent_all.
Proof.
  unfold absent_all. apply sound_over_ifaces. intros bridge. unfold absent_one.
  apply sound_bind; [auto with sound | apply sound_setitem|]. intros _.
  apply sound_bind; [auto with sound | apply sound_set_interface|]. intros _.
  apply sound_bind; [auto with sound | apply sound_attr|]. intros dh.
  destruct dh; [apply sound_any, sound_restore_dhcp | apply sound_ret].
Qed.

Lemma sound__absent_interface : sound _absent_interface.
Proof.
  unfold _absent_interface.
  apply sound_bind; [auto with sound | apply sound_absent_all | intros _; apply sound_apply].
Qed.

Lemma sound_wait_for_interface_deleted : sound wait_for_interface_deleted.
Proof.
  unfold wait_for_interface_deleted.
  apply sound_bind; [auto with sound | apply sound_iter_worker_pods|]. intros pods.
  apply sound_for_each; [auto with sound|]. intros pod _.
  apply sound_over_ifaces. intros iface.
  apply sound_bind; [auto with sound | apply sound_getitem_name|]. intros n.
  apply sound_any, sound_wait_until_deleted.
Qed.

Lemma sound_validate_create : sound validate_create.
Proof.
  unfold validate_create.
  apply sound_bind; [auto with sound | apply sound_iter_worker_pods|]. intros pods.
  apply sound_for_each; [auto with sound|]. intros pod _.
  apply sound_over_ifaces. intros bridge.
  apply sound_bind; [auto with sound | apply sound_getitem_name|]. intros n.
  apply sound_any, sound_wait_until_up.
Qed.

Lemma sound_clean_up_iface (iface : loc) :
  sound_if (fun s => valid s iface) (clean_up_iface iface).
Proof.
  unfold clean_up_iface.
  apply sound_bind; [auto with sound | apply sound_getitem_name|]. intros n.
  apply sound_bind; [auto with sound | apply sound_attr|]. intros nics.
  destruct (str_in n nics); [apply sound_ret|].
  apply sound_any, sound_try_except; [auto with sound | |].
  - apply sound_bind; [auto with sound | apply sound__absent_interface|].
    intros _. apply sound_wait_for_interface_deleted.
  - intros e. destruct e; try apply sound_raise. apply sound_LOGGER_error_exc.
Qed.

Lemma sound_restore_mtu : sound restore_mtu.
Proof.
  unfold restore_mtu, sound.
  apply sound_bind; [auto with sound | apply sound_attr|]. intros m.
  destruct (truthy_int m); [|apply sound_ret].
  apply sound_bind; [auto with sound | apply sound_attr|]. intros ps.
  apply sound_for_each; [auto with sound|]. intros port _.
  apply sound_bind; [auto with sound | apply sound_attr|]. intros backup.
  destruct (dict_get port backup) as [raw|]; [|apply sound_raise].
  destruct (int raw) as [v|]; [|apply sound_raise].
  apply sound_alloc_set_interface.
Qed.

(** ** [clean_up] *)

Lemma length_ifaces_slack (s : Machine) : (length (ifaces (self s)) <= slack s)%nat.
Proof. unfold slack. lia. Qed.

Lemma for_ifaces_unfold (fuel i : nat) (body : loc -> M unit) (s : Machine) :
  for_ifaces fuel i body s =
  match ifaces (self s) !! i with
  | None => (Ok tt, s)
  | Some l =>
      match fuel with
      | O => (Abort FuelExhausted, s)
      | S fuel' => (body l;; for_ifaces fuel' (S i) body) s
      end
  end.
Proof.
  destruct fuel; cbn [for_ifaces]; rewrite bind_run; cbn [attr];
    destruct (ifaces (self s) !! i); reflexivity.
Qed.

(** The loop of [clean_up] has fuel to spare when it starts with one
    step more than the list is long. *)
Lemma sound_for_ifaces (fuel : nat) : forall (i : nat) (s : Machine),
  (slack s <= i + fuel)%nat ->
  sound_at True (for_ifaces fuel i clean_up_iface) s.
Proof.
  induction fuel as [|fuel IH]; intros i s Hslack.
  - unfold sound_at. rewrite for_ifaces_unfold.
    destruct (ifaces (self s) !! i) as [l|] eqn:Hl.
    + apply lookup_lt_Some in Hl. pose proof (length_ifaces_slack s). lia.
    + cbn [fst snd]. split; [apply ext_refl|]. split; [discriminate|].
      intros Hw _. split; [exact Hw | discriminate].
  - destruct (ifaces (self s) !! i) as [l|] eqn:Hl.
    + assert (Hrun : for_ifaces (S fuel) i clean_up_iface s =
                     (clean_up_iface l;; for_ifaces fuel (S i) clean_up_iface) s)
        by (rewrite for_ifaces_unfold, Hl; reflexivity).
      unfold sound_at. rewrite Hrun. apply sound_at_bind.
      * eapply sound_at_weaken; [|apply sound_clean_up_iface].
        intros (_ & H2 & _) _. rewrite Forall_forall in H2. apply H2.
        apply list_elem_of_lookup. eauto.
      * intros _ s1 _ Hext. exists True. split; [|auto].
        apply IH. pose proof (ext_slack _ _ Hext). lia.
    + unfold sound_at. rewrite for_ifaces_unfold, Hl. cbn [fst snd].
      split; [apply ext_refl|]. split; [discriminate|].
      intros Hw _. split; [exact Hw | discriminate].
Qed.

Lemma nto_ret {A} (a : A) : never_times_out (mret a : M A).
Proof. intros s. discriminate. Qed.

Lemma nto_raise {A} (e : Exn) :
  e <> TimeoutExpiredError -> never_times_out (raise e : M A).
Proof. intros He s. cbn. congruence. Qed.

Lemma nto_attr {A} (f : NNCP -> A) : never_times_out (attr f).
Proof. intros s. discriminate. Qed.

Lemma nto_modify (f : Machine -> Machine) : never_times_out (modify f).
Proof. intros s. discriminate. Qed.

Lemma nto_bind {A B} (m : M A) (f : A -> M B) :
  never_times_out m -> (forall a, never_times_out (f a)) -> never_times_out (m ≫= f).
Proof.
  intros Hm Hf s. rewrite bind_run. specialize (Hm s).
  destruct (m s) as [[a|e|w] s1]; cbn [fst] in *.
  - apply Hf.
  - congruence.
  - discriminate.
Qed.

Lemma nto_for_each {A} (xs : list A) (body : A -> M unit) :
  (forall x, never_times_out (body x)) -> never_times_out (for_each xs body).
Proof.
  intros Hbody. induction xs as [|x xs IH]; [apply nto_ret|].
  cbn [for_each]. apply nto_bind; [apply Hbody | intros _; exact IH].
Qed.

Lemma nto_for_fold {A B} (xs : list A) (body : A -> B -> M B) :
  (forall x acc, never_times_out (body x acc)) ->
  forall acc, never_times_out (for_fold xs acc body).
Proof.
  intros Hbody. induction xs as [|x xs IH]; intros acc; [apply nto_ret|].
  cbn [for_fold]. apply nto_bind; [apply Hbody | intros acc'; apply IH].
Qed.

Lemma nto_getitem_name (l : loc) : never_times_out (getitem_name l).
Proof.
  intros s. rewrite getitem_name_run. destruct (heap s !! l) as [d|]; [|discriminate].
  destruct (Iface.name d); discriminate.
Qed.

Lemma nto_set_interface (x : loc) : never_times_out (set_interface x).
Proof.
  unfold set_interface. apply nto_bind; [apply nto_attr|]. intros ds.
  apply nto_bind; [|intros v; apply nto_modify].
  apply nto_for_fold. intros i acc. unfold keep_other.
  apply nto_bind; [apply nto_getitem_name|]. intros ni.
  apply nto_bind; [apply nto_getitem_name|]. intros nx. apply nto_ret.
Qed.

Lemma nto_restore_mtu : never_times_out restore_mtu.
Proof.
  unfold restore_mtu. apply nto_bind; [apply nto_attr|]. intros m.
  destruct (truthy_int m); [|apply nto_ret].
  apply nto_bind; [apply nto_attr|]. intros ps.
  apply nto_for_each. intros port.
  apply nto_bind; [apply nto_attr|]. intros backup.
  destruct (dict_get port backup) as [raw|]; [|now apply nto_raise].
  destruct (int raw) as [v|]; [|now apply nto_raise].
  apply nto_bind; [|intros l; apply nto_set_interface].
  intros s. discriminate.
Qed.

(** The [except TimeoutExpiredError] clause turns a timeout of the
    [try] block into a log record. *)
Lemma nto_clean_up_iface (iface : loc) : never_times_out (clean_up_iface iface).
Proof.
  unfold clean_up_iface. apply nto_bind; [apply nto_getitem_name|]. intros n.
  apply nto_bind; [apply nto_attr|]. intros nics.
  destruct (str_in n nics); [apply nto_ret|].
  intros s. unfold try_except.
  destruct ((_absent_interface;; wait_for_interface_deleted) s) as [[[]|e|w] s1];
    cbn [fst]; try discriminate.
  destruct e; cbn; congruence.
Qed.

Lemma nto_for_ifaces (fuel : nat) : forall i : nat,
  never_times_out (for_ifaces fuel i clean_up_iface).
Proof.
  induction fuel as [|fuel IH]; intros i s; rewrite for_ifaces_unfold;
    destruct (ifaces (self s) !! i) as [l|]; try discriminate.
  apply nto_bind; [apply nto_clean_up_iface | intros _; apply IH].
Qed.

Lemma delete_run (s : Machine) :
  delete s =
  (match delete_feed (oracle s) (deleted (world s)) with
   | None => Ok tt
   | Some e => Raise e
   end, with_world tick_deleted s).
Proof.
  unfold delete. rewrite bind_run. cbn [get]. rewrite bind_run. cbn [modify].
  destruct (delete_feed (oracle s) (deleted (world s))); reflexivity.
Qed.

Lemma clean_up_iface_logs_timeout (s s1 : Machine) (iface : loc) (n : string) :
  name_of s iface = Some n ->
  str_in n (node_active_nics (self s)) = false ->
  (_absent_interface;; wait_for_interface_deleted) s = (Raise TimeoutExpiredError, s1) ->
  clean_up_iface iface s =
  (Ok tt, with_LOGGER (fun l => l ++ [ERROR_exc TimeoutExpiredError]) s1).
Proof.
  intros Hn Hnics Hrun. unfold clean_up_iface.
  rewrite bind_run, (getitem_name_named _ _ _ Hn). cbn beta iota.
  rewrite bind_run. cbn [attr]. rewrite Hnics. unfold try_except. rewrite Hrun.
  reflexivity.
Qed.

(** What [clean_up] comes to from a well-formed state. *)
Lemma clean_up_outcome (s : Machine) :
  wf s ->
  exists r s', clean_up s = (r, s') /\
    (forall w, r <> Abort w) /\
    (deleted (world s') = S (deleted (world s)) \/
     deleted (world s') = deleted (world s) /\
     exists e, r = Raise e /\ e <> TimeoutExpiredError).
Proof.
  intros Hwf. unfold clean_up. rewrite bind_run.
  destruct (sound_restore_mtu s) as (Hext1 & Hfuel1 & Hw1).
  destruct (Hw1 Hwf I) as [Hwf1 Hdang1]. pose proof (nto_restore_mtu s) as Hnto1.
  destruct (restore_mtu s) as [[[]|e|w] s1]; cbn [fst snd] in *.
  2:{ exists (Raise e), s1. split; [reflexivity|]. split; [discriminate|].
      right. split; [apply (ext_deleted _ _ Hext1)|]. exists e. split; [reflexivity|congruence]. }
  2:{ destruct w; congruence. }
  rewrite bind_run. cbn [attr]. rewrite bind_run.
  assert (Hslack : (slack s1 <= 0 + S (length (ifaces (self s1))))%nat).
  { unfold slack. destruct (iface (self s1)); [case_bool_decide|]; lia. }
  destruct (sound_for_ifaces _ 0%nat s1 Hslack) as (Hext2 & Hfuel2 & Hw2).
  destruct (Hw2 Hwf1 I) as [Hwf2 Hdang2].
  pose proof (nto_for_ifaces (S (length (ifaces (self s1)))) 0%nat s1) as Hnto2.
  destruct (for_ifaces (S (length (ifaces (self s1)))) 0 clean_up_iface s1)
    as [[[]|e|w] s2]; cbn [fst snd] in *.
  - rewrite delete_run. eexists _, _. split; [reflexivity|]. split.
    + destruct (delete_feed (oracle s2) (deleted (world s2))); discriminate.
    + left. cbn. rewrite (ext_deleted _ _ Hext2), (ext_deleted _ _ Hext1). reflexivity.
  - exists (Raise e), s2. split; [reflexivity|]. split; [discriminate|].
    right. split; [rewrite (ext_deleted _ _ Hext2); apply (ext_deleted _ _ Hext1)|].
    exists e. split; [reflexivity|congruence].
  - destruct w; congruence.
Qed.

(** The loop of [clean_up] after a turn that has come to an end. *)
Lemma for_ifaces_continues (fuel i : nat) (s s1 : Machine) (l : loc) :
  ifaces (self s) !! i = Some l ->
  clean_up_iface l s = (Ok tt, s1) ->
  for_ifaces (S fuel) i clean_up_iface s = for_ifaces fuel (S i) clean_up_iface s1.
Proof.
  intros Hl Hturn. rewrite for_ifaces_unfold, Hl, bind_run, Hturn. reflexivity.
Qed.

(** ** [__enter__] and [__exit__] *)

Lemma sound_backup_mtu : sound backup_mtu.
Proof.
  unfold backup_mtu, sound.
  apply sound_bind; [auto with sound | apply sound_attr|]. intros m.
  destruct (truthy_int m); [|apply sound_ret].
  apply sound_bind; [auto with sound | apply sound_iter_worker_pods|]. intros pods.
  apply sound_for_each; [auto with sound|]. intros pod _.
  apply sound_bind; [auto with sound | apply sound_attr|]. intros ps.
  apply sound_for_each; [auto with sound|]. intros port _.
  apply sound_bind; [auto with sound | apply sound_execute|]. intros out.
  apply sound_bind; [auto with sound | apply sound_LOGGER_info|]. intros _.
  now apply sound_with_self_table.
Qed.

Lemma sound_Resource___enter__ : sound Resource___enter__.
Proof.
  unfold Resource___enter__.
  apply sound_bind; [auto with sound | apply sound_to_dict|]. intros data.
  apply sound_create.
Qed.

Lemma sound_before_try : sound before_try.
Proof.
  unfold before_try, sound.
  apply sound_bind; [auto with sound | apply sound_attr|]. intros dh.
  apply sound_bind; [auto with sound | |].
  { destruct dh; [apply sound__ipv4_state_backup | apply sound_ret]. }
  intros _. apply sound_bind; [auto with sound | apply sound_backup_mtu|].
  intros _. apply sound_Resource___enter__.
Qed.

Lemma sound_status : sound status.
Proof.
  unfold status.
  apply sound_bind; [auto with sound | apply sound_instance_status_conditions|].
  intros conditions. apply sound_ret.
Qed.

Lemma sound_wait_for_status_success : sound wait_for_status_success.
Proof.
  unfold wait_for_status_success, wait_for_conditions, TimeoutSampler.
  apply sound_bind; [auto with sound | |].
  { apply sound_sampler_loop;
      [auto with sound | apply sound_instance_status_conditions|].
    intros sample. apply sound_ret. }
  intros _. apply sound_try_except; [auto with sound | |].
  - apply sound_sampler_loop; [auto with sound | apply sound_status|].
    intros sample. unfold judge.
    destruct (bool_decide (sample = Some Conditions.Reason.SUCCESS)).
    + apply sound_bind; [auto with sound | apply sound_LOGGER_info|].
      intros _. apply sound_ret.
    + destruct (bool_decide (sample = Some Conditions.Reason.FAILED));
        [apply sound_raise | apply sound_ret].
  - intros e. unfold unable.
    destruct e; try apply sound_raise;
      (apply sound_bind; [auto with sound | apply sound_LOGGER_error|]);
      intros _; apply sound_raise.
Qed.

Lemma sound_checks : sound checks.
Proof.
  unfold checks.
  apply sound_bind; [auto with sound | apply sound_wait_for_status_success|].
  intros _. apply sound_validate_create.
Qed.

(** The state in which the [except] clause of [__enter__] starts
    [clean_up], given the state [s] the [try] block left. *)
Lemma on_failure_run (e : Exn) (s : Machine) :
  on_failure e s =
  (clean_up;; raise e) (with_LOGGER (fun l => l ++ [ERROR_exc e]) s).
Proof. reflexivity. Qed.

Lemma __enter___early_failure (s s1 : Machine) (e : Exn) :
  before_try s = (Raise e, s1) -> __enter__ s = (Raise e, s1).
Proof. intros H. unfold __enter__. rewrite bind_run, H. reflexivity. Qed.

Lemma __enter___late_failure (s s1 s2 : Machine) (e : Exn) :
  before_try s = (Ok tt, s1) -> checks s1 = (Raise e, s2) ->
  __enter__ s = (clean_up;; raise e) (with_LOGGER (fun l => l ++ [ERROR_exc e]) s2).
Proof.
  intros H1 H2. unfold __enter__. rewrite bind_run, H1. cbn beta iota.
  unfold try_except. rewrite H2. apply on_failure_run.
Qed.

(** Where a failed [try] block leaves the policy. *)
Lemma late_failure_state (s s1 s2 : Machine) (e : Exn) :
  before_try s = (Ok tt, s1) -> checks s1 = (Raise e, s2) ->
  let t := with_LOGGER (fun l => l ++ [ERROR_exc e]) s2 in
  ext s t /\ (wf s -> wf t).
Proof.
  intros H1 H2 t.
  destruct (sound_before_try s) as (Hext1 & _ & Hw1). rewrite H1 in Hext1, Hw1.
  destruct (sound_checks s1) as (Hext2 & _ & Hw2). rewrite H2 in Hext2, Hw2.
  cbn [fst snd] in *.
  assert (Hext3 : ext s2 t) by now apply ext_same.
  split; [eauto using ext_trans|].
  intros Hwf. destruct (Hw1 Hwf I) as [Hwf1 _]. destruct (Hw2 Hwf1 I) as [Hwf2 _].
  now apply (wf_same s2).
Qed.

(** C10.  With [teardown] disabled, [__exit__] returns at once and leaves
    everything as it is: no call to a collaborator, no log record.  But
    when the [try] block of [__enter__] raises [e], [clean_up] runs from
    the state the block left (plus the log record of [e]) although
    [teardown] is still disabled there; from a well-formed state this run
    of [__enter__] ends with [delete] called, unless [clean_up] itself
    raised an exception other than a timeout. *)
Theorem teardown_gates_exit_only (s : Machine) :
  teardown (self s) = false ->
  __exit__ s = (Ok tt, s) /\
  (forall s1 s2 e,
     before_try s = (Ok tt, s1) -> checks s1 = (Raise e, s2) ->
     let t := with_LOGGER (fun l => l ++ [ERROR_exc e]) s2 in
     teardown (self t) = false /\
     __enter__ s = (clean_up;; raise e) t /\
     (wf s ->
      exists r s', __enter__ s = (r, s') /\
        (deleted (world s') = S (deleted (world s)) \/
         exists e', r = Raise e' /\ e' <> TimeoutExpiredError))).
Proof.
  intros Htd. split.
  - unfold __exit__. rewrite bind_run. cbn [attr]. rewrite Htd. reflexivity.
  - intros s1 s2 e H1 H2 t.
    destruct (late_failure_state s s1 s2 e H1 H2) as [Hext Hwf]. fold t in Hext, Hwf.
    split; [rewrite (ext_teardown _ _ Hext); exact Htd|].
    split; [exact (__enter___late_failure s s1 s2 e H1 H2)|].
    intros Hwfs. rewrite (__enter___late_failure s s1 s2 e H1 H2). fold t.
    destruct (clean_up_outcome t (Hwf Hwfs)) as (r & t' & Hrun & Hab & Hdel).
    rewrite bind_run, Hrun. destruct Hdel as [Hdel | (Hdel & e' & -> & He')].
    + rewrite (ext_deleted _ _ Hext) in Hdel.
      destruct r as [[]|e'|w]; [| |destruct (Hab w eq_refl)];
        eexists _, _; (split; [reflexivity|]); left; exact Hdel.
    + eexists _, _. split; [reflexivity|]. right. eauto.
Qed.

(** ** [_absent_interface] with DHCP on *)

Lemma compare_flags_port1 (i : ObservedIface) (s : Machine)
    (temp : list (string * list (string * Ipv4.dict))) :
  ports (self s) = ["port1"] ->
  ipv4_iface_state (self s) = backup_table ->
  dhcp_turned_on i ->
  temp = [("node1", [])] \/ temp = backup_table ->
  compare_flags "node1" i temp s =
  (Ok (if is_port1 i then backup_table else temp), s).
Proof.
  intros Hports Htable Hon Htemp. unfold compare_flags, is_port1.
  rewrite bind_run. cbn [attr]. rewrite Hports. cbn [str_in existsb orb].
  rewrite orb_false_r.
  destruct (String.eqb_spec (o_name i) "port1") as [Hname|Hname]; [|reflexivity].
  destruct (Hon Hname) as [en Hv4].
  rewrite bind_run. unfold ipv4_flags. rewrite Hv4. cbn [o_dhcp o_enabled mret M_ret].
  rewrite bind_run. cbn [attr]. rewrite Htable, Hname.
  cbn [backup_table dict_get String.eqb Ascii.eqb Bool.eqb].
  rewrite bool_decide_eq_true_2 by (unfold port1_backup; congruence).
  destruct Htemp as [-> | ->]; reflexivity.
Qed.

Lemma compare_all (obs : list ObservedIface) : forall (s : Machine)
    (temp : list (string * list (string * Ipv4.dict))),
  ports (self s) = ["port1"] ->
  ipv4_iface_state (self s) = backup_table ->
  Forall dhcp_turned_on obs ->
  temp = [("node1", [])] \/ temp = backup_table ->
  for_fold obs temp (compare_flags "node1") s =
  (Ok (if existsb is_port1 obs then backup_table else temp), s).
Proof.
  induction obs as [|i obs IH]; intros s temp Hports Htable Hon Htemp; [reflexivity|].
  apply Forall_cons in Hon as [Hi Hon]. cbn [for_fold existsb].
  rewrite bind_run, (compare_flags_port1 i s temp Hports Htable Hi Htemp).
  cbn beta iota. rewrite IH; [|assumption..|destruct (is_port1 i); auto].
  destruct (is_port1 i); cbn [orb]; [|reflexivity].
  destruct (existsb is_port1 obs); reflexivity.
Qed.

Lemma name_of_alloc (s : Machine) (e : Iface.dict) (l : loc) :
  is_Some (name_of s l) ->
  name_of (with_heap (fun h => h ++ [e]) s) l = name_of s l.
Proof.
  intros [n Hn]. unfold name_of in *. cbn [with_heap heap].
  destruct (heap s !! l) as [d|] eqn:Hl; [|discriminate].
  now rewrite (lookup_app_l_Some _ _ _ _ Hl).
Qed.

Lemma name_of_alloc_new (s : Machine) (e : Iface.dict) :
  name_of (with_heap (fun h => h ++ [e]) s) (length (heap s)) = Iface.name e.
Proof.
  unfold name_of. cbn [with_heap heap].
  rewrite lookup_app_r by lia. now rewrite Nat.sub_diag.
Qed.

Lemma name_of_setitem (s : Machine) (b l : loc) (d d' : Iface.dict) :
  heap s !! b = Some d -> Iface.name d' = Iface.name d ->
  name_of (with_heap (fun h => <[b := d']> h) s) l = name_of s l.
Proof.
  intros Hb Hname. unfold name_of. cbn [with_heap heap].
  destruct (decide (b = l)) as [->|Hne].
  - rewrite list_lookup_insert_eq by (now apply lookup_lt_Some in Hb).
    rewrite Hb. cbn. exact Hname.
  - now rewrite list_lookup_insert_ne.
Qed.

Lemma named_alloc (s : Machine) (e : Iface.dict) (ls : list loc) :
  Forall (fun l => is_Some (name_of s l)) ls ->
  Forall (fun l => is_Some (name_of (with_heap (fun h => h ++ [e]) s) l)) ls.
Proof.
  intros H. eapply Forall_impl; [exact H|].
  intros l Hl. cbn beta. now rewrite name_of_alloc.
Qed.

Lemma restore_dhcp_run (obs : list ObservedIface) (s : Machine) :
  restore_scenario obs s ->
  Forall dhcp_turned_on obs ->
  Exists (fun i => o_name i = "port1") obs ->
  restore_dhcp s =
  (Ok tt,
   let s3 := with_world tick_interfaces_reads s in
   inserted (length (heap s3)) (with_heap (fun h => h ++ [port1_restored]) s3)).
Proof.
  intros Hsc Hon Hex. unfold restore_dhcp.
  rewrite bind_run. unfold iter_worker_pods at 1. rewrite bind_run. cbn [attr].
  rewrite (sc_pods _ _ Hsc). cbn [mret M_ret for_fold node1 node_name].
  rewrite !bind_run.
  unfold currentState_interfaces at 1. rewrite bind_run. cbn [get].
  rewrite bind_run. cbn [modify]. rewrite (sc_feed _ _ Hsc) by reflexivity.
  cbn [answer_with mret M_ret].
  rewrite compare_all;
    [| apply (sc_ports _ _ Hsc) | apply (sc_backup _ _ Hsc) | exact Hon | left; reflexivity].
  assert (existsb is_port1 obs = true) as ->.
  { apply existsb_exists. apply Exists_exists in Hex as (i & Hi & Hname).
    exists i. split; [now apply list_elem_of_In|]. unfold is_port1. rewrite Hname. reflexivity. }
  cbn [mret M_ret backup_table for_each]. rewrite !bind_run, alloc_run.
  cbn beta iota. fold port1_restored.
  set (s3 := with_world tick_interfaces_reads s).
  set (s4 := with_heap (fun h => h ++ [port1_restored]) s3).
  destruct (set_interface_run (length (heap s3)) s4) as (r & Hr & Hok).
  rewrite Hr, Hok; [reflexivity | |].
  - apply (named_alloc s3). exact (sc_desired _ _ Hsc).
  - unfold s4. rewrite name_of_alloc_new. cbn. eauto.
Qed.

Lemma scenario_setitem (obs : list ObservedIface) (s : Machine) (b : loc)
    (d d' : Iface.dict) :
  restore_scenario obs s -> heap s !! b = Some d -> Iface.name d' = Iface.name d ->
  restore_scenario obs (with_heap (fun h => <[b := d']> h) s).
Proof.
  intros [H1 H2 H3 H4 H5 H6 H7] Hb Hname. split; try assumption.
  - eapply Forall_impl; [exact H6|]. intros l Hl. cbn beta.
    now rewrite (name_of_setitem s b l d d').
  - eapply Forall_impl; [exact H7|]. intros l Hl. cbn beta.
    now rewrite (name_of_setitem s b l d d').
Qed.

Lemma scenario_inserted (obs : list ObservedIface) (s : Machine) (x : loc) :
  restore_scenario obs s -> is_Some (name_of s x) ->
  restore_scenario obs (inserted x s).
Proof.
  intros [H1 H2 H3 H4 H5 H6 H7] Hx. split; try assumption.
  now apply named_inserted.
Qed.

Lemma scenario_read (obs : list ObservedIface) (s : Machine) :
  restore_scenario obs s -> restore_scenario obs (with_world tick_interfaces_reads s).
Proof.
  intros [H1 H2 H3 H4 H5 H6 H7]. split; try assumption.
  intros n Hn. apply H5. cbn in Hn. lia.
Qed.

Lemma scenario_alloc (obs : list ObservedIface) (s : Machine) (e : Iface.dict) :
  restore_scenario obs s -> restore_scenario obs (with_heap (fun h => h ++ [e]) s).
Proof.
  intros [H1 H2 H3 H4 H5 H6 H7]. split; try assumption; now apply named_alloc.
Qed.

Lemma new_entry_named (s : Machine) :
  is_Some (name_of (with_heap (fun h => h ++ [port1_restored]) s) (length (heap s))).
Proof. rewrite name_of_alloc_new. cbn. eauto. Qed.

Lemma scenario_absent_step (obs : list ObservedIface) (s : Machine) (b : loc)
    (d : Iface.dict) :
  restore_scenario obs s -> heap s !! b = Some d -> is_Some (Iface.name d) ->
  restore_scenario obs (absent_step b d s).
Proof.
  intros Hsc Hb Hd. unfold absent_step. cbn zeta.
  apply scenario_inserted.
  - apply scenario_alloc, scenario_read, scenario_inserted.
    + now apply (scenario_setitem obs s b d).
    + rewrite (name_of_setitem s b b d) by easy. unfold name_of. now rewrite Hb.
  - apply new_entry_named.
Qed.

Lemma absent_one_run (obs : list ObservedIface) (s : Machine) (b : loc) (d : Iface.dict) :
  restore_scenario obs s ->
  Forall dhcp_turned_on obs ->
  Exists (fun i => o_name i = "port1") obs ->
  heap s !! b = Some d -> is_Some (Iface.name d) ->
  absent_one b s = (Ok tt, absent_step b d s).
Proof.
  intros Hsc Hon Hex Hb Hd. unfold absent_one.
  rewrite bind_run. unfold setitem at 1. rewrite bind_run, deref_run, Hb.
  cbn [modify]. rewrite bind_run.
  set (s1 := with_heap (fun h => <[b := Iface.set_state Interface.State.ABSENT d]> h) s).
  assert (Hsc1 : restore_scenario obs s1) by now apply (scenario_setitem obs s b d).
  assert (Hb1 : is_Some (name_of s1 b)).
  { unfold s1. rewrite (name_of_setitem s b b d) by easy. unfold name_of. now rewrite Hb. }
  destruct (set_interface_run b s1) as (r & Hr & Hok).
  rewrite Hr, Hok; [|exact (sc_desired _ _ Hsc1) | exact Hb1].
  rewrite bind_run. cbn [attr].
  assert (Hsc2 : restore_scenario obs (inserted b s1)) by now apply scenario_inserted.
  rewrite (sc_dhcp _ _ Hsc2).
  rewrite (restore_dhcp_run obs _ Hsc2 Hon Hex). reflexivity.
Qed.

Lemma heap_absent_step (s : Machine) (b : loc) (d : Iface.dict) :
  heap (absent_step b d s) =
  <[b := Iface.set_state Interface.State.ABSENT d]> (heap s) ++ [port1_restored].
Proof. reflexivity. Qed.

Lemma absent_step_marks (s : Machine) (b : loc) (d : Iface.dict) :
  heap s !! b = Some d -> absent_in (absent_step b d s) b.
Proof.
  intros Hb. exists (Iface.set_state Interface.State.ABSENT d). split; [|reflexivity].
  rewrite heap_absent_step. apply lookup_app_l_Some.
  apply list_lookup_insert_eq. now apply lookup_lt_Some in Hb.
Qed.

Lemma absent_step_keeps (s : Machine) (b l : loc) (d : Iface.dict) :
  heap s !! b = Some d -> absent_in s l -> absent_in (absent_step b d s) l.
Proof.
  intros Hb (dl & Hl & Hst). destruct (decide (b = l)) as [->|Hne].
  - now apply absent_step_marks.
  - exists dl. split; [|exact Hst]. rewrite heap_absent_step.
    apply lookup_app_l_Some. now rewrite list_lookup_insert_ne.
Qed.

Lemma absent_step_named (s : Machine) (b l : loc) (d : Iface.dict) :
  heap s !! b = Some d -> is_Some (name_of s l) ->
  is_Some (name_of (absent_step b d s) l).
Proof.
  intros Hb Hl. unfold absent_step. cbn zeta.
  rewrite name_of_inserted, name_of_alloc.
  - change (is_Some (name_of (with_heap
      (fun h => <[b := Iface.set_state Interface.State.ABSENT d]> h) s) l)).
    now rewrite (name_of_setitem s b l d).
  - change (is_Some (name_of (with_heap
      (fun h => <[b := Iface.set_state Interface.State.ABSENT d]> h) s) l)).
    now rewrite (name_of_setitem s b l d).
Qed.

Lemma absent_step_last (s : Machine) (b : loc) (d : Iface.dict) :
  exists l, last (desired_state (self (absent_step b d s))) = Some l /\
    heap (absent_step b d s) !! l = Some port1_restored.
Proof.
  exists (length (heap (with_heap
    (fun h => <[b := Iface.set_state Interface.State.ABSENT d]> h) s))).
  split.
  - unfold absent_step. cbn zeta.
    cbn [inserted with_self self set_desired_state desired_state]. apply last_snoc.
  - rewrite heap_absent_step. cbn [with_heap heap].
    rewrite lookup_app_r by lia. now rewrite Nat.sub_diag.
Qed.

(** The loop of [_absent_interface] in the scenario. *)
Lemma absent_each (obs : list ObservedIface) (bs : list loc) : forall s : Machine,
  restore_scenario obs s ->
  Forall dhcp_turned_on obs ->
  Exists (fun i => o_name i = "port1") obs ->
  Forall (fun l => is_Some (name_of s l)) bs ->
  exists s', for_each bs absent_one s = (Ok tt, s') /\
    restore_scenario obs s' /\
    (forall l, absent_in s l -> absent_in s' l) /\
    (forall b, b ∈ bs -> absent_in s' b) /\
    (bs <> [] ->
     exists l, last (desired_state (self s')) = Some l /\
       heap s' !! l = Some port1_restored).
Proof.
  induction bs as [|b bs IH]; intros s Hsc Hon Hex Hnamed.
  - exists s. split; [reflexivity|]. split; [exact Hsc|]. split; [auto|].
    split; [intros b Hb; now apply elem_of_nil in Hb | congruence].
  - apply Forall_cons in Hnamed as [Hb Hnamed].
    destruct Hb as [n Hn]. unfold name_of in Hn.
    destruct (heap s !! b) as [d|] eqn:Hd; [|discriminate]. cbn in Hn.
    cbn [for_each]. rewrite bind_run.
    rewrite (absent_one_run obs s b d Hsc Hon Hex Hd) by eauto. cbn beta iota.
    destruct (IH (absent_step b d s)) as (s' & Hrun & Hsc' & Hkeep & Hall & Hlast).
    + apply scenario_absent_step; eauto.
    + exact Hon.
    + exact Hex.
    + eapply Forall_impl; [exact Hnamed|]. intros l Hl. now apply absent_step_named.
    + exists s'. split; [exact Hrun|]. split; [exact Hsc'|]. split; [|split].
      * intros l Hl. apply Hkeep. now apply absent_step_keeps.
      * intros b' [->|Hb']%elem_of_cons; [|now apply Hall].
        apply Hkeep. now apply absent_step_marks.
      * intros _. destruct bs as [|b' bs']; [|apply Hlast; discriminate].
        cbn in Hrun. injection Hrun as <-. apply absent_step_last.
Qed.

(** C4.  A DHCP policy on node1 with the backup
    [{node1: {port1: {dhcp: false, enabled: true}}}], while node1 reports
    port1 with DHCP on: the loop of [_absent_interface] marks every bridge
    absent and leaves, as the last entry of the desired-state list, the
    dict [{"name": "port1", "ipv4": {dhcp: false, enabled: true}}]; only
    then does [_absent_interface] call [apply], on that state. *)
Theorem restore_before_apply (obs : list ObservedIface) (s : Machine) :
  restore_scenario obs s ->
  Forall dhcp_turned_on obs ->
  Exists (fun i => o_name i = "port1") obs ->
  ifaces (self s) <> [] ->
  exists s' l,
    absent_all s = (Ok tt, s') /\
    _absent_interface s = apply s' /\
    last (desired_state (self s')) = Some l /\
    heap s' !! l = Some port1_restored /\
    (forall b, b ∈ ifaces (self s) -> absent_in s' b).
Proof.
  intros Hsc Hon Hex Hne.
  destruct (absent_each obs (ifaces (self s)) s Hsc Hon Hex (sc_bridges _ _ Hsc))
    as (s' & Hrun & _ & _ & Hall & Hlast).
  destruct (Hlast Hne) as (l & Hl & Hheap).
  assert (Hloop : absent_all s = (Ok tt, s')).
  { unfold absent_all. rewrite bind_run. cbn [attr]. exact Hrun. }
  exists s', l. split; [exact Hloop|]. split.
  - unfold _absent_interface. rewrite bind_run, Hloop. reflexivity.
  - split; [exact Hl|]. split; [exact Hheap | exact Hall].
Qed.

(** ** The physical NICs in [clean_up] *)

(** C1.  The policy knows eth0 as a physical NIC and has configured eth0
    and then br1, so both are in [self.ifaces].  [clean_up] skips the
    turn of eth0 in its loop, but in the turn of br1 [_absent_interface]
    marks every interface of [self.ifaces] absent, eth0 included: eth0
    ends up absent in the desired state, in the document submitted, and
    among the interfaces whose deletion is awaited.  With two bridges and
    no physical NIC, [clean_up] pushes the absent state of both bridges
    twice, once per turn of the loop. *)
Theorem clean_up_marks_active_nic_absent :
  (node_active_nics (self eth0_then_br1) = ["eth0"] /\
   ifaces (self eth0_then_br1) = [0; 1]%nat /\
   name_of eth0_then_br1 0%nat = Some "eth0" /\
   Iface.state <$> heap eth0_then_br1 !! 0%nat = Some (Some "up") /\
   (clean_up eth0_then_br1).1 = Ok tt /\
   Iface.state <$> heap (after clean_up eth0_then_br1) !! 0%nat = Some (Some "absent") /\
   desired_state (self (after clean_up eth0_then_br1)) = [0; 1]%nat /\
   summary <$> last (updated (world (after clean_up eth0_then_br1))) =
     Some [(Some "eth0", Some "absent"); (Some "br1", Some "absent")] /\
   waited_deleted (world (after clean_up eth0_then_br1)) =
     [("node1", "eth0"); ("node1", "br1")]) /\
  (ifaces (self br1_then_br2) = [0; 1]%nat /\
   length (updated (world br1_then_br2)) = 2%nat /\
   (clean_up br1_then_br2).1 = Ok tt /\
   summary <$> drop 2 (updated (world (after clean_up br1_then_br2))) =
     [[(Some "br1", Some "absent"); (Some "br2", Some "absent")];
      [(Some "br1", Some "absent"); (Some "br2", Some "absent")]] /\
   waited_deleted (world (after clean_up br1_then_br2)) =
     [("node1", "br1"); ("node1", "br2"); ("node1", "br1"); ("node1", "br2")]).
Proof. vm_compute. repeat split. Qed.

(** ** Failures of [__enter__] *)

(** C5, as the code has it.  An exception raised before the [try] block
    of [__enter__] (by the DHCP backup, the MTU backup or the creation of
    the resource) propagates as it is, and [delete] is not called.  An
    exception [e] raised by the [try] block (the wait for the status, or
    the check that the interfaces are up) is logged and [clean_up] runs:
    when [clean_up] returns, [e] is raised again; when [clean_up] raises,
    its exception takes the place of [e].  From a well-formed state
    [clean_up] does come to an end. *)
Theorem __enter___cleans_up_after_try_block (s : Machine) :
  (forall s1 e,
     before_try s = (Raise e, s1) ->
     __enter__ s = (Raise e, s1) /\ deleted (world s1) = deleted (world s)) /\
  (forall s1 s2 e,
     before_try s = (Ok tt, s1) -> checks s1 = (Raise e, s2) ->
     let t := with_LOGGER (fun l => l ++ [ERROR_exc e]) s2 in
     (forall t', clean_up t = (Ok tt, t') -> __enter__ s = (Raise e, t')) /\
     (forall e' t', clean_up t = (Raise e', t') -> __enter__ s = (Raise e', t')) /\
     (wf s -> exists r t', clean_up t = (r, t') /\ forall w, r <> Abort w)).
Proof.
  split.
  - intros s1 e H. split; [now apply __enter___early_failure|].
    destruct (sound_before_try s) as (Hext & _). rewrite H in Hext.
    exact (ext_deleted _ _ Hext).
  - intros s1 s2 e H1 H2 t.
    pose proof (__enter___late_failure s s1 s2 e H1 H2) as Hrun. fold t in Hrun.
    split; [|split].
    + intros t' Hc. rewrite Hrun, bind_run, Hc. reflexivity.
    + intros e' t' Hc. rewrite Hrun, bind_run, Hc. reflexivity.
    + intros Hwf. destruct (late_failure_state s s1 s2 e H1 H2) as [_ Hwft].
      destruct (clean_up_outcome _ (Hwft Hwf)) as (r & t' & Hc & Hab & _).
      exists r, t'. split; assumption.
Qed.

(** C5 as the specification words it, with cleanup after every failure
    of [__enter__], does not hold.  A DHCP policy is built without
    [worker_pods], which is then [None], the default of the constructor.
    The backup of [__enter__] iterates over it and raises [TypeError],
    which leaves [__enter__] as it is: nothing is logged and no
    collaborator is called, so nothing is submitted and [delete] is not
    called, although [clean_up] from that state would return and call
    it. *)
Lemma __enter___backup_failure_skips_clean_up :
  worker_pods (self unattended) = None /\
  _ipv4_dhcp (self unattended) = true /\
  (__enter__ unattended).1 = Raise TypeError /\
  LOGGER (entered unattended) = [] /\
  world (entered unattended) = untouched /\
  updated (world (entered unattended)) = [] /\
  deleted (world (entered unattended)) = 0%nat /\
  (clean_up (entered unattended)).1 = Ok tt /\
  deleted (world (after clean_up (entered unattended))) = 1%nat.
Proof. vm_compute. repeat split. Qed.

(** ** The theorems at work on concrete policies *)

(** Conditions that show up at the third read and settle two samples
    later; conditions that report the failure at once; no conditions at
    all. *)
Lemma wait_for_status_success_outcomes_witness :
  (exists s', wait_for_status_success (static_state true slow_success) =
                (Ok Conditions.Reason.SUCCESS, s') /\ clock (world s') = 3) /\
  (exists s', wait_for_status_success (static_state true failing) =
                (Raise (NNCPConfigurationFailed "Reason: FailedToConfigure"), s') /\
              LOGGER s' = [ERROR "Unable to configure NNCP for node"]) /\
  (exists s', wait_for_status_success (static_state true silent) =
                (Raise TimeoutExpiredError, s') /\ clock (world s') = 30).
Proof.
  split; [|split].
  - destruct (wait_for_status_success_outcomes (static_state true slow_success))
      as (H & _ & _).
    destruct (H 2%nat 1%nat) as (s' & Hrun & Hclock & _).
    + lia.
    + lia.
    + intros [|[|i]] Hi; [reflexivity | reflexivity | lia].
    + vm_compute. discriminate.
    + intros [|i] Hi; [|lia]. vm_compute. intros [H0|H0]; discriminate.
    + reflexivity.
    + exists s'. split; [exact Hrun | exact Hclock].
  - destruct (wait_for_status_success_outcomes (static_state true failing))
      as (_ & H & _).
    destruct (H 0%nat 0%nat) as (s' & Hrun & _ & Hlog).
    + lia.
    + lia.
    + intros i Hi. lia.
    + vm_compute. discriminate.
    + intros i Hi. lia.
    + reflexivity.
    + exists s'. split; [exact Hrun | exact Hlog].
  - destruct (wait_for_status_success_outcomes (static_state true silent))
      as (_ & _ & H).
    destruct H as (s' & Hrun & Hclock & _).
    + intros i Hi. reflexivity.
    + exists s'. split; [exact Hrun | exact Hclock].
Defined.

(** eth0, then br1 up, then another dict named br1 that is down. *)
Lemma set_interface_last_write_wins_witness :
  entries_named "br1"
    (set_interfaces ([0] ++ [1; 2])%nat (boot nics_policy three_dicts calm)) = [2%nat] /\
  (length (entries_named "eth0"
     (set_interfaces [0]%nat (boot nics_policy three_dicts calm))) <= 1)%nat.
Proof.
  destruct (set_interface_last_write_wins (boot nics_policy three_dicts calm) [0%nat] eq_refl)
    as [Hone Hlast].
  destruct (Hlast 1%nat 2%nat "br1") as [Hentries _].
  - repeat constructor. eexists. reflexivity.
  - reflexivity.
  - reflexivity.
  - split; [exact Hentries | apply Hone].
Defined.

(** A DHCP policy over port1 that has been entered while node1 reported
    port1 without DHCP, and that is removed while node1 reports it with
    DHCP. *)
Lemma restore_before_apply_witness :
  exists s' l,
    absent_all (entered (dhcp_state "port1" dhcp_later)) = (Ok tt, s') /\
    _absent_interface (entered (dhcp_state "port1" dhcp_later)) = apply s' /\
    last (desired_state (self s')) = Some l /\
    heap s' !! l = Some port1_restored /\
    (forall b, b ∈ ifaces (self (entered (dhcp_state "port1" dhcp_later))) ->
       absent_in s' b).
Proof.
  apply (restore_before_apply
           [observed "lo" None (Some true); observed "port1" (Some true) (Some true)]).
  - split.
    + reflexivity.
    + reflexivity.
    + reflexivity.
    + reflexivity.
    + intros [|n] Hn; [exfalso; vm_compute in Hn; lia | reflexivity].
    + vm_compute. repeat constructor. eexists. reflexivity.
    + vm_compute. repeat constructor. eexists. reflexivity.
  - repeat constructor.
    + intros H. discriminate H.
    + intros _. eexists. reflexivity.
  - apply Exists_cons_tl, Exists_cons_hd. reflexivity.
  - vm_compute. discriminate.
Defined.

(** A backup that fails before the [try] block, and a policy that the
    nodes fail to configure. *)
Lemma __enter___cleans_up_after_try_block_witness :
  (__enter__ unattended = (Raise TypeError, after before_try unattended) /\
   deleted (world (after before_try unattended)) = 0%nat) /\
  (exists t', __enter__ (static_state true failing) =
                (Raise (NNCPConfigurationFailed "Reason: FailedToConfigure"), t') /\
              deleted (world t') = 1%nat).
Proof.
  split.
  - destruct (__enter___cleans_up_after_try_block unattended) as [Hearly _].
    apply Hearly. vm_compute. reflexivity.
  - destruct (__enter___cleans_up_after_try_block (static_state true failing))
      as [_ Hlate].
    destruct (Hlate (after before_try (static_state true failing))
                (after checks (after before_try (static_state true failing)))
                (NNCPConfigurationFailed "Reason: FailedToConfigure"))
      as (Hreraise & _ & _).
    + vm_compute. reflexivity.
    + vm_compute. reflexivity.
    + eexists. split.
      * apply Hreraise. vm_compute. reflexivity.
      * vm_compute. reflexivity.
Defined.

(** One write conflict, then success: two updates, one time unit. *)
Lemma apply_bounded_retry_witness :
  exists s2,
    apply (static_state true conflict_once) = (Ok tt, s2) /\
    updated (world s2) =
      replicate 2 (document_of (to_dict (static_state true conflict_once))) /\
    clock (world s2) = 1.
Proof.
  destruct (apply_bounded_retry (static_state true conflict_once)
              (after to_dict (static_state true conflict_once))
              (document_of (to_dict (static_state true conflict_once))))
    as (Hok & _ & _).
  - vm_compute. reflexivity.
  - destruct (Hok 1%nat) as (s2 & Hrun & Hupdated & Hclock).
    + lia.
    + intros [|i] Hi; [reflexivity | lia].
    + reflexivity.
    + exists s2. split; [exact Hrun|]. split; [exact Hupdated | exact Hclock].
Defined.

(** The policy with the static address 10.1.2.3/24. *)
Lemma to_dict_address_field_witness :
  exists entry v4,
    last (interfaces (document_of (to_dict (static_state true calm)))) = Some entry /\
    Iface.ipv4 entry = Some v4 /\
    Ipv4.address v4 = Some [{| ip := "10.1.2.3"; prefix_length := 24 |}].
Proof.
  destruct (to_dict_address_field (static_state true calm)
              (after to_dict (static_state true calm))
              (document_of (to_dict (static_state true calm))))
    as (l & entry & v4 & _ & _ & Hlast & Hv4 & _ & _ & Haddr & _).
  - vm_compute. reflexivity.
  - exists entry, v4. split; [exact Hlast|]. split; [exact Hv4|].
    apply Haddr. discriminate.
Defined.

(** A policy for node2 when the only worker pod runs on node1. *)
Lemma unmatched_hostname_leaves_selector_unset_witness :
  exists o,
    __init__ "policy" (Some [node1]) (Some "node2") true None None false false None
      false None = Ok o /\
    _node_selector o = None /\
    forall s, _node_selector (self s) = _node_selector o ->
      to_dict s = (Raise (AttributeError "_node_selector"), s).
Proof.
  refine (proj1 (unmatched_hostname_leaves_selector_unset "policy" [node1] "node2"
                   true None None false false None false None _ _)).
  - discriminate.
  - repeat constructor. discriminate.
Defined.

(** A policy with [teardown=False] that the nodes fail to configure. *)
Lemma teardown_gates_exit_only_witness :
  __exit__ (static_state false failing) = (Ok tt, static_state false failing) /\
  (exists r s', __enter__ (static_state false failing) = (r, s') /\
     (deleted (world s') = 1%nat \/
      exists e', r = Raise e' /\ e' <> TimeoutExpiredError)).
Proof.
  destruct (teardown_gates_exit_only (static_state false failing) eq_refl)
    as [Hexit Hfail].
  split; [exact Hexit|].
  destruct (Hfail (after before_try (static_state false failing))
              (after checks (after before_try (static_state false failing)))
              (NNCPConfigurationFailed "Reason: FailedToConfigure"))
    as (_ & _ & Hdelete).
  - vm_compute. reflexivity.
  - vm_compute. reflexivity.
  - apply Hdelete. unfold wf, valid. vm_compute.
    split; [repeat constructor|]. split; [repeat constructor|].
    intros l [= <-]. repeat constructor.
Defined.

(** * Further properties *)

(** ** [set_interface]: errors and repeated calls *)

(** When the comprehension of [set_interface] comes to an end over a
    non-empty list, it has read the name of every entry and of the dict
    passed. *)
Lemma keep_other_ok_named (x : loc) (ds : list loc) :
  forall (acc : list loc) (s s' : Machine) (v : list loc),
  for_fold ds acc (keep_other x) s = (Ok v, s') -> ds <> [] ->
  Forall (fun i => is_Some (name_of s i)) ds /\ is_Some (name_of s x).
Proof.
  induction ds as [|i ds IH]; intros acc s s' v Hrun Hne; [congruence|].
  cbn [for_fold] in Hrun. rewrite bind_run, keep_other_unfold in Hrun.
  rewrite getitem_name_run in Hrun.
  destruct (heap s !! i) as [di|] eqn:Hi; [|discriminate].
  destruct (Iface.name di) as [ni|] eqn:Hni; [|discriminate].
  cbn beta iota in Hrun. rewrite getitem_name_run in Hrun.
  destruct (heap s !! x) as [dx|] eqn:Hx; [|discriminate].
  destruct (Iface.name dx) as [nx|] eqn:Hnx; [|discriminate].
  assert (Hi' : is_Some (name_of s i)) by (unfold name_of; rewrite Hi; cbn; eauto).
  assert (Hx' : is_Some (name_of s x)) by (unfold name_of; rewrite Hx; cbn; eauto).
  split; [|exact Hx']. constructor; [exact Hi'|].
  destruct ds as [|j ds']; [constructor|].
  now apply (IH _ s s' v Hrun).
Qed.

(** Over valid references the comprehension ends or raises
    [KeyError("name")]. *)
Lemma keep_other_valid (x : loc) (ds : list loc) :
  forall (acc : list loc) (s s' : Machine) (r : Result (list loc)),
  Forall (valid s) ds -> valid s x ->
  for_fold ds acc (keep_other x) s = (r, s') ->
  (exists v, r = Ok v) \/ r = Raise (KeyError "name").
Proof.
  induction ds as [|i ds IH]; intros acc s s' r Hall Hx Hrun.
  - injection Hrun as <- <-. left. eauto.
  - apply Forall_cons in Hall as [Hi Hall].
    cbn [for_fold] in Hrun. rewrite bind_run, keep_other_unfold in Hrun.
    rewrite getitem_name_run in Hrun.
    destruct (heap s !! i) as [di|] eqn:Hdi;
      [|apply lookup_ge_None in Hdi; unfold valid in Hi; lia].
    destruct (Iface.name di) as [ni|]; [|injection Hrun as <- <-; now right].
    cbn beta iota in Hrun. rewrite getitem_name_run in Hrun.
    destruct (heap s !! x) as [dx|] eqn:Hdx;
      [|apply lookup_ge_None in Hdx; unfold valid in Hx; lia].
    destruct (Iface.name dx) as [nx|]; [|injection Hrun as <- <-; now right].
    now apply (IH _ s s' r Hall Hx Hrun).
Qed.

Lemma inserted_inserted (x : loc) (s : Machine) :
  inserted x (inserted x s) = inserted x s.
Proof.
  unfold inserted at 1 3. unfold with_self. cbn [self heap LOGGER oracle world].
  f_equal. unfold set_desired_state. cbn. f_equal.
  change (desired_state (self (inserted x s)))
    with (filter (fun i => name_of s i ≠ name_of s x) (desired_state (self s)) ++ [x]).
  rewrite (list_filter_iff _ (fun i => name_of s i ≠ name_of s x))
    by (intros i; now rewrite !name_of_inserted).
  rewrite filter_app, list_filter_filter, filter_cons, decide_False, filter_nil
    by (intros H; now apply H).
  rewrite app_nil_r. f_equal. apply list_filter_iff. tauto.
Qed.

(** X1.  [set_interface] is all or nothing.  Over dicts that exist, the
    call either returns with the list rebuilt (the entries of another
    name in their order, then the dict passed), or raises
    [KeyError("name")] and leaves the whole state as it was.  It returns
    exactly when the list is empty (the name of the dict passed is then
    not read) or every entry and the dict passed have a name. *)
Theorem set_interface_all_or_nothing (x : loc) (s : Machine) :
  Forall (valid s) (desired_state (self s)) -> valid s x ->
  (set_interface x s = (Ok tt, inserted x s) /\
   (desired_state (self s) = [] \/
    Forall (fun i => is_Some (name_of s i)) (desired_state (self s)) /\
    is_Some (name_of s x))) \/
  (set_interface x s = (Raise (KeyError "name"), s) /\
   desired_state (self s) <> [] /\
   ~ (Forall (fun i => is_Some (name_of s i)) (desired_state (self s)) /\
      is_Some (name_of s x))).
Proof.
  intros Hall Hx. unfold set_interface. rewrite bind_run. cbn [attr]. rewrite bind_run.
  destruct (keep_other_run x (desired_state (self s)) [] s) as (r & Hr & Hv & Hok).
  rewrite Hr. destruct r as [v|e|w].
  - left. rewrite (Hv v eq_refl). split; [reflexivity|].
    destruct (desired_state (self s)) as [|i ds] eqn:Hds; [now left|right].
    now apply (keep_other_ok_named x (i :: ds) [] s s v).
  - right. destruct (keep_other_valid _ _ _ _ _ _ Hall Hx Hr) as [[v Hv']|Hv'];
      [discriminate|]. injection Hv' as ->. split; [reflexivity|]. split.
    + intros Hds. rewrite Hds in Hr. discriminate.
    + intros [H1 H2]. destruct (Hok H1 H2). discriminate.
  - destruct (keep_other_valid _ _ _ _ _ _ Hall Hx Hr) as [[v Hv']|Hv']; discriminate.
Qed.

(** After a call that returned for a named dict, every entry of the list
    has a name. *)
Lemma set_interface_ok_named (x : loc) (s s' : Machine) (u : unit) :
  is_Some (name_of s x) ->
  set_interface x s = (Ok u, s') ->
  Forall (fun i => is_Some (name_of (inserted x s) i))
    (desired_state (self (inserted x s))).
Proof.
  intros Hx Hrun. apply named_inserted; [|exact Hx].
  unfold set_interface in Hrun. rewrite bind_run in Hrun. cbn [attr] in Hrun.
  rewrite bind_run in Hrun.
  destruct (for_fold (desired_state (self s)) [] (keep_other x) s)
    as [[v|e|w] s0] eqn:Hfold; try discriminate.
  destruct (desired_state (self s)) as [|i ds] eqn:Hds; [constructor|].
  now apply (keep_other_ok_named x (i :: ds) [] s s0 v).
Qed.

Lemma set_interface_again (x : loc) (s s' : Machine) (u : unit) :
  is_Some (name_of s x) ->
  set_interface x s = (Ok u, s') ->
  set_interface x (inserted x s) = (Ok tt, inserted x s).
Proof.
  intros Hx Hrun.
  destruct (set_interface_run x (inserted x s)) as (r & Hr & Hok).
  rewrite Hr, (Hok (set_interface_ok_named x s s' u Hx Hrun)), inserted_inserted.
  - reflexivity.
  - now rewrite name_of_inserted.
Qed.

(** X2.  A second call of [set_interface] with the same named dict changes
    nothing: the list and the rest of the state are as the first call
    left them. *)
Theorem set_interface_idempotent (x : loc) (s s1 : Machine) :
  is_Some (name_of s x) ->
  set_interface x s = (Ok tt, s1) ->
  set_interface x s1 = (Ok tt, s1).
Proof.
  intros Hx Hrun. pose proof (set_interface_ok_inv _ _ _ _ Hrun) as ->.
  exact (set_interface_again x s _ tt Hx Hrun).
Qed.

(** ** [to_dict]: what a call leaves behind *)

Lemma setitem_run (l : loc) (f : Iface.dict -> Iface.dict) (d : Iface.dict) (s : Machine) :
  heap s !! l = Some d ->
  setitem l f s = (Ok tt, with_heap (fun h => <[l := f d]> h) s).
Proof. intros H. unfold setitem. rewrite bind_run, deref_run, H. reflexivity. Qed.

Lemma with_heap_insert_insert (l : loc) (a b : Iface.dict) (s : Machine) :
  with_heap (fun h => <[l := b]> h) (with_heap (fun h => <[l := a]> h) s) =
  with_heap (fun h => <[l := b]> h) s.
Proof. unfold with_heap. cbn. now rewrite list_insert_insert_eq. Qed.

Lemma with_heap_insert_id (l : loc) (d : Iface.dict) (s : Machine) :
  heap s !! l = Some d -> with_heap (fun h => <[l := d]> h) s = s.
Proof. intros H. destruct s. unfold with_heap. cbn in *. now rewrite list_insert_id. Qed.

(** Up to line 113 [to_dict] reads attributes and rewrites the dict of
    the primary interface. *)
Lemma to_dict_unfold (s : Machine) (sel : list (string * string)) (l : loc)
    (d : Iface.dict) :
  _node_selector (self s) = Some sel -> iface (self s) = Some l ->
  heap s !! l = Some d ->
  to_dict s =
  to_dict_rest (name (self s)) sel l
    (with_heap (fun h => <[l := primary_entry (self s) d]> h) s).
Proof.
  intros Hsel Hl Hd. unfold to_dict, ipv4_dhcp.
  do 2 (rewrite bind_run; cbn [attr]). rewrite Hsel.
  do 3 (rewrite bind_run; cbn [attr]). rewrite Hl.
  rewrite bind_run, (setitem_run _ _ d) by exact Hd.
  rewrite bind_run. cbn [attr with_heap self]. rewrite bind_run.
  unfold primary_entry.
  destruct (ipv4_addresses (self s)) as [|a addrs].
  - cbn [mret M_ret]. rewrite bind_run. cbn [attr with_heap self].
    rewrite bind_run. erewrite setitem_run by (eapply setitem_lookup; exact Hd).
    now rewrite with_heap_insert_insert.
  - erewrite setitem_run by (eapply setitem_lookup; exact Hd).
    rewrite with_heap_insert_insert.
    rewrite bind_run. cbn [attr with_heap self].
    rewrite bind_run. erewrite setitem_run by (eapply setitem_lookup; exact Hd).
    now rewrite with_heap_insert_insert.
Qed.

(** A document comes out of [to_dict] only when the selector is assigned
    and the primary interface is a dict. *)
Lemma to_dict_ok_start (s s' : Machine) (doc : Document) :
  to_dict s = (Ok doc, s') ->
  exists sel l d,
    _node_selector (self s) = Some sel /\ iface (self s) = Some l /\
    heap s !! l = Some d.
Proof.
  unfold to_dict. intros H.
  apply bind_ok_inv in H as (res_name & s0 & [-> ->]%attr_ok_inv & H).
  apply bind_ok_inv in H as (sel & s0 & [-> ->]%attr_ok_inv & H).
  destruct (_node_selector (self s)) as [sel|]; [|discriminate].
  apply bind_ok_inv in H as (en & s0 & [-> ->]%attr_ok_inv & H).
  apply bind_ok_inv in H as (dh & s0 & [-> ->]%attr_ok_inv & H).
  apply bind_ok_inv in H as (i & s0 & [-> ->]%attr_ok_inv & H).
  destruct (iface (self s)) as [l|] eqn:Hl; [|discriminate].
  apply bind_ok_inv in H as ([] & s1 & (d & Hd & ->)%setitem_ok_inv & H).
  exists sel, l, d. auto.
Qed.

(** The state and the document at the end of lines 115 to 119. *)
Lemma to_dict_rest_ok_inv (res_name : string) (sel : list (string * string))
    (l : loc) (t s' : Machine) (doc : Document) :
  to_dict_rest res_name sel l t = (Ok doc, s') ->
  exists known : bool,
    set_interface l t = (Ok tt, inserted l t) /\
    in_ifaces l (inserted l t) = (Ok known, inserted l t) /\
    s' = (if known then inserted l t else remembered l (inserted l t)) /\
    contents (desired_state (self s')) s' = (Ok (interfaces doc), s') /\
    metadata_name doc = res_name /\
    nodeSelector doc = match sel with [] => None | _ => Some sel end.
Proof.
  unfold to_dict_rest. intros H.
  apply bind_ok_inv in H as ([] & s4 & H4 & H).
  pose proof (set_interface_ok_inv _ _ _ _ H4) as ->.
  apply bind_ok_inv in H as (known & s5 & H5 & H).
  pose proof (in_ifaces_state l (inserted l t)) as Hs5.
  rewrite H5 in Hs5. cbn [snd] in Hs5. subst s5.
  apply bind_ok_inv in H as ([] & s6 & H6 & H).
  apply bind_ok_inv in H as (ds & s0 & [-> ->]%attr_ok_inv & H).
  apply bind_ok_inv in H as (entries & s7 & H7 & H).
  pose proof (contents_ok_inv _ _ _ _ H7) as [-> _].
  injection H as <- <-. exists known.
  split; [exact H4|]. split; [exact H5|].
  assert (Hs6 : s6 = if known then inserted l t else remembered l (inserted l t)).
  { destruct known; now injection H6 as <-. }
  split; [exact Hs6|]. split; [exact H7|]. split; reflexivity.
Qed.

(** [x in self.ifaces] after [self.ifaces.append(x)]. *)
Lemma in_ifaces_remembered (l : loc) (t : Machine) :
  in_ifaces l t = (Ok false, t) ->
  in_ifaces l (remembered l t) = (Ok true, remembered l t).
Proof.
  unfold in_ifaces. rewrite !bind_run. cbn [attr]. rewrite !bind_run, !deref_run.
  change (heap (remembered l t)) with (heap t).
  destruct (heap t !! l) as [d|]; [|discriminate].
  change (ifaces (self (remembered l t))) with (ifaces (self t) ++ [l]).
  assert (Hgen : forall (xs : list loc) (found b : bool) (t0 t1 t' : Machine),
    heap t' = heap t0 ->
    for_fold xs found (fun x (found : bool) =>
      if found then mret true
      else if Nat.eqb x l then mret true
      else dx ← deref x; mret (bool_decide (dx = d))) t0 = (Ok b, t1) ->
    for_fold (xs ++ [l]) found (fun x (found : bool) =>
      if found then mret true
      else if Nat.eqb x l then mret true
      else dx ← deref x; mret (bool_decide (dx = d))) t' = (Ok true, t')).
  { induction xs as [|x xs IH]; intros found b t0 t1 t' Hheap Hrun.
    - cbn [app for_fold]. rewrite bind_run. destruct found; [reflexivity|].
      now rewrite Nat.eqb_refl.
    - cbn [app for_fold] in *. rewrite bind_run in *. destruct found.
      + cbn [mret M_ret] in *. now apply (IH _ b t0 t1).
      + destruct (Nat.eqb x l).
        * cbn [mret M_ret] in *. now apply (IH _ b t0 t1).
        * rewrite bind_run, deref_run in *. rewrite Hheap.
          destruct (heap t0 !! x); [|discriminate].
          cbn [mret M_ret] in *. now apply (IH _ b t0 t1). }
  intros Hrun. now apply (Hgen _ _ false t t).
Qed.

(** X3.  [to_dict] is idempotent when the primary interface has a name:
    a second call returns the same document and leaves the state as the
    first call left it (the dict is rewritten with the same values, the
    entry stays last in the desired state, [self.ifaces] does not grow). *)
Theorem to_dict_idempotent (s s1 : Machine) (doc : Document) :
  (forall l, iface (self s) = Some l -> is_Some (name_of s l)) ->
  to_dict s = (Ok doc, s1) ->
  to_dict s1 = (Ok doc, s1).
Proof.
  intros Hnamed Hrun.
  destruct (to_dict_ok_start _ _ _ Hrun) as (sel & l & d & Hsel & Hl & Hd).
  specialize (Hnamed l Hl).
  rewrite (to_dict_unfold s sel l d Hsel Hl Hd) in Hrun.
  set (t := with_heap (fun h => <[l := primary_entry (self s) d]> h) s) in *.
  destruct (to_dict_rest_ok_inv _ _ _ _ _ _ Hrun)
    as (known & Hset & Hin & Hs1 & Hcontents & Hname & Hselector).
  assert (Hlt : is_Some (name_of t l)).
  { unfold name_of. unfold t. erewrite setitem_lookup by exact Hd. cbn.
    unfold name_of in Hnamed. rewrite Hd in Hnamed. exact Hnamed. }
  pose proof (set_interface_again l t _ tt Hlt Hset) as Hagain.
  assert (Hheap1 : heap s1 !! l = Some (primary_entry (self s) d)).
  { rewrite Hs1. destruct known; cbn [remembered with_self inserted heap];
      eapply setitem_lookup; exact Hd. }
  assert (Hflags : primary_entry (self s1) (primary_entry (self s) d) =
                   primary_entry (self s) d).
  { rewrite Hs1. destruct known; reflexivity. }
  rewrite (to_dict_unfold s1 sel l (primary_entry (self s) d)).
  2:{ rewrite Hs1. destruct known; exact Hsel. }
  2:{ rewrite Hs1. destruct known; exact Hl. }
  2:{ exact Hheap1. }
  rewrite Hflags, (with_heap_insert_id _ _ _ Hheap1).
  assert (Hname1 : name (self s1) = name (self s)).
  { rewrite Hs1. destruct known; reflexivity. }
  rewrite Hname1.
  unfold to_dict_rest. rewrite bind_run.
  assert (Hset1 : set_interface l s1 = (Ok tt, s1)).
  { rewrite Hs1. destruct known; [exact Hagain|].
    destruct (set_interface_run l (remembered l (inserted l t))) as (r & Hr & Hok).
    rewrite Hr, Hok.
    - change (inserted l (remembered l (inserted l t)))
        with (remembered l (inserted l (inserted l t))).
      now rewrite inserted_inserted.
    - exact (set_interface_ok_named l t _ tt Hlt Hset).
    - exact Hlt. }
  rewrite Hset1, bind_run.
  assert (Hin1 : in_ifaces l s1 = (Ok true, s1)).
  { rewrite Hs1. destruct known; [exact Hin|]. now apply in_ifaces_remembered. }
  rewrite Hin1. cbn [mret M_ret]. rewrite bind_run. cbn [mret M_ret].
  rewrite bind_run. cbn [attr]. rewrite bind_run, Hcontents.
  destruct doc as [n sl es]. cbn in *. now subst.
Qed.

(** X4.  What a call of [to_dict] that returns does to [self.ifaces] and
    to the heap: the primary interface is in [self.ifaces] afterwards (by
    the test of line 116), the list has grown by at most that one
    reference, at its end, and no dict but the primary interface has been
    written. *)
Theorem to_dict_remembers_iface (s s1 : Machine) (doc : Document) :
  to_dict s = (Ok doc, s1) ->
  exists l,
    iface (self s) = Some l /\
    in_ifaces l s1 = (Ok true, s1) /\
    (ifaces (self s1) = ifaces (self s) \/
     (l ∉ ifaces (self s)) /\ ifaces (self s1) = ifaces (self s) ++ [l]) /\
    length (heap s1) = length (heap s) /\
    forall x, x <> l -> heap s1 !! x = heap s !! x.
Proof.
  intros Hrun.
  destruct (to_dict_ok_start _ _ _ Hrun) as (sel & l & d & Hsel & Hl & Hd).
  rewrite (to_dict_unfold s sel l d Hsel Hl Hd) in Hrun.
  set (t := with_heap (fun h => <[l := primary_entry (self s) d]> h) s) in *.
  destruct (to_dict_rest_ok_inv _ _ _ _ _ _ Hrun)
    as (known & Hset & Hin & Hs1 & _).
  exists l. split; [exact Hl|]. split; [|split; [|split]].
  - rewrite Hs1. destruct known; [exact Hin | now apply in_ifaces_remembered].
  - rewrite Hs1. destruct known; [now left | right].
    split; [|reflexivity]. exact (in_ifaces_false _ _ _ Hin).
  - rewrite Hs1. destruct known; cbn [remembered with_self inserted heap t with_heap];
      apply length_insert.
  - intros x Hx. rewrite Hs1.
    destruct known; cbn [remembered with_self inserted heap t with_heap];
      apply list_lookup_insert_ne; congruence.
Qed.

(** X5.  A primary interface without a ["name"] key gets through
    [to_dict] once, and only into an empty desired state: the
    comprehension of [set_interface] has no entry to compare it with.
    The next call of [to_dict] raises [KeyError("name")], with the state
    as the first call left it. *)
Theorem to_dict_nameless_iface_once (s s1 : Machine) (doc : Document) (l : loc) :
  iface (self s) = Some l -> name_of s l = None ->
  to_dict s = (Ok doc, s1) ->
  desired_state (self s) = [] /\
  desired_state (self s1) = [l] /\
  to_dict s1 = (Raise (KeyError "name"), s1).
Proof.
  intros Hl Hnameless Hrun.
  destruct (to_dict_ok_start _ _ _ Hrun) as (sel & l' & d & Hsel & Hl' & Hd).
  assert (l' = l) as -> by congruence.
  rewrite (to_dict_unfold s sel l d Hsel Hl Hd) in Hrun.
  set (t := with_heap (fun h => <[l := primary_entry (self s) d]> h) s) in *.
  destruct (to_dict_rest_ok_inv _ _ _ _ _ _ Hrun)
    as (known & Hset & Hin & Hs1 & _).
  assert (Hd_name : Iface.name d = None).
  { unfold name_of in Hnameless. now rewrite Hd in Hnameless. }
  assert (Hheap1 : heap s1 !! l = Some (primary_entry (self s) d)).
  { rewrite Hs1. destruct known; cbn [remembered with_self inserted heap];
      eapply setitem_lookup; exact Hd. }
  assert (Hempty : desired_state (self s) = []).
  { destruct (desired_state (self s)) as [|i ds] eqn:Hds; [reflexivity|].
    unfold set_interface in Hset. rewrite bind_run in Hset. cbn [attr] in Hset.
    rewrite bind_run in Hset.
    destruct (for_fold (desired_state (self t)) [] (keep_other l) t)
      as [[v|e|w] s0] eqn:Hfold; try discriminate.
    change (desired_state (self t)) with (desired_state (self s)) in Hfold.
    rewrite Hds in Hfold.
    destruct (keep_other_ok_named l (i :: ds) [] t s0 v Hfold) as [_ [n Hn]];
      [discriminate|].
    unfold name_of, t in Hn. erewrite setitem_lookup in Hn by exact Hd.
    cbn in Hn. congruence. }
  assert (Hlist : desired_state (self s1) = [l]).
  { rewrite Hs1. destruct known; cbn; now rewrite Hempty. }
  split; [exact Hempty|]. split; [exact Hlist|].
  assert (Hflags : primary_entry (self s1) (primary_entry (self s) d) =
                   primary_entry (self s) d).
  { rewrite Hs1. destruct known; reflexivity. }
  rewrite (to_dict_unfold s1 sel l (primary_entry (self s) d)).
  2:{ rewrite Hs1. destruct known; exact Hsel. }
  2:{ rewrite Hs1. destruct known; exact Hl. }
  2:{ exact Hheap1. }
  rewrite Hflags, (with_heap_insert_id _ _ _ Hheap1).
  unfold to_dict_rest, set_interface. rewrite !bind_run. cbn [attr].
  rewrite Hlist. cbn [for_fold]. rewrite !bind_run, keep_other_unfold.
  rewrite getitem_name_run, Hheap1. cbn. now rewrite Hd_name.
Qed.

(** ** [wait_for_status_success]: a status that does not settle *)

Lemma status_phase_timeout (t : Machine) :
  (forall i, (i < 30)%nat -> ~ terminal (reason_at t i)) ->
  exists t',
    try_except (sampler_loop 30 1 None status judge) unable t =
      (Raise TimeoutExpiredError, t') /\
    clock (world t') = clock (world t) + 30 /\
    conditions_reads (world t') = (conditions_reads (world t) + 30)%nat /\
    LOGGER t' = LOGGER t ++ [ERROR "Unable to configure NNCP for node"].
Proof.
  intros Hpending. unfold try_except.
  pose proof (status_loop_pending 30 0 t Hpending) as Hloop.
  change (30 + 0)%nat with 30%nat in Hloop. rewrite Hloop.
  destruct (polled_world 30 t) as (Hc & Hr & Hl & _).
  revert Hc Hr Hl. generalize (polled 30 t). intros p Hc Hr Hl.
  exists (with_LOGGER (fun l => l ++ [ERROR "Unable to configure NNCP for node"]) p).
  split; [reflexivity|]. cbn [with_LOGGER world LOGGER].
  rewrite Hc, Hr, Hl. auto.
Qed.

(** X6.  The second window of [wait_for_status_success] is as long as
    the first.  When the conditions show up at read [j] and none of the
    next thirty samples of the status is the success or the failure
    reason (the reason of the Available condition is something else, or
    there is no Available condition), the call raises
    [TimeoutExpiredError] at time [j + 30] and, unlike the timeout of the
    first window, logs "Unable to configure NNCP for node". *)
Theorem wait_for_status_success_stalls (s : Machine) (j : nat) :
  (j < 30)%nat ->
  (forall i, (i < j)%nat -> conditions_at s i = []) ->
  conditions_at s j <> [] ->
  (forall i, (i < 30)%nat -> ~ terminal (reason_at s (j + 1 + i))) ->
  exists s', wait_for_status_success s = (Raise TimeoutExpiredError, s') /\
    clock (world s') = clock (world s) + Z.of_nat j + 30 /\
    conditions_reads (world s') = (conditions_reads (world s) + j + 31)%nat /\
    LOGGER s' = LOGGER s ++ [ERROR "Unable to configure NNCP for node"].
Proof.
  intros Hj Hempty Hfound Hpending.
  rewrite (wait_for_status_success_found s j Hj Hempty Hfound).
  destruct (status_phase_timeout (with_world tick_conditions_reads (polled j s)))
    as (s' & Hrun & Hc & Hr & Hl).
  { intros i Hi. rewrite reason_at_found. auto. }
  exists s'. split; [exact Hrun|].
  destruct (polled_world j s) as (Hc' & Hr' & Hl' & _).
  rewrite Hc, Hr, Hl.
  cbn [with_world world LOGGER tick_conditions_reads clock conditions_reads].
  rewrite Hc', Hr', Hl'. repeat split; lia.
Qed.

(** ** [validate_create] and [wait_for_interface_deleted] *)

Lemma for_each_app {A} (xs ys : list A) (body : A -> M unit) (s : Machine) :
  for_each (xs ++ ys) body s = (for_each xs body;; for_each ys body) s.
Proof.
  revert s. induction xs as [|x xs IH]; intros s; [reflexivity|].
  cbn [app for_each]. rewrite !bind_run.
  destruct (body x s) as [[[]|e|w] s1]; [|reflexivity..].
  rewrite IH. now rewrite bind_run.
Qed.

Section Waits.
(** One way of waiting on a node for an interface: the call is recorded
    in a log of the world, and the oracle answers by the number of the
    call. *)
Variable wait : string -> string -> M unit.
Variable logged : World -> list (string * string).
Variable feed : Oracle -> nat -> option Exn.
Hypothesis wait_run : forall (node n : string) (s : Machine),
  exists s', wait node n s =
    (match feed (oracle s) (length (logged (world s))) with
     | None => Ok tt
     | Some e => Raise e
     end, s') /\
    self s' = self s /\ heap s' = heap s /\ oracle s' = oracle s /\
    logged (world s') = logged (world s) ++ [(node, n)].

(** The waits [todo] one after the other, when the first [k] of them
    succeed. *)
Lemma waits_run (todo : list (string * string)) : forall (s : Machine) (k : nat),
  (k <= length todo)%nat ->
  (forall i, (i < k)%nat -> feed (oracle s) (length (logged (world s)) + i) = None) ->
  (k = length todo ->
   exists s', for_each todo (fun c => wait c.1 c.2) s = (Ok tt, s') /\
     self s' = self s /\ heap s' = heap s /\
     logged (world s') = logged (world s) ++ todo) /\
  (forall e, (k < length todo)%nat ->
   feed (oracle s) (length (logged (world s)) + k) = Some e ->
   exists s', for_each todo (fun c => wait c.1 c.2) s = (Raise e, s') /\
     self s' = self s /\ heap s' = heap s /\
     logged (world s') = logged (world s) ++ take (S k) todo).
Proof.
  induction todo as [|[node n] todo IH]; intros s k Hk Hnone.
  - split; [|cbn; lia]. intros _. exists s. rewrite app_nil_r. auto.
  - cbn [for_each fst snd]. rewrite bind_run.
    destruct (wait_run node n s) as (s1 & Hw & Hself & Hheap & Horacle & Hlog).
    rewrite Hw. destruct k as [|k].
    + split; [cbn; lia|]. intros e _ He. rewrite Nat.add_0_r in He. rewrite He.
      exists s1. auto.
    + pose proof (Hnone 0%nat ltac:(lia)) as H0. rewrite Nat.add_0_r in H0.
      rewrite H0. cbn [length] in Hk.
      destruct (IH s1 k) as [Hall Hfail]; [lia| |].
      { intros i Hi. rewrite Horacle, Hlog, length_app. cbn [length].
        replace (length (logged (world s)) + 1 + i)%nat
          with (length (logged (world s)) + S i)%nat by lia.
        apply Hnone. lia. }
      split.
      * intros Hlen. destruct Hall as (s' & Hrun & Hs & Hh & Hl);
          [cbn [length] in Hlen; lia|].
        exists s'. rewrite Hrun, Hs, Hh, Hl, Hlog, <- app_assoc. auto.
      * intros e Hlt He. destruct (Hfail e) as (s' & Hrun & Hs & Hh & Hl).
        { cbn [length] in Hlt. lia. }
        { rewrite Horacle, Hlog, length_app. cbn [length].
          replace (length (logged (world s)) + 1 + k)%nat
            with (length (logged (world s)) + S k)%nat by lia. exact He. }
        exists s'. rewrite Hrun, Hs, Hh, Hl, Hlog, <- app_assoc. auto.
Qed.

Lemma waits_frame (todo : list (string * string)) :
  forall (s s' : Machine) (r : Result unit),
  for_each todo (fun c => wait c.1 c.2) s = (r, s') ->
  self s' = self s /\ heap s' = heap s.
Proof.
  induction todo as [|[node n] todo IH]; intros s s' r.
  - intros [= _ <-]. auto.
  - cbn [for_each fst snd]. rewrite bind_run.
    destruct (wait_run node n s) as (s1 & Hw & Hself & Hheap & _).
    rewrite Hw. destruct (feed (oracle s) (length (logged (world s)))).
    + intros [= _ <-]. auto.
    + intros H. apply IH in H as [-> ->]. auto.
Qed.

(** The inner loop, for the node of one pod. *)
Lemma waits_of_node (node : string) (s0 : Machine) (ifs : list loc)
    (names : list string) :
  Forall2 (fun l n => name_of s0 l = Some n) ifs names ->
  forall s, heap s = heap s0 ->
  for_each ifs (fun iface => n ← getitem_name iface; wait node n) s =
  for_each (map (fun n => (node, n)) names) (fun c => wait c.1 c.2) s.
Proof.
  induction 1 as [|l n ifs names Hn _ IH]; intros s Hheap; [reflexivity|].
  cbn [map for_each fst snd]. rewrite !bind_run.
  rewrite (getitem_name_named l s n)
    by (unfold name_of in *; now rewrite Hheap).
  destruct (wait_run node n s) as (s1 & Hw & _ & Hheap1 & _). rewrite Hw.
  destruct (feed (oracle s) (length (logged (world s)))); [reflexivity|].
  apply IH. congruence.
Qed.

(** The two nested loops make the calls of [calls_per_node], one after
    the other. *)
Lemma waits_of_pods (s0 : Machine) (names : list string) (pods : list Pod) :
  Forall2 (fun l n => name_of s0 l = Some n) (ifaces (self s0)) names ->
  forall s, self s = self s0 -> heap s = heap s0 ->
  for_each pods (fun pod =>
    ifs ← attr ifaces;
    for_each ifs (fun iface => n ← getitem_name iface; wait (node_name pod) n)) s =
  for_each (calls_per_node pods names) (fun c => wait c.1 c.2) s.
Proof.
  intros Hnames. induction pods as [|pod pods IH]; intros s Hself Hheap;
    [reflexivity|].
  cbn [calls_per_node flat_map for_each]. rewrite for_each_app, !bind_run.
  cbn [attr]. rewrite Hself.
  rewrite (waits_of_node (node_name pod) s0 _ names Hnames s Hheap).
  destruct (for_each (map (fun n => (node_name pod, n)) names)
              (fun c => wait c.1 c.2) s) as [[[]|e|w] s1] eqn:Hrun;
    [|reflexivity..].
  apply waits_frame in Hrun as [Hs Hh]. apply IH; congruence.
Qed.
End Waits.

Lemma wait_until_up_run (node n : string) (s : Machine) :
  exists s', wait_until_up node n s =
    (match wait_until_up_feed (oracle s) (length (waited_up (world s))) with
     | None => Ok tt
     | Some e => Raise e
     end, s') /\
    self s' = self s /\ heap s' = heap s /\ oracle s' = oracle s /\
    waited_up (world s') = waited_up (world s) ++ [(node, n)].
Proof.
  exists (with_world (log_waited_up (node, n)) s). split; [|auto].
  unfold wait_until_up. rewrite bind_run. cbn [get]. rewrite bind_run. cbn [modify].
  now destruct (wait_until_up_feed (oracle s) (length (waited_up (world s)))).
Qed.

Lemma wait_until_deleted_run (node n : string) (s : Machine) :
  exists s', wait_until_deleted node n s =
    (match wait_until_deleted_feed (oracle s) (length (waited_deleted (world s))) with
     | None => Ok tt
     | Some e => Raise e
     end, s') /\
    self s' = self s /\ heap s' = heap s /\ oracle s' = oracle s /\
    waited_deleted (world s') = waited_deleted (world s) ++ [(node, n)].
Proof.
  exists (with_world (log_waited_deleted (node, n)) s). split; [|auto].
  unfold wait_until_deleted. rewrite bind_run. cbn [get]. rewrite bind_run.
  cbn [modify].
  now destruct (wait_until_deleted_feed (oracle s) (length (waited_deleted (world s)))).
Qed.

(** X7.  [validate_create] waits for every interface of [self.ifaces] on
    the node of every worker pod, node by node, and gives up at the first
    wait that raises.  When the first [k] waits succeed and they are all
    the waits there are, the call returns with exactly these waits made;
    when the next wait raises [e], the call raises [e] and the waits
    after it are not made.  The policy and its dicts are left alone. *)
Theorem validate_create_waits (s : Machine) (pods : list Pod) (names : list string)
    (k : nat) :
  worker_pods (self s) = Some pods ->
  Forall2 (fun l n => name_of s l = Some n) (ifaces (self s)) names ->
  (k <= length (calls_per_node pods names))%nat ->
  (forall i, (i < k)%nat ->
     wait_until_up_feed (oracle s) (length (waited_up (world s)) + i) = None) ->
  (k = length (calls_per_node pods names) ->
   exists s', validate_create s = (Ok tt, s') /\
     self s' = self s /\ heap s' = heap s /\
     waited_up (world s') = waited_up (world s) ++ calls_per_node pods names) /\
  (forall e, (k < length (calls_per_node pods names))%nat ->
   wait_until_up_feed (oracle s) (length (waited_up (world s)) + k) = Some e ->
   exists s', validate_create s = (Raise e, s') /\
     self s' = self s /\ heap s' = heap s /\
     waited_up (world s') =
       waited_up (world s) ++ take (S k) (calls_per_node pods names)).
Proof.
  intros Hpods Hnames Hk Hnone.
  assert (Hrun : validate_create s =
    for_each (calls_per_node pods names) (fun c => wait_until_up c.1 c.2) s).
  { unfold validate_create, iter_worker_pods. rewrite !bind_run. cbn [attr].
    rewrite Hpods. cbn [mret M_ret].
    now apply (waits_of_pods wait_until_up waited_up wait_until_up_feed
                 wait_until_up_run s names pods Hnames). }
  rewrite Hrun.
  exact (waits_run wait_until_up waited_up wait_until_up_feed wait_until_up_run
           (calls_per_node pods names) s k Hk Hnone).
Qed.

(** X8.  [wait_for_interface_deleted] has the same shape: one
    [wait_until_deleted] per worker pod and interface of [self.ifaces],
    node by node, up to the first wait that raises; the exception of that
    wait, a [TimeoutExpiredError] when the interface is still there,
    leaves the loops, so the interfaces and nodes after it are not waited
    for in this call. *)
Theorem wait_for_interface_deleted_waits (s : Machine) (pods : list Pod)
    (names : list string) (k : nat) :
  worker_pods (self s) = Some pods ->
  Forall2 (fun l n => name_of s l = Some n) (ifaces (self s)) names ->
  (k <= length (calls_per_node pods names))%nat ->
  (forall i, (i < k)%nat ->
     wait_until_deleted_feed (oracle s) (length (waited_deleted (world s)) + i) = None) ->
  (k = length (calls_per_node pods names) ->
   exists s', wait_for_interface_deleted s = (Ok tt, s') /\
     self s' = self s /\ heap s' = heap s /\
     waited_deleted (world s') =
       waited_deleted (world s) ++ calls_per_node pods names) /\
  (forall e, (k < length (calls_per_node pods names))%nat ->
   wait_until_deleted_feed (oracle s) (length (waited_deleted (world s)) + k) = Some e ->
   exists s', wait_for_interface_deleted s = (Raise e, s') /\
     self s' = self s /\ heap s' = heap s /\
     waited_deleted (world s') =
       waited_deleted (world s) ++ take (S k) (calls_per_node pods names)).
Proof.
  intros Hpods Hnames Hk Hnone.
  assert (Hrun : wait_for_interface_deleted s =
    for_each (calls_per_node pods names) (fun c => wait_until_deleted c.1 c.2) s).
  { unfold wait_for_interface_deleted, iter_worker_pods. rewrite !bind_run. cbn [attr].
    rewrite Hpods. cbn [mret M_ret].
    now apply (waits_of_pods wait_until_deleted waited_deleted wait_until_deleted_feed
                 wait_until_deleted_run s names pods Hnames). }
  rewrite Hrun.
  exact (waits_run wait_until_deleted waited_deleted wait_until_deleted_feed
           wait_until_deleted_run (calls_per_node pods names) s k Hk Hnone).
Qed.

(** ** [clean_up]: the turns it skips, and a DHCP policy without pods *)

Lemma restore_mtu_off (s : Machine) :
  truthy_int (mtu (self s)) = false -> restore_mtu s = (Ok tt, s).
Proof. intros H. unfold restore_mtu. rewrite bind_run. cbn [attr]. now rewrite H. Qed.

Lemma clean_up_iface_skips (s : Machine) (l : loc) :
  active_nic s l -> clean_up_iface l s = (Ok tt, s).
Proof.
  intros (n & Hn & Hnic). unfold clean_up_iface.
  rewrite bind_run, (getitem_name_named _ _ _ Hn). cbn beta iota.
  rewrite bind_run. cbn [attr]. now rewrite Hnic.
Qed.

(** The loop of [clean_up] over a stretch of physical NICs. *)
Lemma for_ifaces_skips (s : Machine) (skipped : list loc) :
  forall (fuel i : nat),
  (forall j, (j < length skipped)%nat ->
     ifaces (self s) !! (i + j)%nat = skipped !! j) ->
  Forall (active_nic s) skipped ->
  for_ifaces (length skipped + fuel) i clean_up_iface s =
  for_ifaces fuel (i + length skipped) clean_up_iface s.
Proof.
  induction skipped as [|l skipped IH]; intros fuel i Hlook Hnics.
  - cbn [length]. now rewrite Nat.add_0_r.
  - apply Forall_cons in Hnics as [Hl Hnics].
    cbn [length Nat.add]. rewrite for_ifaces_unfold.
    pose proof (Hlook 0%nat) as H0. rewrite Nat.add_0_r in H0.
    rewrite H0 by (cbn; lia). cbn [lookup list_lookup].
    rewrite bind_run, (clean_up_iface_skips s l Hl).
    rewrite IH; [f_equal; lia | | exact Hnics].
    intros j Hj. replace (S i + j)%nat with (i + S j)%nat by lia.
    rewrite Hlook by (cbn; lia). reflexivity.
Qed.

(** X9.  When every interface the policy has configured is a physical
    NIC of the nodes and there is no MTU to put back, [clean_up] marks
    nothing absent and submits nothing: it is the call of [delete]. *)
Theorem clean_up_of_active_nics_only_deletes (s : Machine) :
  truthy_int (mtu (self s)) = false ->
  Forall (active_nic s) (ifaces (self s)) ->
  clean_up s = delete s /\
  self (clean_up s).2 = self s /\ heap (clean_up s).2 = heap s /\
  updated (world (clean_up s).2) = updated (world s) /\
  waited_deleted (world (clean_up s).2) = waited_deleted (world s) /\
  deleted (world (clean_up s).2) = S (deleted (world s)).
Proof.
  intros Hmtu Hnics.
  assert (Hrun : clean_up s = delete s).
  { unfold clean_up. rewrite bind_run, (restore_mtu_off s Hmtu).
    rewrite bind_run. cbn [attr]. rewrite bind_run.
    replace (S (length (ifaces (self s)))) with (length (ifaces (self s)) + 1)%nat by lia.
    rewrite (for_ifaces_skips s (ifaces (self s)) 1 0) by auto.
    rewrite for_ifaces_unfold, lookup_ge_None_2 by (cbn; lia). reflexivity. }
  split; [exact Hrun|]. rewrite Hrun, delete_run. cbn. auto.
Qed.

Lemma absent_one_without_pods (s : Machine) (b : loc) (d : Iface.dict) :
  _ipv4_dhcp (self s) = true ->
  worker_pods (self s) = None \/ worker_pods (self s) = Some [] ->
  Forall (fun l => is_Some (name_of s l)) (desired_state (self s)) ->
  heap s !! b = Some d -> is_Some (Iface.name d) ->
  absent_one b s =
  (Raise (no_pods_error (worker_pods (self s))),
   inserted b (with_heap (fun h => <[b := Iface.set_state Interface.State.ABSENT d]> h) s)).
Proof.
  intros Hdhcp Hpods Hdesired Hb Hd. unfold absent_one.
  rewrite bind_run, (setitem_run _ _ d) by exact Hb.
  set (s1 := with_heap _ s).
  assert (Hname : forall l, name_of s1 l = name_of s l).
  { intros l. apply (name_of_setitem s b l d); [exact Hb | reflexivity]. }
  rewrite bind_run.
  destruct (set_interface_run b s1) as (r & Hr & Hok). rewrite Hr, Hok.
  2:{ eapply Forall_impl; [exact Hdesired|]. intros l Hl. cbn beta. now rewrite Hname. }
  2:{ rewrite Hname. unfold name_of. rewrite Hb. exact Hd. }
  rewrite bind_run. cbn [attr].
  change (_ipv4_dhcp (self (inserted b s1))) with (_ipv4_dhcp (self s)).
  rewrite Hdhcp. unfold restore_dhcp, iter_worker_pods. rewrite !bind_run. cbn [attr].
  change (worker_pods (self (inserted b s1))) with (worker_pods (self s)).
  destruct Hpods as [-> | ->]; reflexivity.
Qed.

(** X10.  Cleaning up a DHCP policy that has no worker pods to ask never
    deletes the resource.  In the first turn for an interface that is
    not a physical NIC, [_absent_interface] marks the first interface of
    [self.ifaces] absent and then fails on the node states: with
    [worker_pods=[]] the dict of changed ports is empty and
    [next(iter(...))] raises [StopIteration], with [worker_pods=None]
    the loop over the pods raises [TypeError].  Neither is a
    [TimeoutExpiredError], so the exception leaves [clean_up] before
    anything is submitted or deleted. *)
Theorem clean_up_dhcp_without_pods (s : Machine) (skipped rest : list loc)
    (b first : loc) (n : string) (d : Iface.dict) :
  truthy_int (mtu (self s)) = false ->
  _ipv4_dhcp (self s) = true ->
  worker_pods (self s) = None \/ worker_pods (self s) = Some [] ->
  ifaces (self s) = skipped ++ b :: rest ->
  Forall (active_nic s) skipped ->
  name_of s b = Some n -> str_in n (node_active_nics (self s)) = false ->
  Forall (fun l => is_Some (name_of s l)) (desired_state (self s)) ->
  head (ifaces (self s)) = Some first ->
  heap s !! first = Some d -> is_Some (Iface.name d) ->
  exists s',
    clean_up s = (Raise (no_pods_error (worker_pods (self s))), s') /\
    s' = inserted first
           (with_heap (fun h => <[first := Iface.set_state Interface.State.ABSENT d]> h) s) /\
    absent_in s' first /\
    updated (world s') = updated (world s) /\
    deleted (world s') = deleted (world s).
Proof.
  intros Hmtu Hdhcp Hpods Hifs Hnics Hn Hnic Hdesired Hfirst Hd Hnamed.
  assert (Hlist : exists ifs, ifaces (self s) = first :: ifs).
  { destruct (ifaces (self s)) as [|f ifs]; [discriminate|].
    injection Hfirst as ->. eauto. }
  destruct Hlist as [ifs Hlist].
  eexists. split; [|split; [reflexivity|]].
  - unfold clean_up. rewrite bind_run, (restore_mtu_off s Hmtu).
    rewrite bind_run. cbn [attr]. rewrite bind_run.
    replace (S (length (ifaces (self s))))
      with (length skipped + S (S (length rest)))%nat
      by (rewrite Hifs, length_app; cbn [length]; lia).
    rewrite (for_ifaces_skips s skipped _ 0).
    2:{ intros j Hj. rewrite Hifs. cbn. now apply lookup_app_l. }
    2:{ exact Hnics. }
    rewrite for_ifaces_unfold. cbn [Nat.add].
    rewrite Hifs, list_lookup_middle by reflexivity.
    rewrite bind_run. unfold clean_up_iface at 1.
    rewrite bind_run, (getitem_name_named _ _ _ Hn). cbn beta iota.
    rewrite bind_run. cbn [attr]. rewrite Hnic. unfold try_except.
    unfold _absent_interface, absent_all. rewrite !bind_run. cbn [attr].
    rewrite Hlist. cbn [for_each]. rewrite bind_run.
    rewrite (absent_one_without_pods s first d Hdhcp Hpods Hdesired Hd Hnamed).
    destruct Hpods as [-> | ->]; reflexivity.
  - split; [|split; reflexivity].
    exists (Iface.set_state Interface.State.ABSENT d). split; [|reflexivity].
    cbn [inserted with_self heap]. eapply setitem_lookup. exact Hd.
Qed.

(** ** [_absent_interface] with DHCP off *)

Lemma absent_one_quiet (s : Machine) (b : loc) (d : Iface.dict) :
  _ipv4_dhcp (self s) = false ->
  Forall (fun l => is_Some (name_of s l)) (desired_state (self s)) ->
  heap s !! b = Some d -> is_Some (Iface.name d) ->
  absent_one b s = (Ok tt, marked_absent b d s).
Proof.
  intros Hdhcp Hdesired Hb Hd. unfold absent_one, marked_absent.
  rewrite bind_run, (setitem_run _ _ d) by exact Hb.
  set (s1 := with_heap _ s).
  assert (Hname : forall l, name_of s1 l = name_of s l).
  { intros l. apply (name_of_setitem s b l d); [exact Hb | reflexivity]. }
  rewrite bind_run.
  destruct (set_interface_run b s1) as (r & Hr & Hok). rewrite Hr, Hok.
  2:{ eapply Forall_impl; [exact Hdesired|]. intros l Hl. cbn beta. now rewrite Hname. }
  2:{ rewrite Hname. unfold name_of. rewrite Hb. exact Hd. }
  rewrite bind_run. cbn [attr].
  change (_ipv4_dhcp (self (inserted b s1))) with (_ipv4_dhcp (self s)).
  now rewrite Hdhcp.
Qed.

Lemma name_of_marked_absent (s : Machine) (b l : loc) (d : Iface.dict) :
  heap s !! b = Some d -> name_of (marked_absent b d s) l = name_of s l.
Proof.
  intros Hb. unfold marked_absent. rewrite name_of_inserted.
  apply (name_of_setitem s b l d); [exact Hb | reflexivity].
Qed.

Lemma marked_absent_marks (s : Machine) (b : loc) (d : Iface.dict) :
  heap s !! b = Some d -> absent_in (marked_absent b d s) b.
Proof.
  intros Hb. exists (Iface.set_state Interface.State.ABSENT d). split; [|reflexivity].
  cbn [marked_absent inserted with_self heap]. eapply setitem_lookup. exact Hb.
Qed.

Lemma marked_absent_other (s : Machine) (b l : loc) (d : Iface.dict) :
  l <> b -> heap (marked_absent b d s) !! l = heap s !! l.
Proof.
  intros Hne. cbn [marked_absent inserted with_self with_heap heap].
  apply list_lookup_insert_ne. congruence.
Qed.

Lemma marked_absent_keeps (s : Machine) (b l : loc) (d : Iface.dict) :
  heap s !! b = Some d -> absent_in s l -> absent_in (marked_absent b d s) l.
Proof.
  intros Hb Hl. destruct (decide (l = b)) as [->|Hne].
  - now apply marked_absent_marks.
  - destruct Hl as (dl & Hdl & Hst). exists dl.
    now rewrite marked_absent_other.
Qed.

(** The entry of the interface just handled asks for its removal, and
    what the desired state asked to remove before, it still asks. *)
Lemma marked_absent_asks (s : Machine) (b : loc) (d : Iface.dict) (n : string) :
  heap s !! b = Some d -> Iface.name d = Some n ->
  asks_absent (marked_absent b d s) n /\
  forall m, asks_absent s m -> asks_absent (marked_absent b d s) m.
Proof.
  intros Hb Hn.
  assert (Hnb : name_of s b = Some n) by (unfold name_of; now rewrite Hb).
  assert (Hnew : asks_absent (marked_absent b d s) n).
  { exists b. split; [|split].
    - cbn [marked_absent inserted with_self self set_desired_state desired_state].
      apply elem_of_app. right. now apply list_elem_of_singleton.
    - now rewrite name_of_marked_absent.
    - now apply marked_absent_marks. }
  split; [exact Hnew|]. intros m (l & Hl & Hm & Habs).
  destruct (decide (m = n)) as [->|Hne]; [exact Hnew|].
  exists l. split; [|split].
  - cbn [marked_absent inserted with_self self set_desired_state desired_state].
    apply elem_of_app. left. apply list_elem_of_filter. split; [|exact Hl].
    rewrite !(name_of_setitem s b _ d) by (exact Hb || reflexivity). congruence.
  - now rewrite name_of_marked_absent.
  - now apply marked_absent_keeps.
Qed.

Lemma named_marked_absent (s : Machine) (b : loc) (d : Iface.dict) :
  heap s !! b = Some d -> is_Some (Iface.name d) ->
  Forall (fun l => is_Some (name_of s l)) (desired_state (self s)) ->
  Forall (fun l => is_Some (name_of (marked_absent b d s) l))
    (desired_state (self (marked_absent b d s))).
Proof.
  intros Hb Hd Hdesired. unfold marked_absent. apply named_inserted.
  - eapply Forall_impl; [exact Hdesired|]. intros l Hl. cbn beta.
    now rewrite (name_of_setitem s b l d).
  - rewrite (name_of_setitem s b b d) by (exact Hb || reflexivity).
    unfold name_of. now rewrite Hb.
Qed.

(** The loop of [_absent_interface] over the interfaces [bs]. *)
Lemma absent_each_quiet (bs : list loc) : forall s : Machine,
  _ipv4_dhcp (self s) = false ->
  Forall (fun l => is_Some (name_of s l)) (desired_state (self s)) ->
  Forall (fun l => is_Some (name_of s l)) bs ->
  exists s', for_each bs absent_one s = (Ok tt, s') /\
    (forall l, name_of s' l = name_of s l) /\
    (forall l, absent_in s l -> absent_in s' l) /\
    (forall b, b ∈ bs -> absent_in s' b) /\
    (forall l, l ∉ bs -> heap s' !! l = heap s !! l) /\
    (forall n, asks_absent s n -> asks_absent s' n) /\
    (forall b n, b ∈ bs -> name_of s b = Some n -> asks_absent s' n) /\
    length (heap s') = length (heap s) /\
    ifaces (self s') = ifaces (self s) /\ world s' = world s /\
    LOGGER s' = LOGGER s.
Proof.
  induction bs as [|b bs IH]; intros s Hdhcp Hdesired Hbs.
  - exists s. split; [reflexivity|]. repeat split; auto.
    + intros b Hb. now apply elem_of_nil in Hb.
    + intros b n Hb. now apply elem_of_nil in Hb.
  - apply Forall_cons in Hbs as [[n Hn] Hbs].
    destruct (heap s !! b) as [d|] eqn:Hb;
      [|unfold name_of in Hn; rewrite Hb in Hn; discriminate].
    assert (Hd : Iface.name d = Some n) by (unfold name_of in Hn; now rewrite Hb in Hn).
    cbn [for_each]. rewrite bind_run.
    rewrite (absent_one_quiet s b d Hdhcp Hdesired Hb) by (rewrite Hd; eauto).
    destruct (marked_absent_asks s b d n Hb Hd) as [Hasks Hkeep].
    destruct (IH (marked_absent b d s)) as
      (s' & Hrun & Hnames & Habs & Hall & Hother & Hask & Hask' & Hlen & Hifs & Hw & Hlog).
    { exact Hdhcp. }
    { apply named_marked_absent; [exact Hb | rewrite Hd; eauto | exact Hdesired]. }
    { eapply Forall_impl; [exact Hbs|]. intros l Hl. cbn beta.
      now rewrite name_of_marked_absent. }
    exists s'. split; [exact Hrun|]. split; [|split; [|split; [|split; [|split; [|split]]]]].
    + intros l. rewrite Hnames. now apply name_of_marked_absent.
    + intros l Hl. apply Habs. now apply marked_absent_keeps.
    + intros x [->|Hx]%elem_of_cons; [|now apply Hall].
      apply Habs. now apply marked_absent_marks.
    + intros l [Hne Hl]%not_elem_of_cons. rewrite Hother by exact Hl.
      now apply marked_absent_other.
    + intros m Hm. apply Hask. now apply Hkeep.
    + intros x m [->|Hx]%elem_of_cons Hm.
      * apply Hask. assert (m = n) as -> by congruence. exact Hasks.
      * apply (Hask' x m Hx). now rewrite name_of_marked_absent.
    + rewrite Hlen, Hifs, Hw, Hlog. cbn [marked_absent inserted with_self with_heap heap].
      rewrite length_insert. auto.
Qed.

(** X11.  With DHCP off, [_absent_interface] sets ["state": "absent"] in
    the dict of every interface of [self.ifaces], whatever interface the
    caller is cleaning up, and puts each of them into the desired state:
    for every name among them the desired state ends up with an entry of
    that name that is absent.  It creates no dict, writes no dict outside
    [self.ifaces], renames nothing and talks to no collaborator before
    the single [apply] that follows the loop. *)
Theorem _absent_interface_marks_all (s : Machine) :
  _ipv4_dhcp (self s) = false ->
  Forall (fun l => is_Some (name_of s l)) (desired_state (self s)) ->
  Forall (fun l => is_Some (name_of s l)) (ifaces (self s)) ->
  exists s',
    absent_all s = (Ok tt, s') /\
    _absent_interface s = apply s' /\
    (forall b, b ∈ ifaces (self s) -> absent_in s' b) /\
    (forall b n, b ∈ ifaces (self s) -> name_of s b = Some n -> asks_absent s' n) /\
    (forall l, name_of s' l = name_of s l) /\
    (forall l, l ∉ ifaces (self s) -> heap s' !! l = heap s !! l) /\
    length (heap s') = length (heap s) /\
    ifaces (self s') = ifaces (self s) /\ world s' = world s.
Proof.
  intros Hdhcp Hdesired Hifs.
  destruct (absent_each_quiet (ifaces (self s)) s Hdhcp Hdesired Hifs) as
    (s' & Hrun & Hnames & Habs & Hall & Hother & Hask & Hask' & Hlen & Hifs' & Hw & Hlog).
  assert (Hloop : absent_all s = (Ok tt, s')).
  { unfold absent_all. rewrite bind_run. cbn [attr]. exact Hrun. }
  exists s'. split; [exact Hloop|]. split.
  - unfold _absent_interface. now rewrite bind_run, Hloop.
  - repeat split; auto.
Qed.

(** ** The MTU of the ports: [clean_up] puts it back *)

Lemma push_run (d : Iface.dict) (s : Machine) :
  Forall (fun l => is_Some (name_of s l)) (desired_state (self s)) ->
  is_Some (Iface.name d) ->
  (interface ← alloc d; set_interface interface) s = (Ok tt, pushed d s).
Proof.
  intros Hdesired Hd. rewrite bind_run, alloc_run. unfold pushed.
  set (s1 := with_heap _ s).
  destruct (set_interface_run (length (heap s)) s1) as (r & Hr & Hok).
  rewrite Hr, Hok; [reflexivity| |].
  - now apply named_alloc.
  - unfold s1. now rewrite name_of_alloc_new.
Qed.

Lemma lookup_pushed (d : Iface.dict) (s : Machine) (l : loc) (e : Iface.dict) :
  heap s !! l = Some e -> heap (pushed d s) !! l = Some e.
Proof.
  intros H. cbn [pushed inserted with_self with_heap heap]. now apply lookup_app_l_Some.
Qed.

Lemma name_of_pushed (d : Iface.dict) (s : Machine) (l : loc) :
  is_Some (name_of s l) -> name_of (pushed d s) l = name_of s l.
Proof. intros H. unfold pushed. rewrite name_of_inserted. now apply name_of_alloc. Qed.

Lemma named_pushed (d : Iface.dict) (s : Machine) :
  Forall (fun l => is_Some (name_of s l)) (desired_state (self s)) ->
  is_Some (Iface.name d) ->
  Forall (fun l => is_Some (name_of (pushed d s) l)) (desired_state (self (pushed d s))).
Proof.
  intros Hdesired Hd. unfold pushed. apply named_inserted.
  - now apply named_alloc.
  - now rewrite name_of_alloc_new.
Qed.

(** One turn of the loop of lines 182 to 189. *)
Lemma restore_port_run (s : Machine) (port : string) (v : Z) :
  Forall (fun l => is_Some (name_of s l)) (desired_state (self s)) ->
  backed_up_mtu s port = Some v ->
  (backup ← attr mtu_dict;
   match dict_get port backup with
   | None => raise (KeyError port)
   | Some raw =>
       match int raw with
       | None => raise ValueError
       | Some v =>
           _port ← alloc {| Iface.name := Some port; Iface.type := Some "ethernet";
                            Iface.state := Some Interface.State.UP;
                            Iface.mtu := Some v;
                            Iface.ipv4 := None; Iface.ipv6 := None |};
           set_interface _port
       end
   end) s = (Ok tt, pushed (mtu_entry port v) s).
Proof.
  intros Hdesired Hv. rewrite bind_run. cbn [attr]. unfold backed_up_mtu in Hv.
  destruct (dict_get port (mtu_dict (self s))) as [raw|]; [|discriminate].
  cbn in Hv. rewrite Hv. apply (push_run (mtu_entry port v)); [exact Hdesired|].
  cbn. eauto.
Qed.

Lemma restore_port_fails (s : Machine) (port : string) :
  backed_up_mtu s port = None ->
  (backup ← attr mtu_dict;
   match dict_get port backup with
   | None => raise (KeyError port)
   | Some raw =>
       match int raw with
       | None => raise ValueError
       | Some v =>
           _port ← alloc {| Iface.name := Some port; Iface.type := Some "ethernet";
                            Iface.state := Some Interface.State.UP;
                            Iface.mtu := Some v;
                            Iface.ipv4 := None; Iface.ipv6 := None |};
           set_interface _port
       end
   end) s = (Raise (mtu_error s port), s).
Proof.
  intros Hv. rewrite bind_run. cbn [attr]. unfold backed_up_mtu in Hv. unfold mtu_error.
  destruct (dict_get port (mtu_dict (self s))) as [raw|]; [|reflexivity].
  cbn in Hv. now rewrite Hv.
Qed.

(** A declaration of a port survives the declaration of another port,
    and the declaration of the same port from the same backup. *)
Lemma declares_mtu_pushed (s : Machine) (port q : string) (v w : Z) :
  Forall (fun l => is_Some (name_of s l)) (desired_state (self s)) ->
  declares_mtu s port v -> (q = port -> w = v) ->
  declares_mtu (pushed (mtu_entry q w) s) port v.
Proof.
  intros Hdesired (l & Hl & Hentry) Hsame.
  destruct (decide (q = port)) as [->|Hne].
  - rewrite (Hsame eq_refl). exists (length (heap s)). split.
    + cbn [pushed inserted with_self self set_desired_state desired_state].
      apply elem_of_app. right. now apply list_elem_of_singleton.
    + cbn [pushed inserted with_self with_heap heap].
      now rewrite lookup_app_r, Nat.sub_diag by lia.
  - exists l. split; [|now apply lookup_pushed].
    cbn [pushed inserted with_self self set_desired_state desired_state].
    apply elem_of_app. left. apply list_elem_of_filter. split; [|exact Hl].
    rewrite name_of_alloc_new.
    rewrite name_of_alloc by (rewrite Forall_forall in Hdesired; auto).
    unfold name_of. rewrite Hentry. cbn. congruence.
Qed.

Lemma declares_mtu_new (s : Machine) (port : string) (v : Z) :
  declares_mtu (pushed (mtu_entry port v) s) port v.
Proof.
  exists (length (heap s)). split.
  - cbn [pushed inserted with_self self set_desired_state desired_state].
    apply elem_of_app. right. now apply list_elem_of_singleton.
  - cbn [pushed inserted with_self with_heap heap].
    now rewrite lookup_app_r, Nat.sub_diag by lia.
Qed.

(** The loop of lines 182 to 189 over ports whose backup can be read. *)
Lemma restore_ports_run (ps : list string) : forall s : Machine,
  Forall (fun l => is_Some (name_of s l)) (desired_state (self s)) ->
  Forall (fun port => is_Some (backed_up_mtu s port)) ps ->
  exists s',
    for_each ps (fun port =>
      backup ← attr mtu_dict;
      match dict_get port backup with
      | None => raise (KeyError port)
      | Some raw =>
          match int raw with
          | None => raise ValueError
          | Some v =>
              _port ← alloc {| Iface.name := Some port; Iface.type := Some "ethernet";
                               Iface.state := Some Interface.State.UP;
                               Iface.mtu := Some v;
                               Iface.ipv4 := None; Iface.ipv6 := None |};
              set_interface _port
          end
      end) s = (Ok tt, s') /\
    self s' = set_desired_state (desired_state (self s')) (self s) /\
    world s' = world s /\ LOGGER s' = LOGGER s /\ oracle s' = oracle s /\
    length (heap s') = (length (heap s) + length ps)%nat /\
    (forall l e, heap s !! l = Some e -> heap s' !! l = Some e) /\
    Forall (fun l => is_Some (name_of s' l)) (desired_state (self s')) /\
    (forall port v, declares_mtu s port v -> backed_up_mtu s port = Some v ->
       declares_mtu s' port v) /\
    (forall port v, port ∈ ps -> backed_up_mtu s port = Some v ->
       declares_mtu s' port v).
Proof.
  induction ps as [|p ps IH]; intros s Hdesired Hgood.
  - exists s. split; [reflexivity|]. rewrite Nat.add_0_r.
    split; [now destruct s as [[]]|]. repeat split; auto.
    intros port v Hin. now apply elem_of_nil in Hin.
  - apply Forall_cons in Hgood as [[v Hv] Hgood].
    cbn [for_each]. rewrite bind_run, (restore_port_run s p v Hdesired Hv).
    set (s1 := pushed (mtu_entry p v) s).
    assert (Hbackup : forall port, backed_up_mtu s1 port = backed_up_mtu s port)
      by reflexivity.
    destruct (IH s1) as
      (s' & Hrun & Hself & Hw & Hlog & Hor & Hlen & Hheap & Hnamed & Hkeep & Hnew).
    { apply named_pushed; [exact Hdesired | cbn; eauto]. }
    { exact Hgood. }
    exists s'. split; [exact Hrun|].
    split; [rewrite Hself; reflexivity|].
    split; [rewrite Hw; reflexivity|]. split; [rewrite Hlog; reflexivity|].
    split; [rewrite Hor; reflexivity|]. split.
    { rewrite Hlen. cbn [s1 pushed inserted with_self with_heap heap length].
      rewrite length_app. cbn [length]. lia. }
    split; [intros l e Hl; apply Hheap; now apply lookup_pushed|].
    split; [exact Hnamed|]. split.
    + intros port w Hdecl Hw'. apply Hkeep; [|exact Hw'].
      apply declares_mtu_pushed; [exact Hdesired | exact Hdecl|].
      intros ->. congruence.
    + intros port w [->|Hin]%elem_of_cons Hw'.
      * assert (w = v) as -> by congruence.
        apply Hkeep; [apply declares_mtu_new | exact Hv].
      * now apply Hnew.
Qed.

Lemma restore_mtu_on (s : Machine) :
  truthy_int (mtu (self s)) = true ->
  restore_mtu s =
  for_each (ports (self s)) (fun port =>
    backup ← attr mtu_dict;
    match dict_get port backup with
    | None => raise (KeyError port)
    | Some raw =>
        match int raw with
        | None => raise ValueError
        | Some v =>
            _port ← alloc {| Iface.name := Some port; Iface.type := Some "ethernet";
                             Iface.state := Some Interface.State.UP;
                             Iface.mtu := Some v;
                             Iface.ipv4 := None; Iface.ipv6 := None |};
            set_interface _port
        end
    end) s.
Proof.
  intros H. unfold restore_mtu. rewrite bind_run. cbn [attr]. rewrite H.
  rewrite bind_run. reflexivity.
Qed.

(** X12.  With an MTU configured and, for every port, a backup that
    [int] reads (digits, with an optional sign, between whitespace that
    [int] skips), the first part of [clean_up] declares every port of
    [self.ports] in the desired state as an ethernet interface that is up
    and has the MTU of the backup, [int(self.mtu_dict[port])].  Each
    declaration is a new dict; the dicts that exist are not written, no
    attribute but the desired state changes, and no collaborator is
    called. *)
Theorem restore_mtu_declares_ports (s : Machine) :
  truthy_int (mtu (self s)) = true ->
  plain_backups s ->
  Forall (fun l => is_Some (name_of s l)) (desired_state (self s)) ->
  Forall (fun port => is_Some (backed_up_mtu s port)) (ports (self s)) ->
  exists s',
    restore_mtu s = (Ok tt, s') /\
    (forall port v, port ∈ ports (self s) -> backed_up_mtu s port = Some v ->
       declares_mtu s' port v) /\
    self s' = set_desired_state (desired_state (self s')) (self s) /\
    world s' = world s /\
    length (heap s') = (length (heap s) + length (ports (self s)))%nat /\
    (forall l e, heap s !! l = Some e -> heap s' !! l = Some e).
Proof.
  intros Hmtu _ Hdesired Hgood. rewrite (restore_mtu_on s Hmtu).
  destruct (restore_ports_run (ports (self s)) s Hdesired Hgood) as
    (s' & Hrun & Hself & Hw & _ & _ & Hlen & Hheap & _ & _ & Hnew).
  exists s'. repeat split; auto.
Qed.

(** X13.  With an MTU configured, [clean_up] stops at the first port
    whose backup it cannot read: [KeyError(port)] when [self.mtu_dict]
    has no entry for the port (no MTU was backed up, as when the policy
    was never entered or has no worker pods), [ValueError] when the entry
    is not a number for [int], as when a separator that [int] does not
    skip stands beside the digits.  The exception leaves [clean_up] at
    once: no interface is marked absent, nothing is submitted, nothing is
    waited for and the resource is not deleted. *)
Theorem clean_up_without_mtu_backup (s : Machine) (good rest : list string)
    (p : string) :
  truthy_int (mtu (self s)) = true ->
  plain_backups s ->
  ports (self s) = good ++ p :: rest ->
  Forall (fun port => is_Some (backed_up_mtu s port)) good ->
  backed_up_mtu s p = None ->
  Forall (fun l => is_Some (name_of s l)) (desired_state (self s)) ->
  exists s',
    clean_up s = (Raise (mtu_error s p), s') /\
    world s' = world s /\ LOGGER s' = LOGGER s /\
    self s' = set_desired_state (desired_state (self s')) (self s) /\
    (forall l e, heap s !! l = Some e -> heap s' !! l = Some e).
Proof.
  intros Hmtu _ Hports Hgood Hbad Hdesired.
  destruct (restore_ports_run good s Hdesired Hgood) as
    (s1 & Hrun & Hself & Hw & Hlog & _ & _ & Hheap & _ & _ & _).
  exists s1. split; [|auto].
  unfold clean_up. rewrite bind_run, (restore_mtu_on s Hmtu), Hports.
  rewrite for_each_app, bind_run, Hrun. cbn [for_each]. rewrite bind_run.
  assert (Hdict : mtu_dict (self s1) = mtu_dict (self s)) by (now rewrite Hself).
  rewrite restore_port_fails by (unfold backed_up_mtu; now rewrite Hdict).
  unfold mtu_error. now rewrite Hdict.
Qed.

(** ** The MTU of the ports: [__enter__] backs it up *)

Lemma dict_get_set_eq {V} (k : string) (v : V) (d : list (string * V)) :
  dict_get k (dict_set k v d) = Some v.
Proof.
  induction d as [|[k' v'] d IH]; cbn.
  - now rewrite String.eqb_refl.
  - destruct (String.eqb k' k) eqn:E; cbn.
    + now rewrite String.eqb_refl.
    + now rewrite E.
Qed.

Lemma dict_get_set_ne {V} (k k0 : string) (v : V) (d : list (string * V)) :
  k0 <> k -> dict_get k0 (dict_set k v d) = dict_get k0 d.
Proof.
  intros Hne. induction d as [|[k' v'] d IH]; cbn.
  - destruct (String.eqb_spec k k0); congruence.
  - destruct (String.eqb_spec k' k) as [->|Hk]; cbn.
    + destruct (String.eqb_spec k k0); congruence.
    + destruct (String.eqb_spec k' k0); congruence.
Qed.









(** ** [_ipv4_state_backup] *)

Lemma ipv4_flags_run (i : ObservedIface) (f : Ipv4.dict) (s : Machine) :
  observed_flags i = Some f -> ipv4_flags i s = (Ok f, s).
Proof.
  unfold observed_flags, ipv4_flags. destruct (o_ipv4 i) as [v|]; [|discriminate].
  cbn. destruct (o_dhcp v) as [d|]; [|discriminate].
  cbn. destruct (o_enabled v) as [e|]; [|discriminate].
  cbn. now intros [= <-].
Qed.

Lemma last_seen_cons (p : string) (i : ObservedIface) (obs : list ObservedIface) :
  last_seen p (i :: obs) =
  match last_seen p obs with
  | Some x => Some x
  | None => if decide (o_name i = p) then Some i else None
  end.
Proof.
  unfold last_seen. rewrite filter_cons.
  destruct (decide (o_name i = p)); [|now destruct (last _)].
  destruct (filter _ obs) as [|x xs]; [reflexivity|].
  change (last (i :: x :: xs)) with (last (x :: xs)).
  destruct (last (x :: xs)) eqn:E; [reflexivity|].
  now apply last_None in E.
Qed.

(** The inner loop of [_ipv4_state_backup] over the report [obs] of
    [node], from a table in which the node has the entry [acc]. *)
Lemma backup_node_run (node : string) (obs : list ObservedIface) :
  forall (s : Machine) (acc : list (string * Ipv4.dict)),
  dict_get node (ipv4_iface_state (self s)) = Some acc ->
  ports_have_flags (ports (self s)) obs ->
  exists s' acc',
    for_each obs (backup_flags node) s = (Ok tt, s') /\
    self s' = set_ipv4_iface_state (ipv4_iface_state (self s')) (self s) /\
    heap s' = heap s /\ world s' = world s /\ oracle s' = oracle s /\
    LOGGER s' = LOGGER s /\
    dict_get node (ipv4_iface_state (self s')) = Some acc' /\
    (forall n, n <> node ->
       dict_get n (ipv4_iface_state (self s')) =
       dict_get n (ipv4_iface_state (self s))) /\
    (forall p, dict_get p acc' =
       if str_in p (ports (self s)) then
         match last_seen p obs with
         | Some i => observed_flags i
         | None => dict_get p acc
         end
       else dict_get p acc).
Proof.
  induction obs as [|i obs IH]; intros s acc Hacc Hflags.
  - exists s, acc. split; [reflexivity|]. split; [now destruct s as [[]]|].
    repeat split; auto. intros p. now destruct (str_in p (ports (self s))).
  - apply Forall_cons in Hflags as [Hi Hflags].
    cbn [for_each]. rewrite bind_run. unfold backup_flags at 1.
    rewrite bind_run. cbn [attr].
    destruct (str_in (o_name i) (ports (self s))) eqn:Hin.
    + destruct (Hi eq_refl) as [f Hf].
      rewrite bind_run. cbn [attr].
      rewrite bind_run, (ipv4_flags_run i f s Hf).
      rewrite bind_run. unfold update_node. rewrite Hacc. cbn [mret M_ret modify].
      set (s1 := with_self _ s).
      destruct (IH s1 (dict_set (o_name i) f acc)) as
        (s' & acc' & Hrun & Hself & Hheap & Hw & Hor & Hlog & Hnode & Hother & Hget).
      { cbn [s1 with_self self set_ipv4_iface_state ipv4_iface_state].
        apply dict_get_set_eq. }
      { exact Hflags. }
      exists s', acc'. split; [exact Hrun|].
      split; [rewrite Hself; reflexivity|].
      split; [rewrite Hheap; reflexivity|]. split; [rewrite Hw; reflexivity|].
      split; [rewrite Hor; reflexivity|]. split; [rewrite Hlog; reflexivity|].
      split; [exact Hnode|]. split.
      * intros n Hn. rewrite Hother by exact Hn.
        cbn [s1 with_self self set_ipv4_iface_state ipv4_iface_state].
        now apply dict_get_set_ne.
      * intros p. rewrite Hget, last_seen_cons.
        change (ports (self s1)) with (ports (self s)).
        destruct (str_in p (ports (self s))) eqn:Hp.
        -- destruct (last_seen p obs); [reflexivity|].
           destruct (decide (o_name i = p)) as [<-|Hne].
           ++ now rewrite dict_get_set_eq.
           ++ now apply dict_get_set_ne.
        -- apply dict_get_set_ne. intros ->. congruence.
    + cbn [mret M_ret].
      destruct (IH s acc Hacc Hflags) as
        (s' & acc' & Hrun & Hself & Hheap & Hw & Hor & Hlog & Hnode & Hother & Hget).
      exists s', acc'. split; [exact Hrun|]. repeat split; auto.
      intros p. rewrite Hget, last_seen_cons.
      destruct (str_in p (ports (self s))) eqn:Hp; [|reflexivity].
      destruct (last_seen p obs); [reflexivity|].
      destruct (decide (o_name i = p)) as [<-|Hne]; [congruence | reflexivity].
Qed.

Lemma currentState_interfaces_run (node : string) (s : Machine) :
  currentState_interfaces node s =
  (match interfaces_answer s 0 node with
   | inl obs => Ok obs
   | inr e => Raise e
   end, with_world tick_interfaces_reads s).
Proof.
  unfold currentState_interfaces, interfaces_answer. rewrite Nat.add_0_r.
  rewrite bind_run. cbn [get]. rewrite bind_run. cbn [modify].
  now destruct (interfaces_feed (oracle s) (interfaces_reads (world s)) node).
Qed.

(** The loop body of [_ipv4_state_backup] for one pod: the entry of the
    node is emptied, then filled from the report of the node. *)
Lemma backup_pod_run (node : string) (obs : list ObservedIface) (s : Machine) :
  interfaces_answer s 0 node = inl obs ->
  ports_have_flags (ports (self s)) obs ->
  exists s' inner,
    (modify (with_self (fun o =>
       set_ipv4_iface_state (dict_set node [] (ipv4_iface_state o)) o));;
     observed ← currentState_interfaces node;
     for_each observed (backup_flags node)) s = (Ok tt, s') /\
    self s' = set_ipv4_iface_state (ipv4_iface_state (self s')) (self s) /\
    heap s' = heap s /\ oracle s' = oracle s /\ LOGGER s' = LOGGER s /\
    world s' = tick_interfaces_reads (world s) /\
    dict_get node (ipv4_iface_state (self s')) = Some inner /\
    (forall p, dict_get p inner = backed_up_flags (ports (self s)) obs p) /\
    (forall n, n <> node ->
       dict_get n (ipv4_iface_state (self s')) =
       dict_get n (ipv4_iface_state (self s))).
Proof.
  intros Hread Hflags. rewrite bind_run. cbn [modify].
  set (s1 := with_self _ s).
  rewrite bind_run, currentState_interfaces_run.
  change (interfaces_answer s1 0 node) with (interfaces_answer s 0 node).
  rewrite Hread.
  destruct (backup_node_run node obs (with_world tick_interfaces_reads s1) [])
    as (s' & acc' & Hrun & Hself & Hheap & Hw & Hor & Hlog & Hnode & Hother & Hget).
  { cbn [s1 with_world with_self self set_ipv4_iface_state ipv4_iface_state].
    apply dict_get_set_eq. }
  { exact Hflags. }
  exists s', acc'. split; [exact Hrun|].
  split; [rewrite Hself; reflexivity|].
  split; [rewrite Hheap; reflexivity|]. split; [rewrite Hor; reflexivity|].
  split; [rewrite Hlog; reflexivity|]. split; [rewrite Hw; reflexivity|].
  split; [exact Hnode|]. split.
  - intros p. rewrite Hget. unfold backed_up_flags.
    change (ports (self (with_world tick_interfaces_reads s1))) with (ports (self s)).
    destruct (str_in p (ports (self s))); [|reflexivity].
    now destruct (last_seen p obs).
  - intros n Hn. rewrite Hother by exact Hn.
    cbn [s1 with_world with_self self set_ipv4_iface_state ipv4_iface_state].
    now apply dict_get_set_ne.
Qed.

(** The loop of [_ipv4_state_backup] over the pods. *)
Lemma backup_pods_run (pods : list Pod) :
  forall (s : Machine) (obs_of : nat -> list ObservedIface),
  (forall k pod, pods !! k = Some pod ->
     interfaces_answer s k (node_name pod) = inl (obs_of k) /\
     ports_have_flags (ports (self s)) (obs_of k)) ->
  exists s',
    for_each pods (fun pod =>
      modify (with_self (fun o =>
        set_ipv4_iface_state (dict_set (node_name pod) [] (ipv4_iface_state o)) o));;
      observed ← currentState_interfaces (node_name pod);
      for_each observed (backup_flags (node_name pod))) s = (Ok tt, s') /\
    self s' = set_ipv4_iface_state (ipv4_iface_state (self s')) (self s) /\
    heap s' = heap s /\ oracle s' = oracle s /\ LOGGER s' = LOGGER s /\
    interfaces_reads (world s') = (interfaces_reads (world s) + length pods)%nat /\
    (forall k pod, pods !! k = Some pod ->
       (forall k' pod', (k < k')%nat -> pods !! k' = Some pod' ->
          node_name pod' <> node_name pod) ->
       exists inner,
         dict_get (node_name pod) (ipv4_iface_state (self s')) = Some inner /\
         forall p, dict_get p inner = backed_up_flags (ports (self s)) (obs_of k) p) /\
    (forall n, (forall pod, pod ∈ pods -> node_name pod <> n) ->
       dict_get n (ipv4_iface_state (self s')) =
       dict_get n (ipv4_iface_state (self s))).
Proof.
  induction pods as [|pod pods IH]; intros s obs_of Hreads.
  - exists s. split; [reflexivity|]. split; [now destruct s as [[]]|].
    rewrite Nat.add_0_r. repeat split; auto. intros k pod Hk. discriminate.
  - destruct (Hreads 0%nat pod eq_refl) as [Hread0 Hflags0].
    cbn [for_each]. rewrite bind_run.
    destruct (backup_pod_run (node_name pod) (obs_of 0%nat) s Hread0 Hflags0)
      as (s1 & inner & Hrun1 & Hself1 & Hheap1 & Hor1 & Hlog1 & Hw1 & Hnode1 & Hget1
          & Hother1).
    rewrite Hrun1.
    assert (Hports : ports (self s1) = ports (self s)) by (now rewrite Hself1).
    destruct (IH s1 (fun k => obs_of (S k))) as
      (s' & Hrun & Hself & Hheap & Hor & Hlog & Hreads' & Hlast & Hnone).
    { intros k pod' Hk. destruct (Hreads (S k) pod' Hk) as [Hr Hf].
      rewrite Hports. split; [|exact Hf].
      unfold interfaces_answer in *. rewrite Hor1, Hw1.
      cbn [tick_interfaces_reads interfaces_reads].
      replace (S (interfaces_reads (world s)) + k)%nat
        with (interfaces_reads (world s) + S k)%nat by lia. exact Hr. }
    exists s'. split; [exact Hrun|].
    split; [rewrite Hself, Hself1; reflexivity|].
    split; [congruence|]. split; [congruence|]. split; [congruence|]. split.
    { rewrite Hreads', Hw1. cbn [tick_interfaces_reads interfaces_reads length]. lia. }
    split.
    + intros k pod' Hk Hlater. destruct k as [|k].
      * injection Hk as <-. exists inner. split; [|exact Hget1].
        rewrite Hnone; [exact Hnode1|].
        intros pod' [k' Hk']%list_elem_of_lookup_1.
        apply (Hlater (S k') pod'); [lia | exact Hk'].
      * destruct (Hlast k pod' Hk) as (inner' & Hin & Hget).
        { intros k' pod'' Hlt Hk'. apply (Hlater (S k') pod''); [lia | exact Hk']. }
        exists inner'. split; [exact Hin|]. intros p. rewrite Hget. now rewrite Hports.
    + intros n Hn. rewrite Hnone.
      * apply Hother1. intros ->. apply (Hn pod); [left | reflexivity].
      * intros pod' Hin. apply Hn. now right.
Qed.

(** X15.  [_ipv4_state_backup] reads the interfaces of the node of every
    worker pod once, in the order of the pods, and replaces the backup of
    that node: afterwards the backup of a node holds, for every port of
    [self.ports] the node reported, the [dhcp] and [enabled] flags of
    the port as reported (the last report of a name counts), and nothing
    else: no interface that is not a port, and nothing of an earlier
    backup of the node.  The backups of other nodes are kept. *)
Theorem _ipv4_state_backup_records_ports (s : Machine) (pods : list Pod)
    (obs_of : nat -> list ObservedIface) :
  worker_pods (self s) = Some pods ->
  (forall k pod, pods !! k = Some pod ->
     interfaces_answer s k (node_name pod) = inl (obs_of k) /\
     ports_have_flags (ports (self s)) (obs_of k)) ->
  exists s',
    _ipv4_state_backup s = (Ok tt, s') /\
    self s' = set_ipv4_iface_state (ipv4_iface_state (self s')) (self s) /\
    heap s' = heap s /\ LOGGER s' = LOGGER s /\
    interfaces_reads (world s') = (interfaces_reads (world s) + length pods)%nat /\
    (forall k pod, pods !! k = Some pod ->
       (forall k' pod', (k < k')%nat -> pods !! k' = Some pod' ->
          node_name pod' <> node_name pod) ->
       exists inner,
         dict_get (node_name pod) (ipv4_iface_state (self s')) = Some inner /\
         forall p, dict_get p inner = backed_up_flags (ports (self s)) (obs_of k) p) /\
    (forall n, (forall pod, pod ∈ pods -> node_name pod <> n) ->
       dict_get n (ipv4_iface_state (self s')) =
       dict_get n (ipv4_iface_state (self s))).
Proof.
  intros Hpods Hreads.
  destruct (backup_pods_run pods s obs_of Hreads) as
    (s' & Hrun & Hself & Hheap & _ & Hlog & Hn & Hlast & Hnone).
  exists s'. split; [|repeat split; assumption].
  unfold _ipv4_state_backup, iter_worker_pods. rewrite !bind_run. cbn [attr].
  rewrite Hpods. exact Hrun.
Qed.

(** ** [__enter__] when it returns *)

(** The second sampler of [wait_for_status_success] returns nothing but
    the success reason. *)
Lemma status_loop_ok (polls : nat) : forall (s s' : Machine) (r : string),
  sampler_loop polls 1 None status judge s = (Ok r, s') ->
  r = Conditions.Reason.SUCCESS.
Proof.
  induction polls as [|polls IH]; intros s s' r; [discriminate|].
  rewrite status_loop_step.
  destruct (bool_decide (reason_at s 0 = Some Conditions.Reason.SUCCESS));
    [now intros [= <- _]|].
  destruct (bool_decide (reason_at s 0 = Some Conditions.Reason.FAILED));
    [discriminate|]. apply IH.
Qed.

Lemma wait_for_status_success_ok (s s' : Machine) (r : string) :
  wait_for_status_success s = (Ok r, s') -> r = Conditions.Reason.SUCCESS.
Proof.
  unfold wait_for_status_success. intros H.
  apply bind_ok_inv in H as ([] & s1 & _ & H). unfold try_except, TimeoutSampler in H.
  destruct (sampler_loop (polls_within 30 1) 1 None status judge s1)
    as [[r'|e|w] s2] eqn:Hloop.
  - injection H as <- <-. now apply status_loop_ok in Hloop.
  - destruct e; cbn in H; discriminate.
  - discriminate.
Qed.

(** X16.  [__enter__] returns only after the policy was reported as
    configured: the part before the [try] has come to an end, the wait
    for the status has returned ["SuccessfullyConfigured"], and after it
    the wait for the interfaces of every node.  Nothing has been deleted
    then, and the primary interface and [teardown] are as they were. *)
Theorem __enter___returns_after_success (s s' : Machine) :
  __enter__ s = (Ok tt, s') ->
  exists s1 s2,
    before_try s = (Ok tt, s1) /\
    wait_for_status_success s1 = (Ok Conditions.Reason.SUCCESS, s2) /\
    validate_create s2 = (Ok tt, s') /\
    deleted (world s') = deleted (world s) /\
    iface (self s') = iface (self s) /\
    teardown (self s') = teardown (self s).
Proof.
  unfold __enter__. intros H.
  apply bind_ok_inv in H as ([] & s1 & Hbefore & H).
  unfold try_except in H.
  destruct (checks s1) as [[[]|e|w] s3] eqn:Hchecks.
  2:{ rewrite on_failure_run, bind_run in H.
      destruct (clean_up _) as [[[]|e'|w'] s4]; discriminate. }
  2:{ discriminate. }
  injection H as <-.
  pose proof (sound_before_try s) as (Hext1 & _). rewrite Hbefore in Hext1.
  pose proof (sound_checks s1) as (Hext2 & _). rewrite Hchecks in Hext2.
  cbn [snd] in Hext1, Hext2. pose proof (ext_trans _ _ _ Hext1 Hext2) as Hext.
  unfold checks in Hchecks.
  apply bind_ok_inv in Hchecks as (r & s2 & Hwait & Hvalidate).
  pose proof (wait_for_status_success_ok _ _ _ Hwait) as ->.
  exists s1, s2. split; [exact Hbefore|]. split; [exact Hwait|].
  split; [exact Hvalidate|].
  split; [apply (ext_deleted _ _ Hext)|].
  split; [apply (ext_iface _ _ Hext) | apply (ext_teardown _ _ Hext)].
Qed.

(** ** [__init__] with a hostname that matches *)

Lemma find_first_match (ns : string) (pre post : list Pod) (pod : Pod) :
  Forall (fun p => node_name p <> ns) pre -> node_name pod = ns ->
  find (fun p => String.eqb (node_name p) ns) (pre ++ pod :: post) = Some pod.
Proof.
  intros Hpre Hpod. induction Hpre as [|p pre Hp _ IH]; cbn.
  - now rewrite Hpod, String.eqb_refl.
  - destruct (String.eqb_spec (node_name p) ns); [contradiction | exact IH].
Qed.

(** The selector and the name of a document are those of the policy. *)
Lemma to_dict_selector (s s' : Machine) (doc : Document) :
  to_dict s = (Ok doc, s') ->
  exists sel,
    _node_selector (self s) = Some sel /\
    nodeSelector doc = match sel with [] => None | _ => Some sel end /\
    metadata_name doc = name (self s).
Proof.
  intros Hrun.
  destruct (to_dict_ok_start _ _ _ Hrun) as (sel & l & d & Hsel & Hl & Hd).
  rewrite (to_dict_unfold s sel l d Hsel Hl Hd) in Hrun.
  destruct (to_dict_rest_ok_inv _ _ _ _ _ _ Hrun) as (_ & _ & _ & _ & _ & Hn & Hs).
  exists sel. auto.
Qed.

(** X17.  When [node_selector] is the hostname of a node on which a
    worker pod runs, the constructor keeps the first pod of the list on
    that node as the only worker pod, whatever pods follow it, and every
    document built afterwards selects the node by
    ["kubernetes.io/hostname"]. *)
Theorem __init___keeps_first_pod_of_node
    (name_ : string) (pre post : list Pod) (pod : Pod) (ns : string)
    (teardown_ : bool) (mtu_ : option Z) (ports_ : option (list string))
    (ipv4_enable_ ipv4_dhcp_ : bool) (ipv4_addresses_ : option (list Address))
    (ipv6_enable_ : bool) (node_active_nics_ : option (list string)) :
  ns <> "" ->
  Forall (fun p => node_name p <> ns) pre ->
  node_name pod = ns ->
  exists o,
    __init__ name_ (Some (pre ++ pod :: post)) (Some ns) teardown_ mtu_ ports_
      ipv4_enable_ ipv4_dhcp_ ipv4_addresses_ ipv6_enable_ node_active_nics_ = Ok o /\
    worker_pods o = Some [pod] /\
    _node_selector o = Some [("kubernetes.io/hostname", ns)] /\
    forall s s' doc,
      _node_selector (self s) = _node_selector o ->
      to_dict s = (Ok doc, s') ->
      nodeSelector doc = Some [("kubernetes.io/hostname", ns)].
Proof.
  intros Hns Hpre Hpod. unfold __init__.
  rewrite (truthy_str_Some ns Hns), (find_first_match ns pre post pod Hpre Hpod).
  eexists. split; [reflexivity|]. split; [reflexivity|]. split; [reflexivity|].
  cbn [_node_selector]. intros s s' doc Hsel Hrun.
  destruct (to_dict_selector _ _ _ Hrun) as (sel & Hsel' & Hdoc & _).
  rewrite Hdoc. assert (sel = hostname_selector ns) as -> by congruence. reflexivity.
Qed.

(** ** [apply] on a policy without a primary interface *)

(** X18.  The class itself never assigns [self.iface].  As long as it is
    [None], [to_dict] raises [TypeError] at line 108, before it has
    changed anything, and so does [apply]: no document is submitted and
    no time is spent retrying. *)
Theorem apply_needs_a_primary_interface (s : Machine) (sel : list (string * string)) :
  _node_selector (self s) = Some sel ->
  iface (self s) = None ->
  to_dict s = (Raise TypeError, s) /\
  apply s = (Raise TypeError, s).
Proof.
  intros Hsel Hl.
  assert (Hrun : to_dict s = (Raise TypeError, s)).
  { unfold to_dict, ipv4_dhcp. do 2 (rewrite bind_run; cbn [attr]). rewrite Hsel.
    do 3 (rewrite bind_run; cbn [attr]). now rewrite Hl. }
  split; [exact Hrun|]. unfold apply. now rewrite bind_run, Hrun.
Qed.

(** ** The DHCP restore looks at one node *)

Lemma compare_flags_state (node : string) (i : ObservedIface)
    (temp : list (string * list (string * Ipv4.dict))) (s : Machine) :
  (compare_flags node i temp s).2 = s.
Proof.
  unfold compare_flags. rewrite bind_run. cbn [attr].
  destruct (str_in (o_name i) (ports (self s))); [|reflexivity].
  rewrite bind_run. unfold ipv4_flags.
  destruct (o_ipv4 i) as [v|]; [|reflexivity].
  destruct (o_dhcp v); [|reflexivity]. destruct (o_enabled v); [|reflexivity].
  cbn [mret M_ret]. rewrite bind_run. cbn [attr].
  destruct (dict_get node (ipv4_iface_state (self s))) as [saved_node|]; [|reflexivity].
  destruct (dict_get (o_name i) saved_node) as [saved|]; [|reflexivity].
  destruct (bool_decide _); [|reflexivity].
  unfold update_node. now destruct (dict_get node temp).
Qed.

(** Comparing a report of another node leaves the first entry of the
    dict of changed ports alone. *)
Lemma compare_flags_head (node node' : string) (i : ObservedIface)
    (rest v : list (string * list (string * Ipv4.dict)))
    (inner : list (string * Ipv4.dict)) (s s' : Machine) :
  node' <> node ->
  compare_flags node' i ((node, inner) :: rest) s = (Ok v, s') ->
  exists rest', v = (node, inner) :: rest'.
Proof.
  intros Hne. unfold compare_flags. rewrite bind_run. cbn [attr].
  destruct (str_in (o_name i) (ports (self s))); [|intros [= <- _]; eauto].
  rewrite bind_run. destruct (ipv4_flags i s) as [[x|e|w] s1]; try discriminate.
  rewrite bind_run. cbn [attr].
  destruct (dict_get node' (ipv4_iface_state (self s1))) as [saved_node|];
    [|discriminate].
  destruct (dict_get (o_name i) saved_node) as [saved|]; [|discriminate].
  destruct (bool_decide _); [|intros [= <- _]; eauto].
  unfold update_node. destruct (dict_get node' _) as [inner'|]; [|discriminate].
  intros [= <- _]. cbn [dict_set].
  destruct (String.eqb_spec node node'); [congruence | eauto].
Qed.

Lemma compare_all_head (node node' : string) (obs : list ObservedIface) :
  forall (rest : list (string * list (string * Ipv4.dict)))
         (inner : list (string * Ipv4.dict))
         (s s' : Machine) (r : Result (list (string * list (string * Ipv4.dict)))),
  node' <> node ->
  for_fold obs ((node, inner) :: rest) (compare_flags node') s = (r, s') ->
  s' = s /\ forall v, r = Ok v -> exists rest', v = (node, inner) :: rest'.
Proof.
  induction obs as [|i obs IH]; intros rest inner s s' r Hne.
  - intros [= <- <-]. split; [reflexivity|]. intros v [= <-]. eauto.
  - cbn [for_fold]. rewrite bind_run.
    pose proof (compare_flags_state node' i ((node, inner) :: rest) s) as Hstate.
    destruct (compare_flags node' i ((node, inner) :: rest) s) as [[v|e|w] s1] eqn:Hrun;
      cbn [snd] in Hstate; subst s1.
    + destruct (compare_flags_head _ _ _ _ _ _ _ _ Hne Hrun) as [rest' ->].
      now apply IH.
    + intros [= <- <-]. split; [reflexivity | discriminate].
    + intros [= <- <-]. split; [reflexivity | discriminate].
Qed.

(** The turns of the pods of other nodes. *)
Lemma compare_nodes_head (node : string) (others : list Pod) :
  forall (rest : list (string * list (string * Ipv4.dict)))
         (inner : list (string * Ipv4.dict))
         (s s' : Machine) (r : Result (list (string * list (string * Ipv4.dict)))),
  Forall (fun p => node_name p <> node) others ->
  for_fold others ((node, inner) :: rest) compare_node s = (r, s') ->
  self s' = self s /\ heap s' = heap s /\
  forall v, r = Ok v -> exists rest', v = (node, inner) :: rest'.
Proof.
  induction others as [|p others IH]; intros rest inner s s' r Hothers.
  - intros [= <- <-]. repeat split. intros v [= <-]. eauto.
  - apply Forall_cons in Hothers as [Hp Hothers].
    cbn [for_fold]. rewrite bind_run. unfold compare_node at 1.
    rewrite bind_run, currentState_interfaces_run.
    destruct (interfaces_answer s 0 (node_name p)) as [obs|e].
    2:{ intros [= <- <-]. repeat split. discriminate. }
    cbn [dict_set]. destruct (String.eqb_spec node (node_name p)); [congruence|].
    destruct (for_fold obs _ (compare_flags (node_name p)) _) as [[v|e|w] s1] eqn:Hrun;
      destruct (compare_all_head _ _ _ _ _ _ _ _ Hp Hrun) as [-> Hv].
    + destruct (Hv v eq_refl) as [rest' ->]. intros H.
      destruct (IH _ _ _ _ _ Hothers H) as (Hs & Hh & Hv'). rewrite Hs, Hh. auto.
    + intros [= <- <-]. repeat split. discriminate.
    + intros [= <- <-]. repeat split. discriminate.
Qed.

(** The turn of a pod whose node reports the flags of the backup. *)
Lemma compare_unchanged (node : string) (saved : list (string * Ipv4.dict))
    (obs : list ObservedIface) (temp : list (string * list (string * Ipv4.dict)))
    (s : Machine) :
  dict_get node (ipv4_iface_state (self s)) = Some saved ->
  Forall (as_backed_up (ports (self s)) saved) obs ->
  for_fold obs temp (compare_flags node) s = (Ok temp, s).
Proof.
  intros Hsaved. induction 1 as [|i obs Hi _ IH]; [reflexivity|].
  cbn [for_fold]. rewrite bind_run. unfold compare_flags at 1.
  rewrite bind_run. cbn [attr].
  destruct (str_in (o_name i) (ports (self s))) eqn:Hin; [|exact IH].
  destruct (Hi Hin) as (f & Hf & Hget).
  rewrite bind_run, (ipv4_flags_run i f s Hf), bind_run. cbn [attr].
  rewrite Hsaved, Hget, bool_decide_eq_false_2 by (intros H; now apply H).
  exact IH.
Qed.

(** X19.  When DHCP is on, the loop body of [_absent_interface] asks
    every node for its interfaces but restores from the first node only:
    [next(iter(...))] takes the changed ports of the node of the first
    worker pod.  So when that node reports its ports with the flags of
    the backup, no port is put back into the desired state, whatever the
    nodes of the other pods report. *)
Theorem restore_dhcp_looks_at_first_node (s s' : Machine) (pod : Pod)
    (others : list Pod) (obs : list ObservedIface)
    (saved : list (string * Ipv4.dict)) (r : Result unit) :
  worker_pods (self s) = Some (pod :: others) ->
  Forall (fun p => node_name p <> node_name pod) others ->
  interfaces_answer s 0 (node_name pod) = inl obs ->
  dict_get (node_name pod) (ipv4_iface_state (self s)) = Some saved ->
  Forall (as_backed_up (ports (self s)) saved) obs ->
  restore_dhcp s = (r, s') ->
  self s' = self s /\ heap s' = heap s.
Proof.
  intros Hpods Hothers Hread Hsaved Hobs.
  unfold restore_dhcp, iter_worker_pods. rewrite !bind_run. cbn [attr].
  rewrite Hpods. cbn [mret M_ret for_fold]. rewrite !bind_run.
  rewrite currentState_interfaces_run, Hread.
  rewrite (compare_unchanged (node_name pod) saved obs) by assumption.
  cbn [dict_set].
  destruct (for_fold others [(node_name pod, [])] _ _) as [[v|e|w] s1] eqn:Hrun;
    destruct (compare_nodes_head (node_name pod) others [] [] _ _ _ Hothers Hrun)
      as (Hs & Hh & Hv).
  - destruct (Hv v eq_refl) as [rest' ->]. cbn [for_each]. intros [= _ <-]. auto.
  - intros [= _ <-]. auto.
  - intros [= _ <-]. auto.
Qed.

(** ** The further properties at work on concrete policies *)

(** A second interface goes into a list that holds a first one. *)
Lemma set_interface_all_or_nothing_witness :
  set_interface 1%nat (set_interfaces [0%nat] (boot nics_policy three_dicts calm)) =
  (Ok tt, inserted 1%nat (set_interfaces [0%nat] (boot nics_policy three_dicts calm))).
Proof.
  destruct (set_interface_all_or_nothing 1%nat
              (set_interfaces [0%nat] (boot nics_policy three_dicts calm)))
    as [[H _]|[_ [_ H]]].
  - vm_compute. repeat constructor.
  - vm_compute. lia.
  - exact H.
  - exfalso. apply H. split.
    + vm_compute. repeat constructor. eauto.
    + vm_compute. eauto.
Defined.

Lemma set_interface_idempotent_witness :
  set_interface 1%nat (after (set_interface 1%nat) (boot nics_policy three_dicts calm)) =
  (Ok tt, after (set_interface 1%nat) (boot nics_policy three_dicts calm)).
Proof.
  apply (set_interface_idempotent 1%nat (boot nics_policy three_dicts calm)).
  - vm_compute. eauto.
  - vm_compute. reflexivity.
Defined.

(** The static policy with a nameless dict as its primary interface:
    the first document is built, the second call raises. *)
Lemma to_dict_nameless_iface_once_witness :
  (to_dict nameless_state).1 = Ok (document_of (to_dict nameless_state)) /\
  desired_state (self nameless_state) = [] /\
  desired_state (self (after to_dict nameless_state)) = [0%nat] /\
  to_dict (after to_dict nameless_state) =
    (Raise (KeyError "name"), after to_dict nameless_state).
Proof.
  split; [vm_compute; reflexivity|].
  apply (to_dict_nameless_iface_once nameless_state (after to_dict nameless_state)
           (document_of (to_dict nameless_state)) 0%nat).
  - vm_compute. reflexivity.
  - vm_compute. reflexivity.
  - vm_compute. reflexivity.
Defined.

Lemma to_dict_idempotent_witness :
  to_dict (built calm) =
  (Ok (document_of (to_dict (static_state true calm))), built calm).
Proof.
  apply (to_dict_idempotent (static_state true calm)).
  - intros l H. vm_compute in H. injection H as <-. vm_compute. eauto.
  - vm_compute. reflexivity.
Defined.

Lemma to_dict_remembers_iface_witness :
  exists l,
    iface (self (static_state true calm)) = Some l /\
    in_ifaces l (built calm) = (Ok true, built calm) /\
    (ifaces (self (built calm)) = ifaces (self (static_state true calm)) \/
     (l ∉ ifaces (self (static_state true calm))) /\
     ifaces (self (built calm)) = ifaces (self (static_state true calm)) ++ [l]) /\
    length (heap (built calm)) = length (heap (static_state true calm)) /\
    forall x, x <> l -> heap (built calm) !! x = heap (static_state true calm) !! x.
Proof.
  apply (to_dict_remembers_iface (static_state true calm) (built calm)
           (document_of (to_dict (static_state true calm)))).
  vm_compute. reflexivity.
Defined.

(** A policy reported with a Failing condition and no Available
    condition is not taken for failed: the wait times out. *)
Lemma wait_for_status_success_stalls_witness :
  exists s',
    wait_for_status_success (static_state true failing_only) =
      (Raise TimeoutExpiredError, s') /\
    clock (world s') = clock (world (static_state true failing_only)) + Z.of_nat 0 + 30 /\
    conditions_reads (world s') =
      (conditions_reads (world (static_state true failing_only)) + 0 + 31)%nat /\
    LOGGER s' = LOGGER (static_state true failing_only) ++
                [ERROR "Unable to configure NNCP for node"].
Proof.
  apply (wait_for_status_success_stalls (static_state true failing_only) 0).
  - lia.
  - intros i Hi. lia.
  - vm_compute. discriminate.
  - intros i _ [H|H]; vm_compute in H; discriminate.
Defined.

Lemma validate_create_waits_witness :
  exists s',
    validate_create (built calm) = (Ok tt, s') /\
    self s' = self (built calm) /\ heap s' = heap (built calm) /\
    waited_up (world s') =
      waited_up (world (built calm)) ++ calls_per_node [node1] ["br1"].
Proof.
  apply (validate_create_waits (built calm) [node1] ["br1"] 1).
  - vm_compute. reflexivity.
  - vm_compute. repeat constructor.
  - vm_compute. lia.
  - intros i _. reflexivity.
  - reflexivity.
Defined.

(** The interface is never seen to disappear: the first wait raises. *)
Lemma wait_for_interface_deleted_waits_witness :
  exists s',
    wait_for_interface_deleted (built stuck) = (Raise TimeoutExpiredError, s') /\
    self s' = self (built stuck) /\ heap s' = heap (built stuck) /\
    waited_deleted (world s') =
      waited_deleted (world (built stuck)) ++ take 1 (calls_per_node [node1] ["br1"]).
Proof.
  apply (wait_for_interface_deleted_waits (built stuck) [node1] ["br1"] 0).
  - vm_compute. reflexivity.
  - vm_compute. repeat constructor.
  - vm_compute. lia.
  - intros i Hi. lia.
  - vm_compute. lia.
  - reflexivity.
Defined.

Lemma clean_up_of_active_nics_only_deletes_witness :
  clean_up eth0_only = delete eth0_only /\
  self (clean_up eth0_only).2 = self eth0_only /\
  heap (clean_up eth0_only).2 = heap eth0_only /\
  updated (world (clean_up eth0_only).2) = updated (world eth0_only) /\
  waited_deleted (world (clean_up eth0_only).2) = waited_deleted (world eth0_only) /\
  deleted (world (clean_up eth0_only).2) = S (deleted (world eth0_only)).
Proof.
  apply (clean_up_of_active_nics_only_deletes eth0_only).
  - vm_compute. reflexivity.
  - change (ifaces (self eth0_only)) with [0%nat]. constructor; [|constructor].
    exists "eth0". split; vm_compute; reflexivity.
Defined.

Lemma clean_up_dhcp_without_pods_witness :
  exists s',
    clean_up podless_state =
      (Raise (no_pods_error (worker_pods (self podless_state))), s') /\
    s' = inserted 0%nat
           (with_heap (fun h => <[0%nat := Iface.set_state Interface.State.ABSENT
                                             (primary_entry podless_policy bridge)]> h)
              podless_state) /\
    absent_in s' 0%nat /\
    updated (world s') = updated (world podless_state) /\
    deleted (world s') = deleted (world podless_state).
Proof.
  apply (clean_up_dhcp_without_pods podless_state [] [] 0%nat 0%nat "br1"
           (primary_entry podless_policy bridge)).
  - vm_compute. reflexivity.
  - vm_compute. reflexivity.
  - right. vm_compute. reflexivity.
  - vm_compute. reflexivity.
  - constructor.
  - vm_compute. reflexivity.
  - vm_compute. reflexivity.
  - vm_compute. repeat constructor. eauto.
  - vm_compute. reflexivity.
  - vm_compute. reflexivity.
  - vm_compute. eauto.
Defined.

Lemma _absent_interface_marks_all_witness :
  exists s',
    absent_all br1_then_br2 = (Ok tt, s') /\
    _absent_interface br1_then_br2 = apply s' /\
    (forall b, b ∈ ifaces (self br1_then_br2) -> absent_in s' b) /\
    (forall b n, b ∈ ifaces (self br1_then_br2) -> name_of br1_then_br2 b = Some n ->
       asks_absent s' n) /\
    (forall l, name_of s' l = name_of br1_then_br2 l) /\
    (forall l, l ∉ ifaces (self br1_then_br2) -> heap s' !! l = heap br1_then_br2 !! l) /\
    length (heap s') = length (heap br1_then_br2) /\
    ifaces (self s') = ifaces (self br1_then_br2) /\ world s' = world br1_then_br2.
Proof.
  apply (_absent_interface_marks_all br1_then_br2).
  - vm_compute. reflexivity.
  - vm_compute. repeat constructor; eauto.
  - vm_compute. repeat constructor; eauto.
Defined.


(** The MTU policy after [__enter__]: eth1 was backed up with 1500. *)
Lemma restore_mtu_declares_ports_witness :
  exists s',
    restore_mtu (entered (boot (mtu_policy [node1]) [bridge] calm)) = (Ok tt, s') /\
    declares_mtu s' "eth1" 1500.
Proof.
  destruct (restore_mtu_declares_ports (entered (boot (mtu_policy [node1]) [bridge] calm)))
    as (s' & Hrun & Hdecl & _).
  - vm_compute. reflexivity.
  - unfold plain_backups. vm_compute. repeat constructor.
  - vm_compute. repeat constructor. eauto.
  - vm_compute. repeat constructor. eauto.
  - exists s'. split; [exact Hrun|]. apply Hdecl.
    + vm_compute. repeat constructor.
    + vm_compute. reflexivity.
Defined.

(** The same policy cleaned up without having been entered, and with a
    backup that [str.strip] would clean and [int] rejects. *)
Lemma clean_up_without_mtu_backup_witness :
  (exists s',
     clean_up (boot (mtu_policy [node1]) [bridge] calm) = (Raise (KeyError "eth1"), s') /\
     world s' = world (boot (mtu_policy [node1]) [bridge] calm)) /\
  strip fenced_seven = "7" /\
  (exists s',
     clean_up fenced_backup = (Raise ValueError, s') /\
     world s' = world fenced_backup).
Proof.
  split; [|split; [vm_compute; reflexivity|]].
  - destruct (clean_up_without_mtu_backup (boot (mtu_policy [node1]) [bridge] calm)
                [] [] "eth1") as (s' & Hrun & Hworld & _).
    + vm_compute. reflexivity.
    + unfold plain_backups. vm_compute. constructor.
    + vm_compute. reflexivity.
    + constructor.
    + vm_compute. reflexivity.
    + vm_compute. constructor.
    + exists s'. split; [exact Hrun | exact Hworld].
  - destruct (clean_up_without_mtu_backup fenced_backup [] [] "eth1")
      as (s' & Hrun & Hworld & _).
    + vm_compute. reflexivity.
    + unfold plain_backups. vm_compute. repeat constructor.
    + vm_compute. reflexivity.
    + constructor.
    + vm_compute. reflexivity.
    + vm_compute. constructor.
    + exists s'. split; [exact Hrun | exact Hworld].
Defined.


Lemma _ipv4_state_backup_records_ports_witness :
  exists s',
    _ipv4_state_backup (dhcp_state "port1" dhcp_later) = (Ok tt, s') /\
    exists inner,
      dict_get "node1" (ipv4_iface_state (self s')) = Some inner /\
      dict_get "port1" inner = Some port1_backup /\
      dict_get "lo" inner = None.
Proof.
  destruct (_ipv4_state_backup_records_ports (dhcp_state "port1" dhcp_later) [node1]
              (fun _ => [observed "port1" (Some false) (Some true)]))
    as (s' & Hrun & _ & _ & _ & _ & Hlast & _).
  - vm_compute. reflexivity.
  - intros [|k] pod Hk; [|discriminate]. injection Hk as <-. split.
    + vm_compute. reflexivity.
    + constructor; [|constructor]. intros _. vm_compute. eauto.
  - exists s'. split; [exact Hrun|].
    destruct (Hlast 0%nat node1 eq_refl) as (inner & Hinner & Hget).
    + intros k' pod' Hlt Hk'. destruct k' as [|k']; [lia | discriminate].
    + exists inner. split; [exact Hinner|]. rewrite !Hget. split; reflexivity.
Defined.

Lemma __enter___returns_after_success_witness :
  exists s1 s2,
    before_try (static_state true calm) = (Ok tt, s1) /\
    wait_for_status_success s1 = (Ok Conditions.Reason.SUCCESS, s2) /\
    validate_create s2 = (Ok tt, entered (static_state true calm)) /\
    deleted (world (entered (static_state true calm))) =
      deleted (world (static_state true calm)) /\
    iface (self (entered (static_state true calm))) =
      iface (self (static_state true calm)) /\
    teardown (self (entered (static_state true calm))) =
      teardown (self (static_state true calm)).
Proof.
  apply (__enter___returns_after_success (static_state true calm)).
  vm_compute. reflexivity.
Defined.

(** Two pods run on node2: the first of them is kept. *)
Lemma __init___keeps_first_pod_of_node_witness :
  exists o,
    __init__ "policy" (Some ([node1] ++ node2 :: [node2])) (Some "node2") true None
      None false false None false None = Ok o /\
    worker_pods o = Some [node2] /\
    _node_selector o = Some [("kubernetes.io/hostname", "node2")] /\
    forall s s' doc,
      _node_selector (self s) = _node_selector o ->
      to_dict s = (Ok doc, s') ->
      nodeSelector doc = Some [("kubernetes.io/hostname", "node2")].
Proof.
  apply (__init___keeps_first_pod_of_node "policy" [node1] [node2] node2 "node2").
  - discriminate.
  - repeat constructor. vm_compute. discriminate.
  - reflexivity.
Defined.

(** The policy as the constructor returns it. *)
Lemma apply_needs_a_primary_interface_witness :
  to_dict (boot nics_policy [] calm) = (Raise TypeError, boot nics_policy [] calm) /\
  apply (boot nics_policy [] calm) = (Raise TypeError, boot nics_policy [] calm).
Proof.
  apply (apply_needs_a_primary_interface (boot nics_policy [] calm) worker_selector).
  - vm_compute. reflexivity.
  - vm_compute. reflexivity.
Defined.

(** Port1 has DHCP on the second node only: nothing is restored. *)
Lemma restore_dhcp_looks_at_first_node_witness :
  (restore_dhcp backed_up_two_nodes).1 = Ok tt /\
  self (after restore_dhcp backed_up_two_nodes) = self backed_up_two_nodes /\
  heap (after restore_dhcp backed_up_two_nodes) = heap backed_up_two_nodes.
Proof.
  split; [vm_compute; reflexivity|].
  apply (restore_dhcp_looks_at_first_node backed_up_two_nodes
           (after restore_dhcp backed_up_two_nodes) node1 [node2]
           [observed "port1" (Some false) (Some true)]
           [("port1", port1_backup)] (restore_dhcp backed_up_two_nodes).1).
  - vm_compute. reflexivity.
  - repeat constructor. vm_compute. discriminate.
  - vm_compute. reflexivity.
  - vm_compute. reflexivity.
  - constructor; [|constructor]. intros _. exists port1_backup.
    split; vm_compute; reflexivity.
  - unfold after. now destruct (restore_dhcp backed_up_two_nodes).
Defined.

(** ** [clean_up] when no deletion is confirmed *)

Lemma absent_each_frame (bs : list loc) : forall (s s' : Machine) (r : Result unit),
  _ipv4_dhcp (self s) = false ->
  for_each bs absent_one s = (r, s') ->
  self s' = set_desired_state (desired_state (self s')) (self s) /\
  oracle s' = oracle s.
Proof.
  induction bs as [|b bs IH]; intros s s' r Hdhcp.
  - intros [= _ <-]. split; [now destruct s as [[]] | reflexivity].
  - cbn [for_each]. rewrite bind_run. unfold absent_one at 1.
    rewrite bind_run. unfold setitem. rewrite bind_run, deref_run.
    destruct (heap s !! b) as [d|].
    2:{ intros [= _ <-]. split; [now destruct s as [[]] | reflexivity]. }
    cbn [modify]. rewrite bind_run.
    set (s1 := with_heap _ s).
    destruct (set_interface_run b s1) as (r1 & Hr1 & _). rewrite Hr1.
    destruct r1 as [[]|e|w].
    + rewrite bind_run. cbn [attr].
      change (_ipv4_dhcp (self (inserted b s1))) with (_ipv4_dhcp (self s)).
      rewrite Hdhcp. cbn [mret M_ret]. intros H.
      apply IH in H as [Hs Ho]; [|exact Hdhcp].
      split; [rewrite Hs; reflexivity | rewrite Ho; reflexivity].
    + intros [= _ <-]. split; [now destruct s as [[]] | reflexivity].
    + intros [= _ <-]. split; [now destruct s as [[]] | reflexivity].
Qed.

(** [x in self.ifaces] for a reference that is in the list. *)
Lemma in_ifaces_member (l : loc) (s : Machine) :
  l ∈ ifaces (self s) ->
  Forall (fun x => is_Some (heap s !! x)) (ifaces (self s)) ->
  in_ifaces l s = (Ok true, s).
Proof.
  intros Hin Hvalid. unfold in_ifaces. rewrite bind_run. cbn [attr].
  rewrite bind_run, deref_run.
  assert (Hl : is_Some (heap s !! l)) by (rewrite Forall_forall in Hvalid; auto).
  destruct Hl as [d Hd]. rewrite Hd.
  assert (Hgen : forall (xs : list loc) (found : bool),
    Forall (fun x => is_Some (heap s !! x)) xs ->
    (found = true \/ l ∈ xs) ->
    for_fold xs found (fun x (found : bool) =>
      if found then mret true
      else if Nat.eqb x l then mret true
      else dx ← deref x; mret (bool_decide (dx = d))) s = (Ok true, s)).
  { induction xs as [|x xs IH]; intros found Hxs Hcase.
    - destruct Hcase as [-> | Hnil]; [reflexivity | now apply elem_of_nil in Hnil].
    - apply Forall_cons in Hxs as [[dx Hx] Hxs]. cbn [for_fold]. rewrite bind_run.
      destruct found.
      + cbn [mret M_ret]. apply IH; auto.
      + destruct (Nat.eqb_spec x l) as [->|Hne].
        * cbn [mret M_ret]. apply IH; auto.
        * rewrite bind_run, deref_run, Hx. cbn [mret M_ret].
          destruct Hcase as [? | [->|Hin']%elem_of_cons]; [discriminate | congruence|].
          destruct (bool_decide (dx = d)); apply IH; auto. }
  apply Hgen; auto.
Qed.

(** The contents of dicts that exist. *)
Lemma contents_valid (ls : list loc) (s : Machine) :
  Forall (fun x => is_Some (heap s !! x)) ls ->
  exists v, contents ls s = (Ok v, s).
Proof.
  intros Hls. destruct (contents_run ls [] s) as (r & Hr & _).
  unfold contents. rewrite Hr. revert Hr. generalize (@nil Iface.dict) at 1.
  induction Hls as [|l ls [d Hd] _ IH]; intros acc.
  - intros [= <-]. eauto.
  - cbn [for_fold]. rewrite !bind_run, deref_run, Hd. cbn [mret M_ret]. apply IH.
Qed.

Lemma named_exists (s : Machine) (ls : list loc) :
  Forall (fun l => is_Some (name_of s l)) ls ->
  Forall (fun x => is_Some (heap s !! x)) ls.
Proof.
  intros H. eapply Forall_impl; [exact H|]. intros l [n Hn]. unfold name_of in Hn.
  destruct (heap s !! l); [eauto | discriminate].
Qed.

(** [to_dict] on a policy whose primary interface is known and whose
    dicts have names. *)
Lemma to_dict_known (s : Machine) (l : loc) (d : Iface.dict) :
  is_Some (_node_selector (self s)) ->
  iface (self s) = Some l -> l ∈ ifaces (self s) ->
  heap s !! l = Some d -> is_Some (Iface.name d) ->
  Forall (fun x => is_Some (name_of s x)) (ifaces (self s)) ->
  Forall (fun x => is_Some (name_of s x)) (desired_state (self s)) ->
  exists doc,
    to_dict s =
    (Ok doc, inserted l (with_heap (fun h => <[l := primary_entry (self s) d]> h) s)).
Proof.
  intros [sel Hsel] Hl Hin Hd Hnamed Hifs Hdesired.
  rewrite (to_dict_unfold s sel l d Hsel Hl Hd).
  set (t := with_heap _ s).
  assert (Hname : forall x, name_of t x = name_of s x).
  { intros x. apply (name_of_setitem s l x d); [exact Hd | reflexivity]. }
  unfold to_dict_rest. rewrite bind_run.
  destruct (set_interface_run l t) as (r & Hr & Hok). rewrite Hr, Hok.
  2:{ eapply Forall_impl; [exact Hdesired|]. intros x Hx. cbn beta. now rewrite Hname. }
  2:{ rewrite Hname. unfold name_of. now rewrite Hd. }
  rewrite bind_run, in_ifaces_member.
  2:{ exact Hin. }
  2:{ apply (named_exists (inserted l t)). eapply Forall_impl; [exact Hifs|].
      intros x Hx. cbn beta. now rewrite name_of_inserted, Hname. }
  cbn [mret M_ret]. rewrite bind_run. cbn [mret M_ret]. rewrite bind_run. cbn [attr].
  destruct (contents_valid (desired_state (self (inserted l t))) (inserted l t))
    as [v Hv].
  { apply named_exists. apply named_inserted.
    - eapply Forall_impl; [exact Hdesired|]. intros x Hx. cbn beta. now rewrite Hname.
    - rewrite Hname. unfold name_of. now rewrite Hd. }
  rewrite bind_run, Hv. eexists. reflexivity.
Qed.

Lemma absent_each_named (bs : list loc) : forall s s' : Machine,
  _ipv4_dhcp (self s) = false ->
  Forall (fun l => is_Some (name_of s l)) (desired_state (self s)) ->
  Forall (fun l => is_Some (name_of s l)) bs ->
  for_each bs absent_one s = (Ok tt, s') ->
  Forall (fun l => is_Some (name_of s' l)) (desired_state (self s')).
Proof.
  induction bs as [|b bs IH]; intros s s' Hdhcp Hdesired Hbs.
  - now intros [= <-].
  - apply Forall_cons in Hbs as [[n Hn] Hbs].
    destruct (heap s !! b) as [d|] eqn:Hb;
      [|unfold name_of in Hn; rewrite Hb in Hn; discriminate].
    assert (Hd : is_Some (Iface.name d)).
    { unfold name_of in Hn. rewrite Hb in Hn. cbn in Hn. rewrite Hn. eauto. }
    cbn [for_each]. rewrite bind_run, (absent_one_quiet s b d Hdhcp Hdesired Hb Hd).
    apply IH.
    + exact Hdhcp.
    + now apply named_marked_absent.
    + eapply Forall_impl; [exact Hbs|]. intros l Hl. cbn beta.
      now rewrite name_of_marked_absent.
Qed.

Lemma absent_in_setitem (s : Machine) (l b : loc) (d d' : Iface.dict) :
  heap s !! l = Some d -> Iface.state d' = Iface.state d ->
  absent_in s b -> absent_in (with_heap (fun h => <[l := d']> h) s) b.
Proof.
  intros Hl Hstate (db & Hb & Habs). destruct (decide (b = l)) as [->|Hne].
  - exists d'. split; [eapply setitem_lookup; exact Hl|]. congruence.
  - exists db. split; [|exact Habs]. cbn [with_heap heap].
    rewrite list_lookup_insert_ne by congruence. exact Hb.
Qed.

(** One turn of the loop of [clean_up] when no deletion is confirmed:
    every interface is marked absent, the document is submitted, the
    first wait times out, and the timeout is logged. *)
Lemma unconfirmed_turn (s : Machine) (x : loc) :
  deletions_unconfirmed s -> x ∈ ifaces (self s) ->
  exists s',
    clean_up_iface x s = (Ok tt, s') /\
    deletions_unconfirmed s' /\
    ifaces (self s') = ifaces (self s) /\
    oracle s' = oracle s /\
    LOGGER s' = LOGGER s ++ [ERROR_exc TimeoutExpiredError] /\
    length (updated (world s')) = S (length (updated (world s))) /\
    length (waited_deleted (world s')) = S (length (waited_deleted (world s))) /\
    deleted (world s') = deleted (world s) /\
    (forall b, b ∈ ifaces (self s) -> absent_in s' b).
Proof.
  intros [Hmtu Hdhcp (pod & pods & Hpods) Hsel (l & Hl & Hlin) Hifs Hdesired Hup Hwait] Hx.
  assert (Hnamed : Forall (fun b => is_Some (name_of s b)) (ifaces (self s))).
  { eapply Forall_impl; [exact Hifs|]. intros b (n & Hn & _). eauto. }
  destruct (proj1 (Forall_forall _ _) Hifs x Hx) as (n & Hn & Hnic).
  (* the loop of _absent_interface *)
  destruct (absent_each_quiet (ifaces (self s)) s Hdhcp Hdesired Hnamed) as
    (sa & Hrun & Hnames & _ & Hall & _ & _ & _ & _ & Hifs_a & Hw_a & Hlog_a).
  destruct (absent_each_frame _ _ _ _ Hdhcp Hrun) as [Hself_a Hor_a].
  pose proof (absent_each_named _ _ _ Hdhcp Hdesired Hnamed Hrun) as Hdesired_a.
  (* the document *)
  destruct (Hall l Hlin) as (da & Hda & Hstate_a).
  assert (Hda_name : is_Some (Iface.name da)).
  { destruct (proj1 (Forall_forall _ _) Hnamed l Hlin) as [nl Hnl].
    rewrite <- Hnames in Hnl. unfold name_of in Hnl. rewrite Hda in Hnl.
    cbn in Hnl. rewrite Hnl. eauto. }
  destruct (to_dict_known sa l da) as [doc Hdoc].
  { rewrite Hself_a. exact Hsel. }
  { rewrite Hself_a. exact Hl. }
  { rewrite Hifs_a. exact Hlin. }
  { exact Hda. }
  { exact Hda_name. }
  { rewrite Hifs_a. eapply Forall_impl; [exact Hnamed|]. intros b Hb. cbn beta.
    now rewrite Hnames. }
  { exact Hdesired_a. }
  set (sb := inserted l (with_heap (fun h => <[l := primary_entry (self sa) da]> h) sa))
    in *.
  assert (Hnames_b : forall b, name_of sb b = name_of s b).
  { intros b. unfold sb. rewrite name_of_inserted, <- Hnames.
    apply (name_of_setitem sa l b da); [exact Hda | reflexivity]. }
  assert (Hself_b : self sb = set_desired_state (desired_state (self sb)) (self s)).
  { unfold sb. cbn [inserted with_self with_heap self]. rewrite Hself_a. reflexivity. }
  (* the update *)
  set (sc := with_world (log_updated doc) sb).
  assert (Happly : _absent_interface s = (Ok tt, sc)).
  { unfold _absent_interface, absent_all. rewrite !bind_run. cbn [attr]. rewrite Hrun.
    rewrite (apply_run sa sb doc Hdoc), apply_loop_step.
    unfold update_answer. rewrite Nat.add_0_r.
    change (oracle sb) with (oracle sa). change (world sb) with (world sa).
    rewrite Hor_a, Hw_a, Hup by lia. reflexivity. }
  (* the wait *)
  destruct (ifaces (self s)) as [|b0 bs0] eqn:Hlist; [now apply elem_of_nil in Hx|].
  destruct (proj1 (Forall_forall _ _) Hnamed b0 ltac:(left)) as [n0 Hn0].
  set (sd := with_world (log_waited_deleted (node_name pod, n0)) sc).
  assert (Hwaits : wait_for_interface_deleted sc = (Raise TimeoutExpiredError, sd)).
  { unfold wait_for_interface_deleted, iter_worker_pods. rewrite !bind_run. cbn [attr].
    change (self sc) with (self sb). rewrite Hself_b. cbn [set_desired_state worker_pods].
    rewrite Hpods. cbn [mret M_ret for_each]. rewrite !bind_run. cbn [attr].
    change (self sc) with (self sb). rewrite Hself_b. cbn [set_desired_state ifaces].
    rewrite Hlist. cbn [for_each]. rewrite !bind_run.
    rewrite (getitem_name_named b0 sc n0) by (exact (Hnames_b b0) || (rewrite <- Hn0; exact (Hnames_b b0))).
    unfold wait_until_deleted. rewrite !bind_run. cbn [get]. rewrite !bind_run.
    cbn [modify].
    change (oracle sc) with (oracle sa). change (waited_deleted (world sc))
      with (waited_deleted (world sa)).
    rewrite Hor_a, Hw_a, Hwait by lia. reflexivity. }
  assert (Hturn : (_absent_interface;; wait_for_interface_deleted) s =
                  (Raise TimeoutExpiredError, sd)).
  { rewrite bind_run, Happly. exact Hwaits. }
  exists (with_LOGGER (fun l => l ++ [ERROR_exc TimeoutExpiredError]) sd).
  split; [exact (clean_up_iface_logs_timeout s sd x n Hn Hnic Hturn)|].
  assert (Hself_d : forall f, self (with_LOGGER f sd) = self sb) by reflexivity.
  assert (Hname_d : forall f b, name_of (with_LOGGER f sd) b = name_of s b).
  { intros f b. exact (Hnames_b b). }
  split; [|split; [|split; [|split; [|split; [|split; [|split]]]]]].
  - split.
    + rewrite Hself_d, Hself_b. exact Hmtu.
    + rewrite Hself_d, Hself_b. exact Hdhcp.
    + exists pod, pods. rewrite Hself_d, Hself_b. exact Hpods.
    + rewrite Hself_d, Hself_b. exact Hsel.
    + exists l. rewrite Hself_d, Hself_b. cbn [set_desired_state iface ifaces].
      rewrite Hlist. split; [exact Hl | exact Hlin].
    + rewrite Hself_d, Hself_b. cbn [set_desired_state ifaces node_active_nics].
      rewrite Hlist. eapply Forall_impl; [exact Hifs|].
      intros b (nb & Hnb & Hnicb). exists nb. rewrite Hname_d. auto.
    + rewrite Hself_d. unfold sb. apply named_inserted.
      * eapply Forall_impl; [exact Hdesired_a|]. intros b Hb. cbn beta.
        now rewrite (name_of_setitem sa l b da).
      * rewrite (name_of_setitem sa l l da) by (exact Hda || reflexivity).
        unfold name_of. now rewrite Hda.
    + intros m Hm. change (oracle (with_LOGGER _ sd)) with (oracle sa). rewrite Hor_a.
      apply Hup. cbn [with_LOGGER world] in Hm.
      change (updated (world sd)) with (updated (world sa) ++ [doc]) in Hm.
      rewrite Hw_a, length_app in Hm. lia.
    + intros m Hm. change (oracle (with_LOGGER _ sd)) with (oracle sa). rewrite Hor_a.
      apply Hwait. cbn [with_LOGGER world] in Hm.
      change (waited_deleted (world sd))
        with (waited_deleted (world sa) ++ [(node_name pod, n0)]) in Hm.
      rewrite Hw_a, length_app in Hm. lia.
  - rewrite Hself_d, Hself_b. cbn [set_desired_state ifaces]. exact Hlist.
  - change (oracle (with_LOGGER _ sd)) with (oracle sa). exact Hor_a.
  - change (LOGGER (with_LOGGER _ sd)) with (LOGGER sa ++ [ERROR_exc TimeoutExpiredError]).
    now rewrite Hlog_a.
  - change (updated (world (with_LOGGER _ sd))) with (updated (world sa) ++ [doc]).
    rewrite Hw_a, length_app. cbn [length]. lia.
  - change (waited_deleted (world (with_LOGGER _ sd)))
      with (waited_deleted (world sa) ++ [(node_name pod, n0)]).
    rewrite Hw_a, length_app. cbn [length]. lia.
  - change (deleted (world (with_LOGGER _ sd))) with (deleted (world sa)).
    now rewrite Hw_a.
  - intros b Hb. specialize (Hall b Hb).
    change (absent_in (with_heap (fun h => <[l := primary_entry (self sa) da]> h) sa) b).
    apply (absent_in_setitem sa l b da); [exact Hda | reflexivity | exact Hall].
Qed.

(** The loop of [clean_up] from the turn [i] on, when no deletion is
    confirmed: each of the [k] interfaces left gets its turn. *)
Lemma unconfirmed_loop (k : nat) : forall (i fuel : nat) (s : Machine),
  deletions_unconfirmed s ->
  (i + k)%nat = length (ifaces (self s)) -> (k <= fuel)%nat ->
  exists s',
    for_ifaces fuel i clean_up_iface s = (Ok tt, s') /\
    oracle s' = oracle s /\
    LOGGER s' = LOGGER s ++ replicate k (ERROR_exc TimeoutExpiredError) /\
    length (updated (world s')) = (length (updated (world s)) + k)%nat /\
    length (waited_deleted (world s')) = (length (waited_deleted (world s)) + k)%nat /\
    deleted (world s') = deleted (world s) /\
    (forall b, b ∈ ifaces (self s) -> absent_in s b -> absent_in s' b) /\
    ((0 < k)%nat -> forall b, b ∈ ifaces (self s) -> absent_in s' b).
Proof.
  induction k as [|k IH]; intros i fuel s Hs Hlen Hfuel.
  - exists s. rewrite for_ifaces_unfold, lookup_ge_None_2 by lia.
    rewrite app_nil_r, !Nat.add_0_r. repeat split; auto. lia.
  - destruct (lookup_lt_is_Some_2 (ifaces (self s)) i) as [x Hx]; [lia|].
    destruct fuel as [|fuel]; [lia|].
    destruct (unconfirmed_turn s x Hs (list_elem_of_lookup_2 _ _ _ Hx)) as
      (s1 & Hturn & Hs1 & Hifs & Hor & Hlog & Hup & Hwait & Hdel & Habs).
    rewrite (for_ifaces_continues fuel i s s1 x Hx Hturn).
    destruct (IH (S i) fuel s1 Hs1) as
      (s' & Hrun & Hor' & Hlog' & Hup' & Hwait' & Hdel' & Hkeep & _);
      [rewrite Hifs; lia | lia|].
    exists s'. split; [exact Hrun|]. split; [congruence|]. split.
    { rewrite Hlog', Hlog, <- app_assoc. reflexivity. }
    split; [lia|]. split; [lia|]. split; [congruence|].
    assert (Hall : forall b, b ∈ ifaces (self s) -> absent_in s' b).
    { intros b Hb. apply Hkeep; [rewrite Hifs; exact Hb | now apply Habs]. }
    split; [intros b Hb _; now apply Hall | intros _; exact Hall].
Qed.

(** The whole of [clean_up] when no deletion is confirmed. *)
Lemma clean_up_unconfirmed (s : Machine) :
  deletions_unconfirmed s ->
  exists s',
    clean_up s =
      (match delete_feed (oracle s) (deleted (world s)) with
       | None => Ok tt
       | Some e => Raise e
       end, s') /\
    LOGGER s' =
      LOGGER s ++ replicate (length (ifaces (self s))) (ERROR_exc TimeoutExpiredError) /\
    length (updated (world s')) =
      (length (updated (world s)) + length (ifaces (self s)))%nat /\
    length (waited_deleted (world s')) =
      (length (waited_deleted (world s)) + length (ifaces (self s)))%nat /\
    deleted (world s') = S (deleted (world s)) /\
    (forall b, b ∈ ifaces (self s) -> absent_in s' b).
Proof.
  intros Hs.
  destruct (unconfirmed_loop (length (ifaces (self s))) 0 (S (length (ifaces (self s)))) s Hs)
    as (s2 & Hloop & Hor & Hlog & Hup & Hwait & Hdel & _ & Habs); [lia | lia|].
  unfold clean_up. rewrite bind_run, (restore_mtu_off s (du_mtu s Hs)).
  rewrite bind_run. cbn [attr]. rewrite bind_run, Hloop, delete_run, Hor, Hdel.
  eexists. split; [reflexivity|].
  cbn [with_world LOGGER world tick_deleted updated waited_deleted deleted].
  split; [exact Hlog|]. split; [exact Hup|]. split; [exact Hwait|].
  split; [now rewrite Hdel|].
  intros b Hb. destruct (Habs ltac:(destruct (ifaces (self s));
    [now apply elem_of_nil in Hb | cbn; lia]) b Hb) as (d & Hd & Hst).
  exists d. auto.
Qed.

(** C8.  A [TimeoutExpiredError] raised while [clean_up] handles one
    interface (by the wait for its deletion, or by the [apply] before it)
    is caught and logged, and the handling of that interface ends
    normally.  The loop then goes on: from the state with the log record
    it takes the next interface of [self.ifaces].  So when no node ever
    confirms a deletion, every interface of [self.ifaces] still gets its
    turn: there are as many submitted documents, waits and logged
    timeouts as interfaces, every interface ends up absent, and [delete]
    is called at the end.  And from every well-formed state [clean_up]
    ends in one of two ways: it has called [delete] once, or it has
    raised an exception other than [TimeoutExpiredError] without having
    called it. *)
Theorem clean_up_survives_timeouts (s : Machine) :
  (forall s1 iface n,
     name_of s iface = Some n ->
     str_in n (node_active_nics (self s)) = false ->
     (_absent_interface;; wait_for_interface_deleted) s = (Raise TimeoutExpiredError, s1) ->
     clean_up_iface iface s =
     (Ok tt, with_LOGGER (fun l => l ++ [ERROR_exc TimeoutExpiredError]) s1)) /\
  (forall fuel i s1 iface n,
     ifaces (self s) !! i = Some iface ->
     name_of s iface = Some n ->
     str_in n (node_active_nics (self s)) = false ->
     (_absent_interface;; wait_for_interface_deleted) s = (Raise TimeoutExpiredError, s1) ->
     for_ifaces (S fuel) i clean_up_iface s =
     for_ifaces fuel (S i) clean_up_iface
       (with_LOGGER (fun l => l ++ [ERROR_exc TimeoutExpiredError]) s1)) /\
  (deletions_unconfirmed s ->
   exists s',
     clean_up s =
       (match delete_feed (oracle s) (deleted (world s)) with
        | None => Ok tt
        | Some e => Raise e
        end, s') /\
     LOGGER s' =
       LOGGER s ++ replicate (length (ifaces (self s))) (ERROR_exc TimeoutExpiredError) /\
     length (updated (world s')) =
       (length (updated (world s)) + length (ifaces (self s)))%nat /\
     length (waited_deleted (world s')) =
       (length (waited_deleted (world s)) + length (ifaces (self s)))%nat /\
     deleted (world s') = S (deleted (world s)) /\
     (forall b, b ∈ ifaces (self s) -> absent_in s' b)) /\
  (wf s ->
   exists r s', clean_up s = (r, s') /\
     (forall w, r <> Abort w) /\
     (deleted (world s') = S (deleted (world s)) \/
      deleted (world s') = deleted (world s) /\
      exists e, r = Raise e /\ e <> TimeoutExpiredError)).
Proof.
  split; [|split; [|split]].
  - intros s1 iface n. apply clean_up_iface_logs_timeout.
  - intros fuel i s1 iface n Hi Hn Hnic Hrun.
    apply (for_ifaces_continues fuel i s _ iface Hi).
    exact (clean_up_iface_logs_timeout s s1 iface n Hn Hnic Hrun).
  - apply clean_up_unconfirmed.
  - apply clean_up_outcome.
Qed.

(** Two bridges that never disappear from the nodes: the turn of br1
    times out and is logged, the loop goes on with the turn of br2,
    which times out and is logged as well, and [delete] is called. *)
Lemma clean_up_survives_timeouts_witness :
  ifaces (self bridges_stuck) = [0; 1]%nat /\
  clean_up_iface 0%nat bridges_stuck =
    (Ok tt,
     with_LOGGER (fun l => l ++ [ERROR_exc TimeoutExpiredError])
       (after (_absent_interface;; wait_for_interface_deleted) bridges_stuck)) /\
  for_ifaces 3 0 clean_up_iface bridges_stuck =
    for_ifaces 2 1 clean_up_iface
      (with_LOGGER (fun l => l ++ [ERROR_exc TimeoutExpiredError])
         (after (_absent_interface;; wait_for_interface_deleted) bridges_stuck)) /\
  (exists s',
     clean_up bridges_stuck = (Ok tt, s') /\
     LOGGER s' =
       LOGGER bridges_stuck ++
       [ERROR_exc TimeoutExpiredError; ERROR_exc TimeoutExpiredError] /\
     length (updated (world s')) = (length (updated (world bridges_stuck)) + 2)%nat /\
     length (waited_deleted (world s')) =
       (length (waited_deleted (world bridges_stuck)) + 2)%nat /\
     deleted (world s') = S (deleted (world bridges_stuck)) /\
     (forall b, b ∈ ifaces (self bridges_stuck) -> absent_in s' b)) /\
  (exists r s', clean_up bridges_stuck = (r, s') /\
     (forall w, r <> Abort w) /\
     (deleted (world s') = S (deleted (world bridges_stuck)) \/
      deleted (world s') = deleted (world bridges_stuck) /\
      exists e, r = Raise e /\ e <> TimeoutExpiredError)) /\
  waited_deleted (world (after clean_up bridges_stuck)) =
    [("node1", "br1"); ("node1", "br1")].
Proof.
  destruct (clean_up_survives_timeouts bridges_stuck)
    as (Hlogged & Hnext & Hall & Hdelete).
  split; [vm_compute; reflexivity|]. split; [|split; [|split; [|split]]].
  - apply (Hlogged _ 0%nat "br1").
    + reflexivity.
    + reflexivity.
    + vm_compute. reflexivity.
  - apply (Hnext 2%nat 0%nat _ 0%nat "br1").
    + reflexivity.
    + reflexivity.
    + reflexivity.
    + vm_compute. reflexivity.
  - apply Hall. split.
    + reflexivity.
    + reflexivity.
    + exists node1, []. reflexivity.
    + vm_compute. eauto.
    + exists 1%nat. split; [reflexivity|]. vm_compute. repeat constructor.
    + change (ifaces (self bridges_stuck)) with [0; 1]%nat.
      repeat constructor; eexists; split; vm_compute; reflexivity.
    + vm_compute. repeat constructor; eauto.
    + intros n _. reflexivity.
    + intros n _. reflexivity.
  - apply Hdelete. unfold wf, valid. vm_compute.
    split; [repeat constructor|]. split; [repeat constructor|].
    intros l [= <-]. repeat constructor.
  - vm_compute. reflexivity.
Defined.
